(** * atomic-reactor: the orchestrate_build plugin

    A shallow embedding of
    [atomic_reactor/plugins/build_orchestrate_build.py]: the retry
    bookkeeping of worker clusters ([ClusterRetryContext],
    [wait_for_any_cluster]), the ranking of clusters by load
    ([get_clusters]), the start and supervision of one worker build
    ([do_worker_build], [select_and_start_cluster]), the diagnosis of a
    failed build ([WorkerBuildInfo.get_fail_reason]) and the aggregation
    done by [OrchestrateBuildPlugin.run]; also the functions by which
    other plugins read and write the workspace of the plugin
    ([get_worker_build_info], [get_koji_upload_dir],
    [override_build_kwarg]) and [get_current_buildimage].

    Python objects that the plugin mutates live in an explicit [World];
    everything the plugin asks of the outside (the osbs sessions, the
    wall clock) is answered by an [Env] of oracles indexed by the number
    of interactions made so far, so that every run of the model is a
    deterministic, executable function of its environment. *)

From stdpp Require Import gmap strings list sorting.
From Stdlib Require Import ZArith QArith Lia Lqa SpecFloat DecimalString.

Set Warnings "-register-all,-clear-no-such-hyp".
Local Open Scope string_scope.
Local Open Scope list_scope.
Local Open Scope Z_scope.

(** ** Python values *)

(** Values stored in keyword arguments, configuration and annotations:
    the JSON-like fragment of Python the plugin handles, which is what
    [json.loads] returns.  A [float] is given by its IEEE 754 value; a
    nested [dict] keeps its insertion order. *)
Inductive pyval :=
| PNone
| PBool (b : bool)
| PInt (n : Z)
| PFloat (x : spec_float)
| PStr (s : string)
| PList (items : list pyval)
| PDict (entries : list (string * pyval)).

(** An insertion-ordered [dict] with string keys. *)
Definition dict (V : Type) := list (string * V).

Fixpoint dict_get {V} (d : dict V) (k : string) : option V :=
  match d with
  | [] => None
  | (k', v) :: d' => if String.eqb k' k then Some v else dict_get d' k
  end.

(** [d[k] = v]: an existing key keeps its position, a new one goes last. *)
Fixpoint dict_set {V} (d : dict V) (k : string) (v : V) : dict V :=
  match d with
  | [] => [(k, v)]
  | (k', v') :: d' =>
      if String.eqb k' k then (k', v) :: d' else (k', v') :: dict_set d' k v
  end.

(** [d.pop(k, None)] with the popped value dropped. *)
Definition dict_pop {V} (d : dict V) (k : string) : dict V :=
  filter (λ kv, negb (String.eqb kv.1 k)) d.

Definition dict_keys {V} (d : dict V) : list string := d.*1.

(** [for v in x]: the items of a list, the characters of a string, the
    keys of a dict; the other values are not iterable. *)
Definition py_iter (x : pyval) : option (list pyval) :=
  match x with
  | PList items => Some items
  | PStr s => Some ((λ a, PStr (String a EmptyString)) <$> String.list_ascii_of_string s)
  | PDict entries => Some (PStr <$> entries.*1)
  | PNone | PBool _ | PInt _ | PFloat _ => None
  end.

(** [type(x).__name__], as error messages quote it. *)
Definition type_name (x : pyval) : string :=
  match x with
  | PNone => "NoneType"
  | PBool _ => "bool"
  | PInt _ => "int"
  | PFloat _ => "float"
  | PStr _ => "str"
  | PList _ => "list"
  | PDict _ => "dict"
  end.

(** [v == s] for a string [s]. *)
Definition pyval_is_str (s : string) (v : pyval) : bool :=
  match v with
  | PStr s' => String.eqb s' s
  | _ => false
  end.

(** ** Exceptions *)

(** The exception classes the plugin raises or tells apart; the argument
    is what [str()] gives on the instance.  [OsbsException] stands for
    the class and its subclasses, [OtherError] for any further subclass
    of [Exception]. *)
Inductive exn :=
| OsbsException (msg : string)
| UnknownPlatformException (msg : string)
| AllClustersFailedException (msg : string)
| PluginFailedException (msg : string)
| RuntimeError (msg : string)
| ValueError (msg : string)
| TypeError (msg : string)
| KeyError (msg : string)
| AttributeError (msg : string)
| ZeroDivisionError (msg : string)
| OtherError (cls msg : string).

Definition str_exn (e : exn) : string :=
  match e with
  | OsbsException m | UnknownPlatformException m
  | AllClustersFailedException m | PluginFailedException m
  | RuntimeError m | ValueError m | TypeError m | KeyError m
  | AttributeError m | ZeroDivisionError m | OtherError _ m => m
  end.

(** [except OsbsException] *)
Definition is_OsbsException (e : exn) : bool :=
  match e with OsbsException _ => true | _ => false end.

(** ** Subscripts, and dicts with keys of any type *)

(** [x[k]] for a string [k]: only a dict can be subscripted by a
    string, and it raises [KeyError] when it has no such key. *)
Definition py_getitem (x : pyval) (k : string) : exn + pyval :=
  match x with
  | PDict entries =>
      match dict_get entries k with
      | Some v => inr v
      | None => inl (KeyError k)
      end
  | PNone => inl (TypeError "'NoneType' object is not subscriptable")
  | PBool _ => inl (TypeError "'bool' object is not subscriptable")
  | PInt _ => inl (TypeError "'int' object is not subscriptable")
  | PFloat _ => inl (TypeError "'float' object is not subscriptable")
  | PStr _ => inl (TypeError "string indices must be integers")
  | PList _ => inl (TypeError "list indices must be integers or slices, not str")
  end.

(** A dict that was not decoded from JSON, such as the [fail_reason]
    of [get_fail_reason], may get keys that are not strings: any
    hashable value will do. *)
Definition pydict := list (pyval * pyval).

(** [hash(x)] raises [TypeError] for a list and for a dict. *)
Definition py_hashable (x : pyval) : bool :=
  match x with
  | PList _ | PDict _ => false
  | _ => true
  end.

(** The number that a [bool], an [int] or a finite [float] is. *)
Definition py_number (x : pyval) : option Q :=
  match x with
  | PBool b => Some (inject_Z (Z.b2z b))
  | PInt n => Some (inject_Z n)
  | PFloat (S754_zero _) => Some 0%Q
  | PFloat (S754_finite s m e) =>
      Some (inject_Z (if s then Z.neg m else Z.pos m) * Qpower 2 e)%Q
  | _ => None
  end.

(** Whether two hashable values are the same key of a dict: numbers
    are compared by value whatever their type ([True == 1 == 1.0]),
    and the one [NaN] that [json.loads] returns is found again because
    it is the same object. *)
Definition py_key_eqb (a b : pyval) : bool :=
  match a, b with
  | PNone, PNone => true
  | PStr s, PStr t => String.eqb s t
  | PFloat S754_nan, PFloat S754_nan => true
  | PFloat (S754_infinity s), PFloat (S754_infinity t) => Bool.eqb s t
  | _, _ =>
      match py_number a, py_number b with
      | Some x, Some y => Qeq_bool x y
      | _, _ => false
      end
  end.

(** [d.get(k)] *)
Fixpoint pydict_get (d : pydict) (k : pyval) : option pyval :=
  match d with
  | [] => None
  | (k', v) :: d' => if py_key_eqb k' k then Some v else pydict_get d' k
  end.

(** [d[k] = v] for a hashable [k]: a key that is there keeps its
    position and stays the object it was. *)
Fixpoint pydict_set (d : pydict) (k v : pyval) : pydict :=
  match d with
  | [] => [(k, v)]
  | (k', v') :: d' =>
      if py_key_eqb k' k then (k', v) :: d' else (k', v') :: pydict_set d' k v
  end.

(** [str(n)] *)
Definition str_nat (n : nat) : string := NilZero.string_of_uint (Nat.to_uint n).

(** [d.update(other)] for an [other] without [keys()]: every item of
    [other] has to be a sequence of a key and a value.  The items
    before one that is not have been stored when the exception is
    raised; [i] counts the items. *)
Fixpoint merge_from_seq2 (d : pydict) (i : nat) (items : list pyval)
  : pydict * option exn :=
  match items with
  | [] => (d, None)
  | item :: items' =>
      match py_iter item with
      | None =>
          (d, Some (TypeError ("cannot convert dictionary update sequence element #"
                               +:+ str_nat i +:+ " to a sequence")))
      | Some [key; value] =>
          if py_hashable key then merge_from_seq2 (pydict_set d key value) (S i) items'
          else (d, Some (TypeError ("unhashable type: '" +:+ type_name key +:+ "'")))
      | Some fast =>
          (d, Some (ValueError ("dictionary update sequence element #" +:+ str_nat i
                                +:+ " has length " +:+ str_nat (length fast)
                                +:+ "; 2 is required")))
      end
  end.

(** [d.update(other)], [d] as it is afterwards and the exception
    raised, if any: the entries of a dict are stored in their order;
    anything else is iterated for pairs. *)
Definition py_dict_update (d : pydict) (other : pyval) : pydict * option exn :=
  match other with
  | PDict entries => (foldl (λ acc kv, pydict_set acc (PStr kv.1) kv.2) d entries, None)
  | _ =>
      match py_iter other with
      | None => (d, Some (TypeError ("'" +:+ type_name other
                                     +:+ "' object is not iterable")))
      | Some items => merge_from_seq2 d 0 items
      end
  end.

(** ** Configuration and remote objects *)

(** Modelled from the spec: the [ClusterConfig] objects returned by
    [get_enabled_clusters_for_platform] (declared in
    [atomic_reactor/config.py]); the plugin reads [name], [priority]
    and [max_concurrent_builds]. *)
Record ClusterConfig := {
  name : string;
  priority : Z;
  max_concurrent_builds : Z;
}.

(** What [json.loads] makes of the text of the [plugins-metadata]
    annotation of a build: the value it decodes to, or, for a text that
    is not JSON, the message of the [JSONDecodeError] (a [ValueError])
    it raises. *)
Inductive plugins_metadata :=
| MetaInvalid (msg : string)
| MetaValue (metadata : pyval).

(** An osbs [BuildResponse], by what the plugin reads of it. *)
Record BuildResponse := {
  get_build_name : string;
  is_finished : bool;
  is_succeeded : bool;
  (** [(get_annotations() or {}).get('plugins-metadata')] *)
  annotation_plugins_metadata : option plugins_metadata;
}.

(** An osbs [PodResponse]: the outcome of [get_failure_reason()]. *)
Record PodResponse := {
  get_failure_reason : exn + pyval;
}.

(** [ClusterInfo = namedtuple(... 'cluster', 'platform', 'osbs', 'load')]
    as [get_cluster_info] builds it.  The osbs session is determined by
    its cluster; the load, a Python float obtained by true division of
    two integers, is kept as the rational number that float is. *)
Record ClusterInfo := {
  cluster : ClusterConfig;
  platform : string;
  load : Q;
}.

(** The integer nearest to [n / d] for [0 < d], the even one of two
    that are equally near. *)
Definition round_half_even (n d : Z) : Z :=
  let q := n / d in
  match 2 * (n mod d) ?= d with
  | Lt => q
  | Gt => q + 1
  | Eq => if Z.even q then q else q + 1
  end.

(** [a / b] on integers ([int.__truediv__]): the quotient rounded to the
    nearest IEEE 754 double, that is to 53 significant bits and to a
    multiple of [2^-1074], ties going to the even significand.  It
    raises [ZeroDivisionError] for a zero divisor and [OverflowError]
    when the rounded quotient is beyond the doubles.  Both signs of
    zero are the number 0. *)
Definition true_div (a b : Z) : exn + Q :=
  if b =? 0 then inl (ZeroDivisionError "division by zero")
  else if a =? 0 then inr 0%Q
  else
    let n := Z.abs a in
    let d := Z.abs b in
    (* [2^e <= n / d < 2^(e+1)] *)
    let e0 := Z.log2 n - Z.log2 d in
    let e := if n * 2 ^ Z.max 0 (- e0) <? d * 2 ^ Z.max 0 e0 then e0 - 1 else e0 in
    (* the doubles near [n / d] are the multiples of [2^-shift] *)
    let shift := 52 - Z.max e (-1022) in
    let m := round_half_even (n * 2 ^ Z.max 0 shift) (d * 2 ^ Z.max 0 (- shift)) in
    if (shift <? 0) && (2 ^ 1024 <=? m * 2 ^ (- shift)) then
      inl (OtherError "OverflowError" "integer division result too large for a float")
    else
      inr (Qred (inject_Z (Z.sgn a * Z.sgn b * m) * Qpower 2 (- shift))%Q).

(** ** sorted *)

(** [sorted(l, key=key)]: the stable sort, which compares keys with
    [<] only.  An element moves left past the elements whose key is
    strictly greater and no further. *)
Section Sorted.
Context {A K : Type} (ltb : K → K → bool) (key : A → K).

Fixpoint sorted_insert (x : A) (l : list A) : list A :=
  match l with
  | [] => [x]
  | y :: l' =>
      if ltb (key y) (key x) then y :: sorted_insert x l' else x :: y :: l'
  end.

Definition sorted (l : list A) : list A := foldr sorted_insert [] l.
End Sorted.

Definition Qltb (x y : Q) : bool := negb (Qle_bool y x).

(** ** ClusterRetryContext *)

(** Datetimes are microseconds on the naive time line whose origin is
    [utcfromtimestamp(0)]; [fails] and [max_cluster_fails] are counts
    ("how many times this cluster has failed", "the number of fail
    counts before this cluster is considered dead"). *)
Record ClusterRetryContext := {
  fails : nat;
  retry_at : Z;
  max_cluster_fails : nat;
}.

Definition new_ClusterRetryContext (max_fails : nat) : ClusterRetryContext :=
  {| fails := 0; retry_at := 0; max_cluster_fails := max_fails |}.

(** [ClusterRetryContext.failed]: [self.fails >= self.max_cluster_fails] *)
Definition failed (ctx : ClusterRetryContext) : bool :=
  (max_cluster_fails ctx <=? fails ctx)%nat.

(** ** WorkerBuildInfo *)

(** [monitor_exception] holds an exception instance (set by
    [do_worker_build]) or a [str] (set by [select_and_start_cluster]). *)
Inductive monitor_value :=
| MonException (e : exn)
| MonStr (s : string).

Record WorkerBuildInfo := {
  build : option BuildResponse;
  wb_cluster : option ClusterConfig;
  wb_platform : string;
  monitor_exception : option monitor_value;
}.

(** Truth value of [self.monitor_exception]. *)
Definition monitor_truthy (m : option monitor_value) : bool :=
  match m with
  | None => false
  | Some (MonException _) => true
  | Some (MonStr s) => negb (String.eqb s "")
  end.

Definition str_monitor (m : monitor_value) : string :=
  match m with
  | MonException e => str_exn e
  | MonStr s => s
  end.

(** [WorkerBuildInfo.name] *)
Definition wb_name (bi : WorkerBuildInfo) : string :=
  match build bi with
  | Some b => get_build_name b
  | None => "N/A"
  end.

(** ** The plugin, its environment and its mutable state *)

Record ReactorConfig := {
  is_default : bool;
  conf : dict pyval;
  get_enabled_clusters_for_platform : string → list ClusterConfig;
}.

(** The attributes of [OrchestrateBuildPlugin] that [__init__] fixes.
    Delays are in microseconds. *)
Record Plugin := {
  platforms : gset string;
  reactor_config : ReactorConfig;
  find_cluster_retry_delay : Z;
  failure_retry_delay : Z;
  self_max_cluster_fails : nat;
  koji_upload_dir : string;
  fs_task_id : option Z;
  release : pyval;
}.

Abbreviation kwargs := (gmap string pyval).

(** The outside world.  Every oracle takes the number of interactions
    made before the call, so a session may answer the same question
    differently each time.  [elapsed n] is the time, in microseconds,
    that interaction [n] takes; [set_iter] is the order in which a
    Python [set] of clusters is iterated. *)
Record Env := {
  elapsed : nat → nat;
  set_iter : list ClusterConfig → list ClusterConfig;
  (** [len(osbs.list_builds(field_selector=...))] *)
  osbs_list_builds : ClusterConfig → nat → exn + nat;
  get_openshift_base_uri : ClusterConfig → pyval;
  get_verify_ssl : ClusterConfig → bool;
  get_use_auth : ClusterConfig → pyval;
  osbs_create_worker_build : ClusterConfig → kwargs → nat → exn + BuildResponse;
  (** the lines [get_build_logs] yields, and the exception that ends
      the stream if one does *)
  osbs_get_build_logs : ClusterConfig → string → nat → list string * option exn;
  osbs_wait_for_build_to_finish : ClusterConfig → string → nat → exn + BuildResponse;
  osbs_cancel_build : ClusterConfig → string → nat → option exn;
  osbs_get_pod_for_build : ClusterConfig → string → nat → exn + PodResponse;
  json_dumps : dict pydict → string;
}.

(** What the plugin does that can be seen from outside, in order. *)
Inductive event :=
| EvSleep (seconds : Z)
| EvListBuilds (cluster_name : string)
| EvAttempt (platform cluster_name : string)
| EvCreate (cluster_name : string) (kw : kwargs)
| EvLogLine (platform line : string)
| EvWaitToFinish (cluster_name build_name : string)
| EvCancelBuild (platform : string)
| EvOsbsCancel (cluster_name build_name : string)
| EvGetPod (cluster_name build_name : string).

(** [workflow.data.plugin_workspace[OrchestrateBuildPlugin.key]] *)
Record Workspace := {
  override_kwargs : option (gmap (option string) kwargs);
  ws_koji_upload_dir : option string;
  ws_build_info : option (dict WorkerBuildInfo);
}.

Record World := {
  tick : nat;
  clock : Z;
  trace : list event;
  worker_builds : list WorkerBuildInfo;
  build_kwargs : kwargs;
  plugin_workspace : option Workspace;
}.

(** ** Computations: state, exceptions, fuel *)

Inductive outcome (A : Type) :=
| Ret (a : A)
| Raise (e : exn)
| OutOfFuel.
Arguments Ret {A} a.
Arguments Raise {A} e.
Arguments OutOfFuel {A}.

Definition M (A : Type) : Type := World → outcome A * World.

Definition pure {A} (a : A) : M A := λ w, (Ret a, w).

Definition bind {A B} (m : M A) (f : A → M B) : M B := λ w,
  match m w with
  | (Ret a, w') => f a w'
  | (Raise e, w') => (Raise e, w')
  | (OutOfFuel, w') => (OutOfFuel, w')
  end.

Notation "'let!' x ':=' m 'in' k" := (bind m (λ x, k))
  (at level 10, x binder, m at level 100, k at level 200,
   format "'[v' 'let!'  x  ':='  m  'in' '/' k ']'").
Notation "m ';;' k" := (bind m (λ _, k))
  (at level 100, k at level 200, right associativity, only parsing).

Definition raise {A} (e : exn) : M A := λ w, (Raise e, w).
Definition out_of_fuel {A} : M A := λ w, (OutOfFuel, w).

(** [try: m  except Exception as e: ...], the handler being the
    continuation's [inl] case. *)
Definition try_ {A} (m : M A) : M (exn + A) := λ w,
  match m w with
  | (Ret a, w') => (Ret (inr a), w')
  | (Raise e, w') => (Ret (inl e), w')
  | (OutOfFuel, w') => (OutOfFuel, w')
  end.

Definition get_world : M World := λ w, (Ret w, w).
Definition put_world (w : World) : M unit := λ _, (Ret tt, w).

Definition emit (ev : event) : M unit := λ w,
  (Ret tt, {| tick := tick w; clock := clock w; trace := trace w ++ [ev];
              worker_builds := worker_builds w; build_kwargs := build_kwargs w;
              plugin_workspace := plugin_workspace w |}).

Definition advance_clock (d : Z) : M unit := λ w,
  (Ret tt, {| tick := tick w; clock := clock w + d; trace := trace w;
              worker_builds := worker_builds w; build_kwargs := build_kwargs w;
              plugin_workspace := plugin_workspace w |}).

Definition set_worker_builds (l : list WorkerBuildInfo) : M unit := λ w,
  (Ret tt, {| tick := tick w; clock := clock w; trace := trace w;
              worker_builds := l; build_kwargs := build_kwargs w;
              plugin_workspace := plugin_workspace w |}).

Definition set_plugin_workspace (ws : option Workspace) : M unit := λ w,
  (Ret tt, {| tick := tick w; clock := clock w; trace := trace w;
              worker_builds := worker_builds w; build_kwargs := build_kwargs w;
              plugin_workspace := ws |}).

Section Orchestrate.
Context (env : Env) (self : Plugin).

(** One interaction with the outside: it takes [elapsed] time and
    yields its sequence number. *)
Definition interact : M nat := λ w,
  (Ret (tick w),
   {| tick := S (tick w); clock := clock w + Z.of_nat (elapsed env (tick w));
      trace := trace w; worker_builds := worker_builds w;
      build_kwargs := build_kwargs w; plugin_workspace := plugin_workspace w |}).

(** [dt.datetime.now()] *)
Definition now : M Z :=
  interact;; let! w := get_world in pure (clock w).

(** [time.sleep(seconds)] for an integer number of seconds *)
Definition sleep (seconds : Z) : M unit :=
  if seconds <? 0 then raise (ValueError "sleep length must be non-negative")
  else
    emit (EvSleep seconds);;
    advance_clock (seconds * 1000000);;
    interact;;
    pure tt.

(** [ClusterRetryContext.in_retry_wait] *)
Definition in_retry_wait (ctx : ClusterRetryContext) : M bool :=
  let! t := now in pure (t <? retry_at ctx).

(** [ClusterRetryContext.try_again_later] *)
Definition try_again_later (seconds : Z) (ctx : ClusterRetryContext)
  : M ClusterRetryContext :=
  if failed ctx then pure ctx
  else
    let! t := now in
    pure {| fails := S (fails ctx); retry_at := t + seconds;
            max_cluster_fails := max_cluster_fails ctx |}.

Definition all_clusters_failed_msg : string :=
  "Could not find appropriate cluster for worker build.".

(** [timedelta.seconds] of [max(timedelta(seconds=0), d)], [d] in
    microseconds: the seconds field, days and microseconds left out. *)
Definition timedelta_seconds (d : Z) : Z :=
  (Z.max 0 d / 1000000) mod 86400.

(** [wait_for_any_cluster] *)
Definition wait_for_any_cluster (contexts : gmap string ClusterRetryContext)
  : M unit :=
  match filter (λ ctx, negb (failed ctx)) (map_to_list contexts).*2 with
  | [] => raise (AllClustersFailedException all_clusters_failed_msg)
  | ctx :: ctxs =>
      let earliest_retry_at := foldr (λ c, Z.min (retry_at c)) (retry_at ctx) ctxs in
      let! t := now in
      sleep (timedelta_seconds (earliest_retry_at - t))
  end.

(** [get_current_builds] followed by the division in
    [get_cluster_info]. *)
Definition get_cluster_info (c : ClusterConfig) (p : string) : M ClusterInfo :=
  let! n := interact in
  emit (EvListBuilds (name c));;
  match osbs_list_builds env c n with
  | inl e => raise e
  | inr current_builds =>
      match true_div (Z.of_nat current_builds) (max_concurrent_builds c) with
      | inl e => raise e
      | inr l => pure {| cluster := c; platform := p; load := l |}
      end
  end.

Abbreviation contexts := (gmap string ClusterRetryContext).

(** [retry_contexts[cluster.name]] *)
Definition lookup_context (ctxs : contexts) (c : ClusterConfig)
  : M ClusterRetryContext :=
  match ctxs !! name c with
  | Some ctx => pure ctx
  | None => raise (KeyError (name c))
  end.

(** The [for cluster in sorted(candidates, ...)] loop of
    [get_clusters]; [possible] is [possible_cluster_info.values()]. *)
Fixpoint query_clusters (cs : list ClusterConfig) (p : string)
    (ctxs : contexts) (possible : list ClusterInfo)
  : M (contexts * list ClusterInfo) :=
  match cs with
  | [] => pure (ctxs, possible)
  | c :: cs' =>
      let! ctx := lookup_context ctxs c in
      let! waiting := in_retry_wait ctx in
      if waiting then query_clusters cs' p ctxs possible
      else if failed ctx then query_clusters cs' p ctxs possible
      else
        let! r := try_ (get_cluster_info c p) in
        match r with
        | inr cluster_info =>
            query_clusters cs' p ctxs (possible ++ [cluster_info])
        | inl (OsbsException _) =>
            let! ctx' := try_again_later (find_cluster_retry_delay self) ctx in
            query_clusters cs' p (<[name c := ctx']> ctxs) possible
        | inl e => raise e
        end
  end.

(** [candidates -= {c for c in candidates if retry_contexts[c.name].failed}] *)
Fixpoint drop_failed (ctxs : contexts) (candidates : list ClusterConfig)
  : M (list ClusterConfig) :=
  match candidates with
  | [] => pure []
  | c :: cs =>
      let! ctx := lookup_context ctxs c in
      let! rest := drop_failed ctxs cs in
      pure (if failed ctx then rest else c :: rest)
  end.

(** The [while candidates and not possible_cluster_info] loop. *)
Fixpoint get_clusters_loop (fuel : nat) (p : string) (ctxs : contexts)
    (candidates : list ClusterConfig) : M (contexts * list ClusterInfo) :=
  match candidates with
  | [] => pure (ctxs, [])
  | _ :: _ =>
      match fuel with
      | O => out_of_fuel
      | S fuel' =>
          wait_for_any_cluster ctxs;;
          let! '(ctxs1, possible) :=
            query_clusters
              (sorted Z.ltb priority (set_iter env candidates)) p ctxs [] in
          let! candidates1 := drop_failed ctxs1 candidates in
          match possible with
          | [] => get_clusters_loop fuel' p ctxs1 candidates1
          | _ :: _ => pure (ctxs1, possible)
          end
      end
  end.

(** [get_clusters]: the retry contexts are mutated in place, so they
    are returned along with the ranking. *)
Definition get_clusters (fuel : nat) (p : string) (retry_contexts : contexts)
    (all_clusters : list ClusterConfig) : M (contexts * list ClusterInfo) :=
  let! '(ctxs, possible) := get_clusters_loop fuel p retry_contexts all_clusters in
  let ret := sorted Z.ltb (λ c, priority (cluster c)) possible in
  let ret := sorted Qltb load ret in
  pure (ctxs, ret).

(** *** Keyword arguments of a worker build *)

(** [_update_content_versions(worker_reactor_conf)] with the default
    [valid_values=('v2',)] *)
Definition _update_content_versions (worker_reactor_conf : dict pyval)
  : M (dict pyval) :=
  match dict_get worker_reactor_conf "content_versions" with
  | None => pure worker_reactor_conf
  | Some versions =>
      match py_iter versions with
      | None => raise (TypeError ("'" +:+ type_name versions
                                  +:+ "' object is not iterable"))
      | Some vs =>
          let valid := filter (λ v, pyval_is_str "v2" v) vs in
          match valid with
          | [] => raise (RuntimeError "content_versions is empty")
          | _ :: _ =>
              pure (dict_set worker_reactor_conf "content_versions" (PList valid))
          end
      end
  end.

(** [get_worker_build_kwargs]; [deepcopy(self.build_kwargs)] reads
    the plugin's dictionary and works on a copy. *)
Definition get_worker_build_kwargs (release : pyval) (p : string)
    (koji_upload_dir : string) (task_id : option Z) (worker_openshift : pyval)
  : M kwargs :=
  let! w := get_world in
  let kw := build_kwargs w in
  let kw := delete "architecture" kw in
  let kw := <["release" := release]> kw in
  let kw := <["platform" := PStr p]> kw in
  let kw := <["koji_upload_dir" := PStr koji_upload_dir]> kw in
  let kw :=
    match task_id with
    | Some n => if n =? 0 then kw else <["filesystem_koji_task_id" := PInt n]> kw
    | None => kw
    end in
  if is_default (reactor_config self) then pure kw
  else
    let worker_reactor_conf := conf (reactor_config self) in
    let worker_reactor_conf := dict_set worker_reactor_conf "openshift" worker_openshift in
    let worker_reactor_conf := dict_pop worker_reactor_conf "worker_token_secrets" in
    let! worker_reactor_conf := _update_content_versions worker_reactor_conf in
    pure (<["reactor_config_override" := PDict worker_reactor_conf]> kw).

(** The overrides of [do_worker_build]: [kwargs.update] for all
    platforms, then for this one. *)
Definition apply_overrides (ov : gmap (option string) kwargs) (p : string)
    (kw : kwargs) : kwargs :=
  let kw := match ov !! None with Some o => o ∪ kw | None => kw end in
  match ov !! Some p with Some o => o ∪ kw | None => kw end.

(** *** WorkerBuildInfo methods

    A [WorkerBuildInfo] is shared between [self.worker_builds] and
    the task that made it; the methods that mutate it take its
    position in [self.worker_builds]. *)

Definition get_build_info (i : nat) : M WorkerBuildInfo :=
  let! w := get_world in
  match worker_builds w !! i with
  | Some bi => pure bi
  | None => raise (OtherError "IndexError" "list index out of range")
  end.

(** [self.worker_builds.append(build_info)]; the position of the new
    entry is returned. *)
Definition append_worker_build (build_info : WorkerBuildInfo) : M nat :=
  let! w := get_world in
  set_worker_builds (worker_builds w ++ [build_info]);;
  pure (length (worker_builds w)).

(** [self.build = b] *)
Definition set_build (i : nat) (b : option BuildResponse) : M unit :=
  let! w := get_world in
  set_worker_builds
    (alter (λ bi, {| build := b; wb_cluster := wb_cluster bi;
                     wb_platform := wb_platform bi;
                     monitor_exception := monitor_exception bi |})
           i (worker_builds w)).

(** [build_info.monitor_exception = m] *)
Definition set_monitor_exception (i : nat) (m : option monitor_value) : M unit :=
  let! w := get_world in
  set_worker_builds
    (alter (λ bi, {| build := build bi; wb_cluster := wb_cluster bi;
                     wb_platform := wb_platform bi;
                     monitor_exception := m |})
           i (worker_builds w)).

(** [self.osbs], [None] in the placeholder of a platform without
    usable cluster. *)
Definition get_osbs (bi : WorkerBuildInfo) : M ClusterConfig :=
  match wb_cluster bi with
  | Some c => pure c
  | None => raise (AttributeError "'NoneType' object has no attribute")
  end.

Fixpoint log_lines (p : string) (lines : list string) : M unit :=
  match lines with
  | [] => pure tt
  | line :: lines' => emit (EvLogLine p line);; log_lines p lines'
  end.

(** [watch_logs] *)
Definition watch_logs (i : nat) : M unit :=
  let! bi := get_build_info i in
  let! c := get_osbs bi in
  let! n := interact in
  let '(lines, err) := osbs_get_build_logs env c (wb_name bi) n in
  log_lines (wb_platform bi) lines;;
  match err with
  | Some e => raise e
  | None => pure tt
  end.

(** [wait_to_finish] *)
Definition wait_to_finish (i : nat) : M unit :=
  let! bi := get_build_info i in
  let! c := get_osbs bi in
  let! n := interact in
  emit (EvWaitToFinish (name c) (wb_name bi));;
  match osbs_wait_for_build_to_finish env c (wb_name bi) n with
  | inl e => raise e
  | inr b => set_build i (Some b)
  end.

(** [cancel_build]; [EvCancelBuild] marks the call itself,
    [EvOsbsCancel] the request sent to the cluster. *)
Definition cancel_build (i : nat) : M unit :=
  let! bi := get_build_info i in
  emit (EvCancelBuild (wb_platform bi));;
  match build bi with
  | Some b =>
      if is_finished b then pure tt
      else
        let! c := get_osbs bi in
        let! n := interact in
        emit (EvOsbsCancel (name c) (wb_name bi));;
        match osbs_cancel_build env c (wb_name bi) n with
        | Some e => raise e
        | None => pure tt
        end
  | None => pure tt
  end.

(** [str(self.monitor_exception)] when [self.monitor_exception] is
    true. *)
Definition monitor_message (bi : WorkerBuildInfo) : option string :=
  match monitor_exception bi with
  | Some m => if monitor_truthy (Some m) then Some (str_monitor m) else None
  | None => None
  end.

Definition set_general (fail_reason : pydict) (bi : WorkerBuildInfo) : pydict :=
  match monitor_message bi with
  | Some msg => pydict_set fail_reason (PStr "general") (PStr msg)
  | None => fail_reason
  end.

(** The search for the pod of the build, made when the metadata have
    no [errors]. *)
Definition get_pod_failure_reason (bi : WorkerBuildInfo) (b : BuildResponse)
    (fail_reason : pydict) : M pydict :=
  let! r := try_ (
    let build_name := get_build_name b in
    let! c := get_osbs bi in
    let! n := interact in
    emit (EvGetPod (name c) build_name);;
    match osbs_get_pod_for_build env c build_name n with
    | inl e => raise e
    | inr pod =>
        match get_failure_reason pod with
        | inl e => raise e
        | inr reason => pure (pydict_set fail_reason (PStr "pod") reason)
        end
    end) in
  match r with
  | inr fail_reason' => pure fail_reason'
  | inl (OsbsException _) | inl (AttributeError _) => pure fail_reason
  | inl e => raise e
  end.

(** [get_fail_reason] *)
Definition get_fail_reason (bi : WorkerBuildInfo) : M pydict :=
  let fail_reason : pydict := [] in
  let fail_reason :=
    match monitor_message bi with
    | Some msg => pydict_set fail_reason (PStr "general") (PStr msg)
    | None =>
        match build bi with
        | None => pydict_set fail_reason (PStr "general") (PStr "build not started")
        | Some _ => fail_reason
        end
    end in
  match build bi with
  | None => pure fail_reason
  | Some b =>
      match default (MetaValue (PDict [])) (annotation_plugins_metadata b) with
      | MetaInvalid msg => raise (ValueError msg)
      | MetaValue metadata =>
          let fail_reason := set_general fail_reason bi in
          (* [fail_reason.update(metadata['errors'])] under [except KeyError] *)
          let '(fail_reason, raised) :=
            match py_getitem metadata "errors" with
            | inl e => (fail_reason, Some e)
            | inr errors => py_dict_update fail_reason errors
            end in
          match raised with
          | None => pure fail_reason
          | Some (KeyError _) => get_pod_failure_reason bi b fail_reason
          | Some e => raise e
          end
      end
  end.

(** *** Starting and supervising a worker build *)

Definition worker_openshift (c : ClusterConfig) : pyval :=
  PDict [("url", get_openshift_base_uri env c);
         ("insecure", PBool (negb (get_verify_ssl env c)));
         ("auth", PDict [("enable", get_use_auth env c)])].

(** The body of the first [try] of [do_worker_build]. *)
Definition create_build (cluster_info : ClusterInfo) : M BuildResponse :=
  let! w := get_world in
  let ov := default ∅ (plugin_workspace w ≫= override_kwargs) in
  let c := cluster cluster_info in
  let! kw := get_worker_build_kwargs (release self) (platform cluster_info)
               (koji_upload_dir self) (fs_task_id self) (worker_openshift c) in
  let kw := apply_overrides ov (platform cluster_info) kw in
  let! n := interact in
  emit (EvCreate (name c) kw);;
  match osbs_create_worker_build env c kw n with
  | inl e => raise e
  | inr b => pure b
  end.

(** The monitoring of a created build, with its handler. *)
Definition monitor_build (i : nat) : M unit :=
  let! r := try_ (watch_logs i;; wait_to_finish i) in
  match r with
  | inr _ => pure tt
  | inl e =>
      set_monitor_exception i (Some (MonException e));;
      let! r := try_ (cancel_build i) in
      match r with
      | inr _ => pure tt
      | inl (OsbsException _) => pure tt
      | inl e' => raise e'
      end
  end.

(** [do_worker_build] *)
Definition do_worker_build (cluster_info : ClusterInfo) : M unit :=
  let! r := try_ (create_build cluster_info) in
  let! build :=
    match r with
    | inr b => pure (Some b)
    | inl (OsbsException msg) => raise (OsbsException msg)
    | inl _ => pure None
    end in
  let build_info :=
    {| build := build; wb_cluster := Some (cluster cluster_info);
       wb_platform := platform cluster_info; monitor_exception := None |} in
  let! i := append_worker_build build_info in
  match build with
  | Some _ => monitor_build i
  | None => pure tt
  end.

(** The [for cluster_info in possible_cluster_info] loop; [true]
    stands for the [return] after [do_worker_build]. *)
Fixpoint start_on_clusters (p : string) (possible_cluster_info : list ClusterInfo)
    (ctxs : contexts) : M (bool * contexts) :=
  match possible_cluster_info with
  | [] => pure (false, ctxs)
  | cluster_info :: rest =>
      let! ctx := lookup_context ctxs (cluster cluster_info) in
      emit (EvAttempt p (name (cluster cluster_info)));;
      let! r := try_ (do_worker_build cluster_info) in
      match r with
      | inr _ => pure (true, ctxs)
      | inl (OsbsException _) =>
          let! ctx' := try_again_later (failure_retry_delay self) ctx in
          start_on_clusters p rest (<[name (cluster cluster_info) := ctx']> ctxs)
      | inl e => raise e
      end
  end.

(** The [while True] loop of [select_and_start_cluster]. *)
Fixpoint select_loop (fuel : nat) (p : string) (clusters : list ClusterConfig)
    (ctxs : contexts) : M unit :=
  match fuel with
  | O => out_of_fuel
  | S fuel' =>
      let! r := try_ (get_clusters fuel p ctxs clusters) in
      match r with
      | inl (AllClustersFailedException msg) =>
          let build_info :=
            {| build := None; wb_cluster := None; wb_platform := p;
               monitor_exception := Some (MonStr msg) |} in
          append_worker_build build_info;;
          pure tt
      | inl e => raise e
      | inr (ctxs1, possible_cluster_info) =>
          let! '(started, ctxs2) := start_on_clusters p possible_cluster_info ctxs1 in
          if started : bool then pure tt else select_loop fuel' p clusters ctxs2
      end
  end.

(** The dict comprehension that makes [retry_contexts]. *)
Definition new_retry_contexts (clusters : list ClusterConfig) : contexts :=
  foldl (λ (m : contexts) c,
           <[name c := new_ClusterRetryContext (self_max_cluster_fails self)]> m)
        ∅ clusters.

(** [select_and_start_cluster] *)
Definition select_and_start_cluster (fuel : nat) (p : string) : M unit :=
  let clusters := get_enabled_clusters_for_platform (reactor_config self) p in
  match clusters with
  | [] =>
      raise (UnknownPlatformException ("No clusters found for platform " +:+ p +:+ "!"))
  | _ :: _ => select_loop fuel p clusters (new_retry_contexts clusters)
  end.

(** *** run *)

(** [thread_pool.map_async(self.select_and_start_cluster, self.platforms)]
    followed by [result.get()]: every task runs to its end, and the
    first exception a task raised, if any, is what [get] raises.  The
    tasks share [self.worker_builds] and nothing else; the model runs
    them one after the other. *)
Fixpoint run_tasks (fuel : nat) (ps : list string) : M (option exn) :=
  match ps with
  | [] => pure None
  | p :: ps' =>
      let! r := try_ (select_and_start_cluster fuel p) in
      let! rest := run_tasks fuel ps' in
      pure (match r with inl e => Some e | inr _ => rest end)
  end.

(** [ThreadPool(...).map(lambda bi: bi.cancel_build(), self.worker_builds)] *)
Fixpoint cancel_builds (i n : nat) : M (option exn) :=
  match n with
  | O => pure None
  | S n' =>
      let! r := try_ (cancel_build i) in
      let! rest := cancel_builds (S i) n' in
      pure (match r with inl e => Some e | inr _ => rest end)
  end.

(** A build counts as failed when [not build_info.build or not
    build_info.build.is_succeeded()]. *)
Definition build_failed (bi : WorkerBuildInfo) : bool :=
  match build bi with
  | None => true
  | Some b => negb (is_succeeded b)
  end.

(** The dict comprehension that makes [fail_reasons]. *)
Fixpoint get_fail_reasons (builds : list WorkerBuildInfo)
    (fail_reasons : dict pydict) : M (dict pydict) :=
  match builds with
  | [] => pure fail_reasons
  | build_info :: builds' =>
      if build_failed build_info then
        let! reason := get_fail_reason build_info in
        get_fail_reasons builds' (dict_set fail_reasons (wb_platform build_info) reason)
      else get_fail_reasons builds' fail_reasons
  end.

(** [{build_info.platform: build_info for build_info in self.worker_builds}] *)
Definition build_info_by_platform (builds : list WorkerBuildInfo)
  : dict WorkerBuildInfo :=
  foldl (λ acc bi, dict_set acc (wb_platform bi) bi) [] builds.

(** The assignments to [workspace] at the end of [run], the workspace
    being [plugin_workspace.setdefault(self.key, {})]. *)
Definition publish_workspace : M unit :=
  let! w := get_world in
  set_plugin_workspace
    (Some {| override_kwargs := plugin_workspace w ≫= override_kwargs;
             ws_koji_upload_dir := Some (koji_upload_dir self);
             ws_build_info := Some (build_info_by_platform (worker_builds w)) |}).

(** [run] *)
Definition run (fuel : nat) : M unit :=
  match elements (platforms self) with
  | [] => raise (RuntimeError "No enabled platform to build on")
  | ps =>
      let! raised := run_tasks fuel ps in
      match raised with
      | Some e =>
          let! w := get_world in
          let! cancel_raised := cancel_builds 0 (length (worker_builds w)) in
          match cancel_raised with
          | Some e' => raise e'
          | None => raise e
          end
      | None =>
          let! w := get_world in
          let! fail_reasons := get_fail_reasons (worker_builds w) [] in
          publish_workspace;;
          match fail_reasons with
          | [] => pure tt
          | _ :: _ => raise (PluginFailedException (json_dumps env fail_reasons))
          end
      end
  end.
End Orchestrate.

(** ** The workspace, as other plugins read and write it *)

(** [override_build_kwarg(workflow, k, v, platform=None)]: the three
    [setdefault] and the assignment [override_kwargs[platform][k] = v]. *)
Definition override_build_kwarg (k : string) (v : pyval) (platform : option string)
  : M unit :=
  let! w := get_world in
  let workspace :=
    default {| override_kwargs := None; ws_koji_upload_dir := None;
               ws_build_info := None |} (plugin_workspace w) in
  let ov := default ∅ (override_kwargs workspace) in
  let for_platform := default ∅ (ov !! platform) in
  set_plugin_workspace
    (Some {| override_kwargs := Some (<[platform := <[k := v]> for_platform]> ov);
             ws_koji_upload_dir := ws_koji_upload_dir workspace;
             ws_build_info := ws_build_info workspace |}).

Section Workspace.
(** [OrchestrateBuildPlugin.key], a constant of
    [atomic_reactor/constants.py]. *)
Context (key : string).

(** [workflow.data.plugin_workspace[key]]; a [KeyError] carries the
    key that is missing. *)
Definition lookup_workspace : M Workspace :=
  let! w := get_world in
  match plugin_workspace w with
  | Some workspace => pure workspace
  | None => raise (KeyError key)
  end.

(** [get_worker_build_info(workflow, platform)] *)
Definition get_worker_build_info (p : string) : M WorkerBuildInfo :=
  let! workspace := lookup_workspace in
  match ws_build_info workspace with
  | None => raise (KeyError "build_info")
  | Some build_info =>
      match dict_get build_info p with
      | Some bi => pure bi
      | None => raise (KeyError p)
      end
  end.

(** [get_koji_upload_dir(workflow)] *)
Definition get_koji_upload_dir : M string :=
  let! workspace := lookup_workspace in
  match ws_koji_upload_dir workspace with
  | Some d => pure d
  | None => raise (KeyError "koji_upload_dir")
  end.
End Workspace.

(** ** The image of the running build *)

(** [x[k1][k2]...] *)
Fixpoint py_getpath (x : pyval) (ks : list string) : exn + pyval :=
  match ks with
  | [] => inr x
  | k :: ks' =>
      match py_getitem x k with
      | inl e => inl e
      | inr y => py_getpath y ks'
      end
  end.

Section BuildImage.
(** [str()], which the [%s] of the error message applies to the kind. *)
Context (py_str : pyval → string).

(** [get_current_buildimage], [build_json] being what
    [get_build_json()] returns. *)
Definition get_current_buildimage (build_json : dict pyval) : exn + pyval :=
  let spec := default PNone (dict_get build_json "spec") in
  let malformed :=
    RuntimeError "Build object is malformed, failed to fetch buildroot image" in
  match py_getpath spec ["strategy"; "customStrategy"; "from"; "name"] with
  | inl (KeyError _) => inl malformed
  | inl e => inl e
  | inr build_name =>
      match py_getpath spec ["strategy"; "customStrategy"; "from"; "kind"] with
      | inl (KeyError _) => inl malformed
      | inl e => inl e
      | inr build_kind =>
          if pyval_is_str "DockerImage" build_kind then inr build_name
          else inl (RuntimeError ("Build kind isn't 'DockerImage' but "
                                  +:+ py_str build_kind))
      end
  end.
End BuildImage.

(** ** A concrete orchestration

    Two platforms with two clusters each, after the scenarios of
    [tests/plugins/test_orchestrate_build.py]: every cluster reports
    four active builds, so that the clusters with room for eight builds
    have load 0.5 and those with room for five have load 0.8, the
    float nearest to 4/5. *)

Definition example_cluster (n : string) (mx : Z) : ClusterConfig :=
  {| name := n; priority := 0; max_concurrent_builds := mx |}.

Definition example_clusters (p : string) : list ClusterConfig :=
  if String.eqb p "x86_64" then
    [example_cluster "x86_64-a" 5; example_cluster "x86_64-b" 8]
  else if String.eqb p "ppc64le" then
    [example_cluster "ppc64le-a" 5; example_cluster "ppc64le-b" 8]
  else [].

Definition example_response (n : string) (finished succeeded : bool)
    (meta : option plugins_metadata) : BuildResponse :=
  {| get_build_name := n; is_finished := finished; is_succeeded := succeeded;
     annotation_plugins_metadata := meta |}.

Definition example_plugin : Plugin :=
  {| platforms := {["x86_64"; "ppc64le"]};
     reactor_config :=
       {| is_default := false;
          conf := [("version", PInt 1);
                   ("content_versions", PList [PStr "v1"; PStr "v2"])];
          get_enabled_clusters_for_platform := example_clusters |};
     find_cluster_retry_delay := 100000;
     failure_retry_delay := 100000;
     self_max_cluster_fails := 2;
     koji_upload_dir := "koji-upload";
     fs_task_id := None;
     release := PStr "10" |}.

(** The same plugin asked for a platform that has no cluster. *)
Definition example_plugin_unknown_platform : Plugin :=
  {| platforms := {["x86_64"; "spam"]};
     reactor_config := reactor_config example_plugin;
     find_cluster_retry_delay := find_cluster_retry_delay example_plugin;
     failure_retry_delay := failure_retry_delay example_plugin;
     self_max_cluster_fails := self_max_cluster_fails example_plugin;
     koji_upload_dir := koji_upload_dir example_plugin;
     fs_task_id := fs_task_id example_plugin;
     release := release example_plugin |}.

(** The world before [run]: no worker build yet, and [release]
    overridden for all platforms and again for [x86_64]. *)
Definition example_world : World :=
  {| tick := 0; clock := 1700000000000000; trace := []; worker_builds := [];
     build_kwargs := {["git_uri" := PStr "git://example"; "user" := PStr "bacon";
                       "architecture" := PStr "x86_64"]};
     plugin_workspace :=
       Some {| override_kwargs :=
                 Some {[ None := {["release" := PStr "1111"]};
                         Some "x86_64" := {["release" := PStr "4242"]} ]};
               ws_koji_upload_dir := None; ws_build_info := None |} |}.

Definition is_ppc64le (c : ClusterConfig) : bool :=
  String.prefix "ppc64le" (name c).

(** Every session answers and every build completes. *)
Definition example_env : Env :=
  {| elapsed := λ _, 1000%nat;
     set_iter := id;
     osbs_list_builds := λ _ _, inr 4%nat;
     get_openshift_base_uri := λ c, PStr ("https://" +:+ name c);
     get_verify_ssl := λ _, true;
     get_use_auth := λ _, PBool true;
     osbs_create_worker_build := λ c _ _,
       inr (example_response ("worker-build-" +:+ name c) false false None);
     osbs_get_build_logs := λ _ _ _, (["line 1"], None);
     osbs_wait_for_build_to_finish := λ _ n _,
       inr (example_response n true true None);
     osbs_cancel_build := λ _ _ _, None;
     osbs_get_pod_for_build := λ _ _ _, inl (OsbsException "no pod");
     json_dumps := λ d, String.concat "," d.*1 |}.

(** Variations of [example_env] in what the [ppc64le] sessions do. *)
Definition example_env_with
    (list_builds : ClusterConfig → nat → exn + nat)
    (create : ClusterConfig → kwargs → nat → exn + BuildResponse)
    (wait : ClusterConfig → string → nat → exn + BuildResponse) : Env :=
  {| elapsed := elapsed example_env;
     set_iter := set_iter example_env;
     osbs_list_builds := list_builds;
     get_openshift_base_uri := get_openshift_base_uri example_env;
     get_verify_ssl := get_verify_ssl example_env;
     get_use_auth := get_use_auth example_env;
     osbs_create_worker_build := create;
     osbs_get_build_logs := osbs_get_build_logs example_env;
     osbs_wait_for_build_to_finish := wait;
     osbs_cancel_build := osbs_cancel_build example_env;
     osbs_get_pod_for_build := osbs_get_pod_for_build example_env;
     json_dumps := json_dumps example_env |}.

(** The [ppc64le] clusters cannot be reached. *)
Definition example_env_unreachable : Env :=
  example_env_with
    (λ c k, if is_ppc64le c then inl (OsbsException "unreachable")
            else osbs_list_builds example_env c k)
    (osbs_create_worker_build example_env)
    (osbs_wait_for_build_to_finish example_env).


(** Waiting for the [ppc64le] build raises. *)
Definition example_env_wait_error : Env :=
  example_env_with
    (osbs_list_builds example_env)
    (osbs_create_worker_build example_env)
    (λ c n k, if is_ppc64le c then inl (OsbsException "it happens")
              else osbs_wait_for_build_to_finish example_env c n k).

(** As [example_env_wait_error], the [ppc64le] build carrying an
    [errors] entry of its own under the key [general]. *)
Definition example_env_wait_error_general : Env :=
  example_env_with
    (osbs_list_builds example_env)
    (λ c kw k,
       if is_ppc64le c then
         inr (example_response ("worker-build-" +:+ name c) false false
                (Some (MetaValue (PDict [("errors",
                         PDict [("general", PStr "from the worker")])]))))
       else osbs_create_worker_build example_env c kw k)
    (λ c n k, if is_ppc64le c then inl (OsbsException "it happens")
              else osbs_wait_for_build_to_finish example_env c n k).

(** What [json.loads] says of a text that does not start as JSON. *)
Definition example_decode_error : string :=
  "Expecting value: line 1 column 1 (char 0)".


(** The cluster the [ppc64le] task ranks first, and the one the
    [x86_64] task ranks first. *)
Definition example_cluster_info : ClusterInfo :=
  {| cluster := example_cluster "ppc64le-b" 8; platform := "ppc64le";
     load := 1 # 2 |}.

Definition example_cluster_info_x86_64 : ClusterInfo :=
  {| cluster := example_cluster "x86_64-b" 8; platform := "x86_64";
     load := 1 # 2 |}.

(** The retry contexts of the [ppc64le] clusters once both have failed
    [max_cluster_fails] times. *)
Definition example_dead_context : ClusterRetryContext :=
  {| fails := 2; retry_at := 0; max_cluster_fails := 2 |}.

Definition example_dead_contexts : gmap string ClusterRetryContext :=
  {[ "ppc64le-a" := example_dead_context; "ppc64le-b" := example_dead_context ]}.

(** A failed build whose [plugins-metadata] annotation is not JSON, as
    [example_env_bad_metadata] hands it out. *)
Definition example_bad_metadata_build : WorkerBuildInfo :=
  {| build := Some (example_response "worker-build-ppc64le-b" true false
                      (Some (MetaInvalid example_decode_error)));
     wb_cluster := Some (example_cluster "ppc64le-b" 8);
     wb_platform := "ppc64le"; monitor_exception := None |}.

(** Creating the [ppc64le] build is refused with an [OsbsException],
    as in [test_orchestrate_build_failed_create]. *)
Definition example_env_create_refused : Env :=
  example_env_with
    (osbs_list_builds example_env)
    (λ c kw k, if is_ppc64le c then inl (OsbsException "it happens")
               else osbs_create_worker_build example_env c kw k)
    (osbs_wait_for_build_to_finish example_env).

(** The retry context of a cluster that has not failed yet. *)
Definition example_alive_contexts : gmap string ClusterRetryContext :=
  {[ "x86_64-a" := new_ClusterRetryContext 2 ]}.

(** The cluster [x86_64-a] has failed once and may be retried only much
    later; [x86_64-b] has not failed. *)
Definition example_waiting_context : ClusterRetryContext :=
  {| fails := 1; retry_at := 1800000000000000; max_cluster_fails := 2 |}.

Definition example_waiting_contexts : gmap string ClusterRetryContext :=
  {[ "x86_64-a" := example_waiting_context;
     "x86_64-b" := new_ClusterRetryContext 2 ]}.

(** ** Vocabulary of the statements *)

(** The order of the ranking: by load, and by priority among equal
    loads. *)
Definition rank_le (a b : ClusterInfo) : Prop :=
  (load a < load b)%Q ∨
  ((load a == load b)%Q ∧ priority (cluster a) ≤ priority (cluster b)).

(** A cluster is usable at time [t] when its context is neither dead nor
    waiting for a retry. *)
Definition usable_at (ctxs : gmap string ClusterRetryContext) (t : Z)
    (c : ClusterConfig) : Prop :=
  ∃ ctx, ctxs !! name c = Some ctx ∧ failed ctx = false ∧ retry_at ctx ≤ t.

(** The exceptions [get_fail_reason] swallows while it asks for the
    pod of a build. *)
Definition swallowed_by_get_fail_reason (e : exn) : bool :=
  match e with
  | OsbsException _ | AttributeError _ => true
  | _ => false
  end.

(** The entry a recorded monitor exception gives to a failure reason. *)
Definition general_entry (bi : WorkerBuildInfo) : pydict :=
  match monitor_exception bi with
  | Some m =>
      if monitor_truthy (Some m) then [(PStr "general", PStr (str_monitor m))] else []
  | None => []
  end.

(** How [do_worker_build] ends after the attempt to cancel a build it
    failed to monitor: an [OsbsException] of the attempt is swallowed,
    another exception is raised. *)
Definition after_cancel (cancel : option exn) : outcome unit :=
  match cancel with
  | None => Ret tt
  | Some e => if is_OsbsException e then Ret tt else Raise e
  end.

(** * Reasoning about computations *)

(** [spec m w Q]: whatever [m] does from [w], outcome and final world
    satisfy [Q]. *)
Definition spec {A} (m : M A) (w : World) (Q : outcome A → World → Prop) : Prop :=
  ∀ o w', m w = (o, w') → Q o w'.

(** The continuation of a bind sees only returned values. *)
Definition through {A B} (k : A → World → Prop) (Q : outcome B → World → Prop)
    (o : outcome A) (w : World) : Prop :=
  match o with
  | Ret a => k a w
  | Raise e => Q (Raise e) w
  | OutOfFuel => Q OutOfFuel w
  end.

(** Until [run] publishes its results: time does not go back, the trace
    and the list of worker builds only grow (a build keeps its
    platform), and [self.build_kwargs] and the workspace of the plugin
    stay as they are. *)
Record evolves (w w' : World) : Prop := {
  ev_tick : (tick w ≤ tick w')%nat;
  ev_clock : clock w ≤ clock w';
  ev_trace : trace w `prefix_of` trace w';
  ev_platforms :
    (wb_platform <$> worker_builds w) `prefix_of` (wb_platform <$> worker_builds w');
  ev_build_kwargs : build_kwargs w' = build_kwargs w;
  ev_plugin_workspace : plugin_workspace w' = plugin_workspace w;
}.

(** [preserves R m]: the worlds before and after [m] are related by
    [R], however [m] ends. *)
Definition preserves (R : relation World) {A} (m : M A) : Prop :=
  ∀ w, spec m w (λ _ w', R w w').

(** [since w P w']: the trace of [w'] is that of [w] followed by events
    that satisfy [P]. *)
Definition since (w : World) (P : event → Prop) (w' : World) : Prop :=
  ∃ tl, trace w' = trace w ++ tl ∧ Forall P tl.

(** [since] as a relation between worlds. *)
Definition since_rel (P : event → Prop) : relation World := λ w w', since w P w'.

(** Events that do not involve the cluster named [n]: no load query of
    it, no attempt to start a build on it, no build created on it. *)
Definition not_about (n : string) (ev : event) : Prop :=
  match ev with
  | EvListBuilds c | EvAttempt _ c | EvCreate c _ => c ≠ n
  | _ => True
  end.

(** [ensures P m w R]: from [w], [m] adds only events that satisfy [P],
    and a value it returns satisfies [R]. *)
Definition ensures (P : event → Prop) {A} (m : M A) (w : World) (R : A → Prop)
  : Prop :=
  spec m w (λ o w', since w P w' ∧ match o with Ret a => R a | _ => True end).

(** The platforms of the recorded builds, in the order of recording. *)
Definition recorded (w : World) : list string := wb_platform <$> worker_builds w.

(** No build was recorded, and none lost, between two worlds. *)
Definition same_builds : relation World := λ w w', recorded w' = recorded w.

(** What the caller supplied: [self.build_kwargs] and the overrides
    kept in the workspace. *)
Definition same_inputs : relation World := λ w w',
  build_kwargs w' = build_kwargs w ∧
  plugin_workspace w' ≫= override_kwargs = plugin_workspace w ≫= override_kwargs.

(** The orders the two sorts of [get_clusters] establish, for any
    priority and load. *)
Definition prio_le {A} (prio : A → Z) (a b : A) : Prop := prio a ≤ prio b.

Definition rank_by {A} (prio : A → Z) (ld : A → Q) (a b : A) : Prop :=
  (ld a < ld b)%Q ∨ ((ld a == ld b)%Q ∧ prio a ≤ prio b).

(** [steps m]: [m] only moves the world forward. *)
Abbreviation steps := (preserves evolves).

(** [emits P m]: every event [m] adds satisfies [P]. *)
Abbreviation emits P := (preserves (since_rel P)).

(** [keeps m]: [m] records no build. *)
Abbreviation keeps := (preserves same_builds).

(** What a launch on platform [p] submits under the key [k], by the
    overrides [ov] and the base parameters [base]: the override of the
    platform, else the override for all platforms, else the base
    parameter. *)
Definition merged_lookup (ov : gmap (option string) kwargs) (p : string)
    (base : kwargs) (k : string) : option pyval :=
  match ov !! Some p ≫= (.!! k) with
  | Some v => Some v
  | None =>
      match ov !! None ≫= (.!! k) with
      | Some v => Some v
      | None => base !! k
      end
  end.

(** The override recorded in the workspace for a platform ([None]: for
    all platforms) and a key. *)
Definition override_of (w : World) (platform : option string) (k : string)
  : option pyval :=
  match plugin_workspace w ≫= override_kwargs with
  | Some ov => ov !! platform ≫= (.!! k)
  | None => None
  end.

(** [raises_only P m]: every exception [m] raises satisfies [P]. *)
Definition raises_only (P : exn → Prop) {A} (m : M A) : Prop :=
  ∀ w o w', m w = (o, w') → match o with Raise e => P e | _ => True end.

(** The exceptions that [except OsbsException] lets through. *)
Definition not_osbs (e : exn) : Prop := is_OsbsException e = false.

(** The entry [ci] of a ranking rests on a load query answered between
    the interactions [t] and [t']. *)
Definition answered (env : Env) (t t' : nat) (ci : ClusterInfo) : Prop :=
  ∃ k b, (t ≤ k < t')%nat ∧
    osbs_list_builds env (cluster ci) k = inr b ∧
    true_div (Z.of_nat b) (max_concurrent_builds (cluster ci)) = inr (load ci).




(** The pairs of key and value that [d.update(other)] stores, in their
    order, when it raises nothing: the entries of a dict, and else the
    items of [other], each being a sequence of a key and a value. *)
Definition update_pairs (other : pyval) : list (pyval * pyval) :=
  match other with
  | PDict entries => (λ kv, (PStr kv.1, kv.2)) <$> entries
  | _ =>
      omap (λ item, match py_iter item with
                    | Some [key; value] => Some (key, value)
                    | _ => None
                    end) (default [] (py_iter other))
  end.

(** The [errors] of the [plugins-metadata] annotation of a build, when
    the annotation decodes to an object that has them; a build without
    the annotation has the metadata [{}]. *)
Definition metadata_errors (b : BuildResponse) : option pyval :=
  match default (MetaValue (PDict [])) (annotation_plugins_metadata b) with
  | MetaValue metadata =>
      match py_getitem metadata "errors" with
      | inr errors => Some errors
      | inl _ => None
      end
  | MetaInvalid _ => None
  end.

(** What these [errors] have under the key [k]: the value of the last
    of their pairs with that key. *)
Definition errors_entry (b : BuildResponse) (k : string) : option pyval :=
  match metadata_errors b with
  | Some errors => pydict_get (reverse (update_pairs errors)) (PStr k)
  | None => None
  end.

(** * Lemmas *)

Lemma spec_conseq {A} (m : M A) w (Q Q' : outcome A → World → Prop) :
  spec m w Q → (∀ o w', Q o w' → Q' o w') → spec m w Q'.
Proof. intros Hm HQ o w' E. apply HQ, Hm, E. Qed.

Lemma spec_pure {A} (a : A) w (Q : outcome A → World → Prop) :
  Q (Ret a) w → spec (pure a) w Q.
Proof. intros HQ o w' E. inversion E; subst. exact HQ. Qed.

Lemma spec_raise {A} e w (Q : outcome A → World → Prop) :
  Q (Raise e) w → spec (raise e) w Q.
Proof. intros HQ o w' E. inversion E; subst. exact HQ. Qed.

Lemma spec_out_of_fuel {A} w (Q : outcome A → World → Prop) :
  Q OutOfFuel w → spec out_of_fuel w Q.
Proof. intros HQ o w' E. inversion E; subst. exact HQ. Qed.

Lemma spec_bind {A B} (m : M A) (f : A → M B) w (Q : outcome B → World → Prop) :
  spec m w (through (λ a w1, spec (f a) w1 Q) Q) → spec (bind m f) w Q.
Proof.
  intros Hm o w' E. unfold bind in E.
  destruct (m w) as [[a|e|] w1] eqn:Em; specialize (Hm _ _ Em); simpl in Hm.
  - apply Hm, E.
  - inversion E; subst. exact Hm.
  - inversion E; subst. exact Hm.
Qed.

Lemma spec_try {A} (m : M A) w (Q : outcome (exn + A) → World → Prop) :
  spec m w (λ o w1,
    match o with
    | Ret a => Q (Ret (inr a)) w1
    | Raise e => Q (Ret (inl e)) w1
    | OutOfFuel => Q OutOfFuel w1
    end) →
  spec (try_ m) w Q.
Proof.
  intros Hm o w' E. unfold try_ in E.
  destruct (m w) as [[a|e|] w1] eqn:Em; specialize (Hm _ _ Em); simpl in Hm;
    inversion E; subst; exact Hm.
Qed.

Lemma spec_get_world w (Q : outcome World → World → Prop) :
  Q (Ret w) w → spec get_world w Q.
Proof. intros HQ o w' E. inversion E; subst. exact HQ. Qed.

(** ** Facts about [dict] *)

Section DictFacts.
Context {V : Type}.
Implicit Types (d other : dict V) (k : string) (v : V).

Lemma dict_get_set d k k' v :
  dict_get (dict_set d k' v) k = if String.eqb k' k then Some v else dict_get d k.
Proof.
  induction d as [|[k0 v0] d IH]; simpl.
  - by destruct (String.eqb_spec k' k).
  - destruct (String.eqb_spec k0 k') as [->|Hne]; simpl.
    + by destruct (String.eqb_spec k' k).
    + rewrite IH. destruct (String.eqb_spec k0 k) as [->|]; [|done].
      by destruct (String.eqb_spec k' k).
Qed.

Lemma dict_set_keys d k v :
  ∀ k', k' ∈ (dict_set d k v).*1 ↔ k' = k ∨ k' ∈ d.*1.
Proof.
  intros k'. induction d as [|[k0 v0] d IH]; simpl.
  - set_solver.
  - destruct (String.eqb_spec k0 k) as [->|Hne]; csimpl; set_solver.
Qed.

Lemma dict_set_elem_of d k v x :
  x ∈ dict_set d k v → x = (k, v) ∨ x ∈ d.
Proof.
  induction d as [|[k0 v0] d IH]; simpl.
  - set_solver.
  - destruct (String.eqb_spec k0 k) as [->|Hne]; set_solver.
Qed.
End DictFacts.

(** ** Facts about [sorted] *)

Section SortedFacts.
Context {A K : Type} (ltb : K → K → bool) (key : A → K).

Lemma sorted_insert_perm x l : sorted_insert ltb key x l ≡ₚ x :: l.
Proof.
  induction l as [|y l IH]; simpl; [done|].
  destruct (ltb (key y) (key x)); [|done].
  by rewrite IH, Permutation_swap.
Qed.

Lemma sorted_perm l : sorted ltb key l ≡ₚ l.
Proof.
  induction l as [|x l IH]; simpl; [done|].
  by rewrite sorted_insert_perm, IH.
Qed.

Lemma sorted_Forall (Q : A → Prop) l : Forall Q l → Forall Q (sorted ltb key l).
Proof. intros H. by rewrite sorted_perm. Qed.

Lemma elem_of_sorted x l : x ∈ sorted ltb key l ↔ x ∈ l.
Proof. by rewrite sorted_perm. Qed.
End SortedFacts.

Lemma Qltb_lt x y : Qltb x y = true ↔ (x < y)%Q.
Proof.
  unfold Qltb. rewrite negb_true_iff, <-not_true_iff_false, Qle_bool_iff.
  split; intros; lra.
Qed.

Section Ranking.
Context {A : Type} (prio : A → Z) (ld : A → Q).

Local Abbreviation by_prio := (prio_le prio).
Local Abbreviation by_rank := (rank_by prio ld).

Lemma sorted_insert_by_prio x l :
  StronglySorted by_prio l → StronglySorted by_prio (sorted_insert Z.ltb prio x l).
Proof.
  induction 1 as [|y l Hl IH Hy]; simpl; [repeat constructor|].
  destruct (prio y <? prio x) eqn:E.
  - apply Z.ltb_lt in E. constructor; [done|].
    rewrite sorted_insert_perm. constructor; [unfold prio_le; lia|done].
  - apply Z.ltb_ge in E. constructor; [by constructor|].
    constructor; [done|].
    eapply Forall_impl; [exact Hy|]. unfold prio_le. intros; simpl in *; lia.
Qed.

Lemma sorted_by_prio l : StronglySorted by_prio (sorted Z.ltb prio l).
Proof.
  induction l as [|x l IH]; simpl; [constructor|].
  by apply sorted_insert_by_prio.
Qed.

(** Sorting by load is stable: an element that came first keeps its
    place among the elements of the same load. *)
Lemma sorted_insert_by_rank x l :
  Forall (by_prio x) l →
  StronglySorted by_rank l → StronglySorted by_rank (sorted_insert Qltb ld x l).
Proof.
  intros Hx Hl. induction Hl as [|y l Hl IH Hy]; simpl; [repeat constructor|].
  apply Forall_cons in Hx as [Hxy Hx].
  destruct (Qltb (ld y) (ld x)) eqn:E.
  - apply Qltb_lt in E. constructor; [by apply IH|].
    rewrite sorted_insert_perm. constructor; [by left|done].
  - apply not_true_iff_false in E. rewrite Qltb_lt in E.
    constructor; [by constructor|].
    assert (by_rank x y) as Hr.
    { unfold rank_by, prio_le in *.
      destruct (Qlt_le_dec (ld x) (ld y)); [by left|right]. split; [lra|done]. }
    constructor; [done|].
    rewrite Forall_forall in Hx, Hy. apply Forall_forall. intros z Hz.
    specialize (Hx z Hz). specialize (Hy z Hz).
    unfold rank_by, prio_le in *.
    destruct (Qlt_le_dec (ld x) (ld z)); [by left|right].
    split; [|done]. destruct Hy as [?|[? ?]]; lra.
Qed.

Lemma sorted_by_rank l :
  StronglySorted by_prio l → StronglySorted by_rank (sorted Qltb ld l).
Proof.
  induction 1 as [|x l Hl IH Hx]; simpl; [constructor|].
  apply sorted_insert_by_rank; [|done]. by rewrite sorted_perm.
Qed.

(** The two sorts of [get_clusters], one after the other. *)
Lemma sorted_twice_by_rank l :
  StronglySorted by_rank (sorted Qltb ld (sorted Z.ltb prio l)).
Proof. apply sorted_by_rank, sorted_by_prio. Qed.
End Ranking.

(** ** What a run of the plugin never undoes *)

#[global] Instance evolves_preorder : PreOrder evolves.
Proof.
  split.
  - intros w. split; reflexivity.
  - intros w1 w2 w3 [] []. split; try (etrans; eassumption); congruence.
Qed.

Section Preserves.
Context (R : relation World) `{!PreOrder R}.

Lemma preserves_try {A} (m : M A) : preserves R m → preserves R (try_ m).
Proof.
  intros Hm w. apply spec_try.
  eapply spec_conseq; [apply Hm|]. by intros [a|e|] w1 Hw1.
Qed.

Lemma preserves_pure {A} (a : A) : preserves R (pure a).
Proof. intros w. apply spec_pure. reflexivity. Qed.

Lemma preserves_raise {A} e : preserves R (@raise A e).
Proof. intros w. apply spec_raise. reflexivity. Qed.

Lemma preserves_out_of_fuel {A} : preserves R (@out_of_fuel A).
Proof. intros w. apply spec_out_of_fuel. reflexivity. Qed.

Lemma preserves_get_world : preserves R get_world.
Proof. intros w. apply spec_get_world. reflexivity. Qed.

Lemma preserves_bind {A B} (m : M A) (f : A → M B) :
  preserves R m → (∀ a, preserves R (f a)) → preserves R (bind m f).
Proof.
  intros Hm Hf w. apply spec_bind.
  eapply spec_conseq; [apply Hm|].
  intros [a|e|] w1 Hw1; simpl; try exact Hw1.
  eapply spec_conseq; [apply Hf|].
  intros o w2 Hw2. simpl in Hw2. etrans; eassumption.
Qed.
End Preserves.

Lemma steps_pure {A} (a : A) : preserves evolves (pure a).
Proof. apply preserves_pure, _. Qed.

Lemma steps_raise {A} e : preserves evolves (@raise A e).
Proof. apply preserves_raise, _. Qed.

Lemma steps_out_of_fuel {A} : preserves evolves (@out_of_fuel A).
Proof. apply preserves_out_of_fuel, _. Qed.

Lemma steps_get_world : preserves evolves get_world.
Proof. apply preserves_get_world, _. Qed.

Lemma steps_bind {A B} (m : M A) (f : A → M B) :
  preserves evolves m → (∀ a, preserves evolves (f a)) → preserves evolves (bind m f).
Proof. apply preserves_bind, _. Qed.

Lemma steps_try {A} (m : M A) : preserves evolves m → preserves evolves (try_ m).
Proof. apply preserves_try. Qed.

Create HintDb preserves.
#[global] Hint Resolve steps_pure steps_raise steps_out_of_fuel steps_get_world
  : preserves.

(** One syntax-directed step of a [steps] proof. *)
Ltac steps_step :=
  first
    [ solve [eauto with preserves]
    | apply steps_try
    | apply steps_bind; [|intros ?]
    | match goal with
      | |- preserves _ (match ?x with _ => _ end) => destruct x
      | |- preserves _ (if ?x then _ else _) => destruct x
      end ].
Ltac steps_auto := repeat steps_step.

Lemma steps_emit ev : steps (emit ev).
Proof.
  intros w o w' E. inversion E; subst.
  split; simpl; try reflexivity. by apply prefix_app_r.
Qed.

Lemma steps_advance_clock d : 0 ≤ d → steps (advance_clock d).
Proof.
  intros Hd w o w' E. inversion E; subst.
  split; simpl; try reflexivity. lia.
Qed.

Lemma steps_interact env : steps (interact env).
Proof.
  intros w o w' E. inversion E; subst.
  split; simpl; try reflexivity; lia.
Qed.

Lemma steps_sleep env seconds : steps (sleep env seconds).
Proof.
  unfold sleep. destruct (seconds <? 0) eqn:E; [apply steps_raise|].
  apply Z.ltb_ge in E.
  repeat (apply steps_bind; [|intros ?]);
    auto using steps_emit, steps_interact, steps_pure.
  apply steps_advance_clock. lia.
Qed.

Lemma fmap_platform_alter (f : WorkerBuildInfo → WorkerBuildInfo) (i : nat)
    (l : list WorkerBuildInfo) :
  (∀ bi, wb_platform (f bi) = wb_platform bi) →
  wb_platform <$> alter f i l = wb_platform <$> l.
Proof.
  intros Hf. revert i. induction l as [|bi l IH]; intros [|i]; csimpl; try done.
  - by rewrite Hf.
  - f_equal. apply IH.
Qed.

Lemma steps_alter_build (f : WorkerBuildInfo → WorkerBuildInfo) (i : nat) :
  (∀ bi, wb_platform (f bi) = wb_platform bi) →
  steps (let! w := get_world in set_worker_builds (alter f i (worker_builds w))).
Proof.
  intros Hf w o w' E. inversion E; subst.
  split; simpl; try reflexivity. by rewrite fmap_platform_alter.
Qed.

Lemma steps_append_worker_build bi : steps (append_worker_build bi).
Proof.
  intros w o w' E. inversion E; subst.
  split; simpl; try reflexivity. rewrite fmap_app. by apply prefix_app_r.
Qed.

#[global] Hint Resolve steps_emit steps_interact steps_sleep
  steps_append_worker_build : preserves.

Section Steps.
Context (env : Env) (self : Plugin).

Lemma steps_now : steps (now env).
Proof. unfold now. steps_auto. Qed.
Hint Resolve steps_now : preserves.

Lemma steps_in_retry_wait ctx : steps (in_retry_wait env ctx).
Proof. unfold in_retry_wait. steps_auto. Qed.

Lemma steps_try_again_later s ctx : steps (try_again_later env s ctx).
Proof. unfold try_again_later. steps_auto. Qed.

Lemma steps_wait_for_any_cluster ctxs : steps (wait_for_any_cluster env ctxs).
Proof. unfold wait_for_any_cluster. steps_auto. Qed.

Lemma steps_get_cluster_info c p : steps (get_cluster_info env c p).
Proof. unfold get_cluster_info. steps_auto. Qed.

Lemma steps_lookup_context ctxs c : steps (lookup_context ctxs c).
Proof. unfold lookup_context. steps_auto. Qed.
Hint Resolve steps_in_retry_wait steps_try_again_later
  steps_wait_for_any_cluster steps_get_cluster_info steps_lookup_context : preserves.

Lemma steps_query_clusters cs p ctxs possible :
  steps (query_clusters env self cs p ctxs possible).
Proof.
  revert ctxs possible. induction cs as [|c cs IH]; intros; simpl; steps_auto.
Qed.

Lemma steps_drop_failed ctxs cs : steps (drop_failed ctxs cs).
Proof. induction cs as [|c cs IH]; simpl; steps_auto. Qed.
Hint Resolve steps_query_clusters steps_drop_failed : preserves.

Lemma steps_get_clusters_loop fuel p ctxs cs :
  steps (get_clusters_loop env self fuel p ctxs cs).
Proof.
  revert ctxs cs. induction fuel as [|fuel IH]; intros ctxs [|c cs]; simpl;
    steps_auto.
Qed.
Hint Resolve steps_get_clusters_loop : preserves.

Lemma steps_get_clusters fuel p ctxs cs :
  steps (get_clusters env self fuel p ctxs cs).
Proof. unfold get_clusters. steps_auto. Qed.

Lemma steps__update_content_versions d : steps (_update_content_versions d).
Proof. unfold _update_content_versions. steps_auto. Qed.
Hint Resolve steps__update_content_versions : preserves.

Lemma steps_get_worker_build_kwargs r p d t o :
  steps (get_worker_build_kwargs self r p d t o).
Proof. unfold get_worker_build_kwargs. steps_auto. Qed.
Hint Resolve steps_get_worker_build_kwargs : preserves.

Lemma steps_create_build ci : steps (create_build env self ci).
Proof. unfold create_build. steps_auto. Qed.

Lemma steps_get_build_info i : steps (get_build_info i).
Proof. unfold get_build_info. steps_auto. Qed.

Lemma steps_get_osbs bi : steps (get_osbs bi).
Proof. unfold get_osbs. steps_auto. Qed.

Lemma steps_log_lines p lines : steps (log_lines p lines).
Proof. induction lines; simpl; steps_auto. Qed.

Lemma steps_set_build i b : steps (set_build i b).
Proof. by apply steps_alter_build. Qed.

Lemma steps_set_monitor_exception i m : steps (set_monitor_exception i m).
Proof. by apply steps_alter_build. Qed.
Hint Resolve steps_create_build steps_get_build_info steps_get_osbs
  steps_log_lines steps_set_build steps_set_monitor_exception : preserves.

Lemma steps_watch_logs i : steps (watch_logs env i).
Proof. unfold watch_logs. steps_auto. Qed.

Lemma steps_wait_to_finish i : steps (wait_to_finish env i).
Proof. unfold wait_to_finish. steps_auto. Qed.

Lemma steps_cancel_build i : steps (cancel_build env i).
Proof. unfold cancel_build. steps_auto. Qed.
Hint Resolve steps_watch_logs steps_wait_to_finish steps_cancel_build : preserves.

Lemma steps_monitor_build i : steps (monitor_build env i).
Proof. unfold monitor_build. steps_auto. Qed.
Hint Resolve steps_monitor_build : preserves.

Lemma steps_do_worker_build ci : steps (do_worker_build env self ci).
Proof. unfold do_worker_build. steps_auto. Qed.
Hint Resolve steps_do_worker_build : preserves.

Lemma steps_start_on_clusters p infos ctxs :
  steps (start_on_clusters env self p infos ctxs).
Proof. revert ctxs. induction infos as [|ci infos IH]; intros; simpl; steps_auto. Qed.
Hint Resolve steps_start_on_clusters steps_get_clusters : preserves.

Lemma steps_select_loop fuel p clusters ctxs :
  steps (select_loop env self fuel p clusters ctxs).
Proof. revert ctxs. induction fuel as [|fuel IH]; intros; simpl; steps_auto. Qed.
Hint Resolve steps_select_loop : preserves.

Lemma steps_select_and_start_cluster fuel p :
  steps (select_and_start_cluster env self fuel p).
Proof. unfold select_and_start_cluster. steps_auto. Qed.
Hint Resolve steps_select_and_start_cluster : preserves.

Lemma steps_get_fail_reason bi : steps (get_fail_reason env bi).
Proof. unfold get_fail_reason. steps_auto. Qed.
Hint Resolve steps_get_fail_reason : preserves.

Lemma steps_run_tasks fuel ps : steps (run_tasks env self fuel ps).
Proof. induction ps as [|p ps IH]; simpl; steps_auto. Qed.

Lemma steps_cancel_builds i n : steps (cancel_builds env i n).
Proof. revert i. induction n as [|n IH]; intros; simpl; steps_auto. Qed.

Lemma steps_get_fail_reasons builds acc : steps (get_fail_reasons env builds acc).
Proof. revert acc. induction builds as [|bi builds IH]; intros; simpl; steps_auto. Qed.
End Steps.

Section Launch.
Context (env : Env) (self : Plugin).

#[local] Instance same_inputs_preorder : PreOrder same_inputs.
Proof.
  split; unfold same_inputs; [done|]. intros w1 w2 w3 [] []. split; congruence.
Qed.

Lemma steps_same_inputs {A} (m : M A) : steps m → preserves same_inputs m.
Proof.
  intros Hm w o w' E. destruct (Hm w o w' E). split; [done|congruence].
Qed.

(** [run] writes two keys of the workspace and leaves the rest. *)
Lemma run_same_inputs fuel : preserves same_inputs (run env self fuel).
Proof.
  unfold run. destruct (elements (platforms self)) as [|p ps];
    [apply preserves_raise, _|].
  apply preserves_bind; [apply _|apply steps_same_inputs, steps_run_tasks|].
  intros [e|].
  - apply steps_same_inputs.
    repeat (apply steps_bind; [|intros ?]);
      auto using steps_get_world, steps_cancel_builds.
    destruct a0; apply steps_raise.
  - apply preserves_bind; [apply _|apply preserves_get_world, _|]. intros w0.
    apply preserves_bind; [apply _|apply steps_same_inputs, steps_get_fail_reasons|].
    intros frs.
    apply preserves_bind; [apply _| |].
    + intros w o w' E. inversion E; subst. by split.
    + intros _. destruct frs; [apply preserves_pure, _|apply preserves_raise, _].
Qed.

(** Reading the keyword arguments changes nothing. *)
Lemma get_worker_build_kwargs_pure r p d t ws w o w' :
  get_worker_build_kwargs self r p d t ws w = (o, w') → w' = w.
Proof.
  unfold get_worker_build_kwargs, bind, get_world, _update_content_versions,
    pure, raise.
  intros E. repeat case_match; simplify_eq; done.
Qed.

Lemma apply_overrides_lookup (ov : gmap (option string) kwargs) p (base : kwargs) k :
  apply_overrides ov p base !! k =
    match ov !! Some p ≫= (.!! k) with
    | Some v => Some v
    | None =>
        match ov !! None ≫= (.!! k) with
        | Some v => Some v
        | None => base !! k
        end
    end.
Proof.
  unfold apply_overrides.
  destruct (ov !! Some p) as [op|], (ov !! None) as [og|]; simpl;
    rewrite ?lookup_union; destruct (base !! k);
    repeat match goal with |- context [?m !! k] => destruct (m !! k) end; done.
Qed.

(** C5.  When the base parameters [get_worker_build_kwargs] builds
    are [base], the keyword arguments [do_worker_build] submits to
    [create_worker_build] are [base] overridden by the overrides for
    all platforms (key [None]) and then by those of the platform of
    the launch, which win on a shared key; and neither
    [self.build_kwargs] nor the override mapping of the workspace is
    changed by a launch or by a whole [run]. *)
Theorem do_worker_build_submits_merged_kwargs ci w base w1 :
  get_worker_build_kwargs self (release self) (platform ci)
    (koji_upload_dir self) (fs_task_id self)
    (worker_openshift env (cluster ci)) w = (Ret base, w1) →
  let ov := default ∅ (plugin_workspace w ≫= override_kwargs) in
  ∃ kw : kwargs,
    (∀ k, kw !! k =
       match ov !! Some (platform ci) ≫= (.!! k) with
       | Some v => Some v
       | None =>
           match ov !! None ≫= (.!! k) with
           | Some v => Some v
           | None => base !! k
           end
       end) ∧
    (∀ o w', create_build env self ci w = (o, w') →
       trace w' = trace w ++ [EvCreate (name (cluster ci)) kw] ∧
       o = match osbs_create_worker_build env (cluster ci) kw (tick w) with
           | inl e => Raise e
           | inr b => Ret b
           end) ∧
    (∀ o w', do_worker_build env self ci w = (o, w') →
       (trace w ++ [EvCreate (name (cluster ci)) kw]) `prefix_of` trace w' ∧
       build_kwargs w' = build_kwargs w ∧
       plugin_workspace w' ≫= override_kwargs
         = plugin_workspace w ≫= override_kwargs) ∧
    (∀ fuel w0 o w', run env self fuel w0 = (o, w') →
       build_kwargs w' = build_kwargs w0 ∧
       plugin_workspace w' ≫= override_kwargs
         = plugin_workspace w0 ≫= override_kwargs).
Proof.
  intros Hbase ov.
  pose proof (get_worker_build_kwargs_pure _ _ _ _ _ _ _ _ Hbase) as ->.
  exists (apply_overrides ov (platform ci) base).
  assert (Hcreate : ∀ o w', create_build env self ci w = (o, w') →
    trace w' = trace w ++
      [EvCreate (name (cluster ci)) (apply_overrides ov (platform ci) base)] ∧
    o = match osbs_create_worker_build env (cluster ci)
                (apply_overrides ov (platform ci) base) (tick w) with
        | inl e => Raise e
        | inr b => Ret b
        end).
  { intros o w' E. unfold create_build, bind at 1, get_world in E.
    unfold bind at 1 in E. rewrite Hbase in E.
    unfold bind, interact, emit, raise, pure in E. simpl in E. fold ov in E.
    destruct (osbs_create_worker_build _ _ _ _); by simplify_eq/=. }
  split_and!.
  - apply apply_overrides_lookup.
  - exact Hcreate.
  - intros o w' E.
    pose proof (steps_do_worker_build env self ci w _ _ E) as Hev.
    split_and!; [|apply Hev|by rewrite (ev_plugin_workspace _ _ Hev)].
    unfold do_worker_build in E. unfold bind at 1, try_ in E.
    destruct (create_build env self ci w) as [o1 w2] eqn:Ec.
    destruct (Hcreate _ _ eq_refl) as [Htr _]. rewrite <-Htr.
    assert (∀ A (m : M A) o' w'', steps m → m w2 = (o', w'') →
              trace w2 `prefix_of` trace w'') as Hpre.
    { intros A m o' w'' Hm Em. apply (Hm _ _ _ Em). }
    destruct o1 as [b|e|]; simplify_eq/=.
    + eapply Hpre; [|exact E].
      apply steps_bind; [apply steps_pure|]. intros ?.
      apply steps_bind; [apply steps_append_worker_build|]. intros ?.
      destruct a; [apply steps_monitor_build|apply steps_pure].
    + eapply Hpre; [|exact E].
      apply steps_bind; [destruct e; auto using steps_pure, steps_raise|].
      intros ?.
      apply steps_bind; [apply steps_append_worker_build|]. intros ?.
      destruct a; [apply steps_monitor_build|apply steps_pure].
    + done.
  - intros fuel w0 o w' E. exact (run_same_inputs fuel w0 _ _ E).
Qed.
End Launch.

(** ** Events a computation adds *)

Lemma since_refl w P : since w P w.
Proof. exists []. by rewrite app_nil_r. Qed.

Lemma since_trans w1 w2 w3 P : since w1 P w2 → since w2 P w3 → since w1 P w3.
Proof.
  intros (t1 & E1 & H1) (t2 & E2 & H2). exists (t1 ++ t2).
  rewrite E2, E1, (assoc (++)). split; [done|]. by apply Forall_app.
Qed.

#[global] Instance since_rel_preorder P : PreOrder (since_rel P).
Proof.
  split.
  - intros w. apply since_refl.
  - intros w1 w2 w3. apply since_trans.
Qed.

Lemma emits_pure P {A} (a : A) : emits P (pure a).
Proof. apply preserves_pure, _. Qed.

Lemma emits_raise P {A} e : emits P (@raise A e).
Proof. apply preserves_raise, _. Qed.

Lemma emits_out_of_fuel P {A} : emits P (@out_of_fuel A).
Proof. apply preserves_out_of_fuel, _. Qed.

Lemma emits_get_world P : emits P get_world.
Proof. apply preserves_get_world, _. Qed.

Lemma emits_bind P {A B} (m : M A) (f : A → M B) :
  emits P m → (∀ a, emits P (f a)) → emits P (bind m f).
Proof. apply preserves_bind, _. Qed.

Lemma emits_try P {A} (m : M A) : emits P m → emits P (try_ m).
Proof. apply preserves_try. Qed.

#[global] Hint Resolve emits_pure emits_raise emits_out_of_fuel emits_get_world
  : preserves.


Lemma emits_emit (P : event → Prop) ev : P ev → emits P (emit ev).
Proof.
  intros HP w o w' E. inversion E; subst. exists [ev]. split; [done|].
  by apply Forall_singleton.
Qed.

Lemma emits_silent P {A} (m : M A) :
  (∀ w o w', m w = (o, w') → trace w' = trace w) → emits P m.
Proof.
  intros Hm w o w' E. exists []. rewrite app_nil_r. split; [|done]. eauto.
Qed.

Lemma emits_interact P env : emits P (interact env).
Proof. apply emits_silent. intros w o w' E. by inversion E. Qed.

Lemma emits_advance_clock P d : emits P (advance_clock d).
Proof. apply emits_silent. intros w o w' E. by inversion E. Qed.

Lemma emits_set_worker_builds P l : emits P (set_worker_builds l).
Proof. apply emits_silent. intros w o w' E. by inversion E. Qed.

#[global] Hint Resolve emits_interact emits_advance_clock
  emits_set_worker_builds : preserves.

Ltac emits_step :=
  first
    [ solve [eauto with preserves]
    | apply emits_emit; solve [simpl; auto]
    | apply emits_try
    | apply emits_bind; [|intros ?]
    | match goal with
      | |- preserves _ (match ?x with _ => _ end) => destruct x
      | |- preserves _ (if ?x then _ else _) => destruct x
      end ].
Ltac emits_auto := repeat emits_step.

Section Exclusion.
Context (env : Env) (self : Plugin) (n : string).

Local Abbreviation P := (not_about n).

Lemma emits_now : emits P (now env).
Proof. unfold now. emits_auto. Qed.
Hint Resolve emits_now : preserves.

Lemma emits_sleep s : emits P (sleep env s).
Proof. unfold sleep. emits_auto. Qed.
Hint Resolve emits_sleep : preserves.

Lemma emits_in_retry_wait ctx : emits P (in_retry_wait env ctx).
Proof. unfold in_retry_wait. emits_auto. Qed.

Lemma emits_try_again_later s ctx : emits P (try_again_later env s ctx).
Proof. unfold try_again_later. emits_auto. Qed.

Lemma emits_wait_for_any_cluster ctxs : emits P (wait_for_any_cluster env ctxs).
Proof. unfold wait_for_any_cluster. emits_auto. Qed.

Lemma emits_lookup_context ctxs c : emits P (lookup_context ctxs c).
Proof. unfold lookup_context. emits_auto. Qed.

Lemma emits_get_cluster_info c p : name c ≠ n → emits P (get_cluster_info env c p).
Proof. intros Hc. unfold get_cluster_info. emits_auto. Qed.
Hint Resolve emits_in_retry_wait emits_try_again_later
  emits_wait_for_any_cluster emits_lookup_context emits_get_cluster_info : preserves.

Lemma emits_drop_failed ctxs cs : emits P (drop_failed ctxs cs).
Proof. induction cs as [|c cs IH]; simpl; emits_auto. Qed.
Hint Resolve emits_drop_failed : preserves.

Lemma emits_get_worker_build_kwargs r p d t o :
  emits P (get_worker_build_kwargs self r p d t o).
Proof.
  apply emits_silent. intros w o' w' E.
  by rewrite (get_worker_build_kwargs_pure _ _ _ _ _ _ _ _ _ E).
Qed.
Hint Resolve emits_get_worker_build_kwargs : preserves.

Lemma emits_create_build ci :
  name (cluster ci) ≠ n → emits P (create_build env self ci).
Proof. intros Hc. unfold create_build. emits_auto. Qed.

Lemma emits_log_lines p lines : emits P (log_lines p lines).
Proof. induction lines; simpl; emits_auto. Qed.
Hint Resolve emits_create_build emits_log_lines : preserves.

Lemma emits_monitor_build i : emits P (monitor_build env i).
Proof.
  unfold monitor_build, watch_logs, wait_to_finish, cancel_build,
    set_monitor_exception, set_build, get_build_info, get_osbs.
  emits_auto.
Qed.
Hint Resolve emits_monitor_build : preserves.

Lemma emits_do_worker_build ci :
  name (cluster ci) ≠ n → emits P (do_worker_build env self ci).
Proof. intros Hc. unfold do_worker_build, append_worker_build. emits_auto. Qed.
End Exclusion.

Lemma ensures_pure P {A} (a : A) w (R : A → Prop) : R a → ensures P (pure a) w R.
Proof. intros HR. apply spec_pure. split; [apply since_refl|done]. Qed.

Lemma ensures_emits P {A} (m : M A) w : emits P m → ensures P m w (λ _, True).
Proof.
  intros Hm. eapply spec_conseq; [apply Hm|].
  intros [] w' H; simpl in *; done.
Qed.

Lemma ensures_conseq P {A} (m : M A) w (R R' : A → Prop) :
  ensures P m w R → (∀ a, R a → R' a) → ensures P m w R'.
Proof.
  intros Hm HR. eapply spec_conseq; [apply Hm|].
  intros [a|e|] w' [H1 H2]; split; auto.
Qed.

Lemma ensures_bind P {A B} (m : M A) (f : A → M B) w (K : A → Prop) (R : B → Prop) :
  ensures P m w K → (∀ a w1, K a → ensures P (f a) w1 R) → ensures P (bind m f) w R.
Proof.
  intros Hm Hf. apply spec_bind.
  eapply spec_conseq; [apply Hm|].
  intros [a|e|] w1 [Hs HK]; simpl; try done.
  eapply spec_conseq; [apply Hf, HK|].
  intros o w2 [Hs2 HR]. simpl in *. split; [|done].
  eapply since_trans; eassumption.
Qed.

Lemma ensures_try P {A} (m : M A) w (K : A → Prop) (R : exn + A → Prop) :
  ensures P m w K → (∀ a, K a → R (inr a)) → (∀ e, R (inl e)) →
  ensures P (try_ m) w R.
Proof.
  intros Hm Hr Hl. apply spec_try.
  eapply spec_conseq; [apply Hm|].
  intros [a|e|] w1 [Hs HK]; simpl; auto.
Qed.

Lemma ensures_raise P {A} e w (R : A → Prop) : ensures P (raise e) w R.
Proof. apply spec_raise. split; [apply since_refl|done]. Qed.

Lemma ensures_out_of_fuel P {A} w (R : A → Prop) : ensures P out_of_fuel w R.
Proof. apply spec_out_of_fuel. split; [apply since_refl|done]. Qed.

Section DeadClusters.
Context (env : Env) (self : Plugin) (n : string) (dead : ClusterRetryContext).
Context (Hdead : failed dead = true).

Local Abbreviation P := (not_about n).

Lemma ensures_lookup_context ctxs c w :
  ensures P (lookup_context ctxs c) w (λ ctx, ctxs !! name c = Some ctx).
Proof.
  unfold lookup_context. destruct (ctxs !! name c) as [ctx|].
  - by apply ensures_pure.
  - apply ensures_raise.
Qed.

Lemma ensures_get_cluster_info c p w :
  name c ≠ n →
  ensures P (get_cluster_info env c p) w (λ ci, cluster ci = c).
Proof.
  intros Hc. unfold get_cluster_info.
  eapply ensures_bind; [apply ensures_emits, emits_interact|]. intros k w1 _.
  eapply ensures_bind; [apply ensures_emits, emits_emit, Hc|]. intros _ w2 _.
  destruct (osbs_list_builds env c k); [apply ensures_raise|].
  destruct (true_div _ _); [apply ensures_raise|by apply ensures_pure].
Qed.

(** A round of load queries leaves a dead cluster alone. *)
Lemma query_clusters_dead cs p ctxs possible w :
  ctxs !! n = Some dead →
  Forall (λ ci, name (cluster ci) ≠ n) possible →
  ensures P (query_clusters env self cs p ctxs possible) w
    (λ '(ctxs', possible'),
       ctxs' !! n = Some dead ∧ Forall (λ ci, name (cluster ci) ≠ n) possible').
Proof.
  revert ctxs possible w. induction cs as [|c cs IH]; intros ctxs possible w Hn Hp.
  { simpl. by apply ensures_pure. }
  simpl.
  eapply ensures_bind; [apply ensures_lookup_context|]. intros ctx w1 Hctx.
  eapply ensures_bind; [apply ensures_emits, emits_in_retry_wait|].
  intros waiting w2 _.
  destruct waiting; [by apply IH|].
  destruct (failed ctx) eqn:Hf; [by apply IH|].
  assert (name c ≠ n) as Hc by (intros E; rewrite E in Hctx; congruence).
  eapply ensures_bind.
  { eapply ensures_try with (R := λ r,
      match r with inr ci => cluster ci = c | inl _ => True end);
      [by apply ensures_get_cluster_info|done..]. }
  intros [e|ci] w3 Hr.
  - destruct e; try apply ensures_raise.
    eapply ensures_bind; [apply ensures_emits, emits_try_again_later|].
    intros ctx' w4 _. apply IH; [|done]. by rewrite lookup_insert_ne.
  - apply IH; [done|]. apply Forall_app. split; [done|].
    apply Forall_singleton. by rewrite Hr.
Qed.

Lemma get_clusters_loop_dead fuel p ctxs cs w :
  ctxs !! n = Some dead →
  ensures P (get_clusters_loop env self fuel p ctxs cs) w
    (λ '(ctxs', possible),
       ctxs' !! n = Some dead ∧ Forall (λ ci, name (cluster ci) ≠ n) possible).
Proof.
  revert ctxs cs w. induction fuel as [|fuel IH]; intros ctxs [|c cs] w Hn;
    cbn [get_clusters_loop];
    try (by apply ensures_pure); try apply ensures_out_of_fuel.
  eapply ensures_bind; [apply ensures_emits, emits_wait_for_any_cluster|].
  intros _ w1 _.
  eapply ensures_bind; [by apply query_clusters_dead|].
  intros [ctxs1 possible] w2 [Hn1 Hp].
  eapply ensures_bind; [apply ensures_emits, emits_drop_failed|].
  intros cs1 w3 _.
  destruct possible; [by apply IH|by apply ensures_pure].
Qed.

(** A selection round never ranks a dead cluster, and leaves it dead. *)
Lemma get_clusters_dead fuel p ctxs cs w :
  ctxs !! n = Some dead →
  ensures P (get_clusters env self fuel p ctxs cs) w
    (λ '(ctxs', ret),
       ctxs' !! n = Some dead ∧ Forall (λ ci, name (cluster ci) ≠ n) ret).
Proof.
  intros Hn. unfold get_clusters.
  eapply ensures_bind; [by apply get_clusters_loop_dead|].
  intros [ctxs1 possible] w1 [Hn1 Hp]. apply ensures_pure.
  split; [done|]. by do 2 apply sorted_Forall.
Qed.

Lemma start_on_clusters_dead p infos ctxs w :
  ctxs !! n = Some dead →
  Forall (λ ci, name (cluster ci) ≠ n) infos →
  ensures P (start_on_clusters env self p infos ctxs) w
    (λ '(_, ctxs'), ctxs' !! n = Some dead).
Proof.
  revert ctxs w. induction infos as [|ci infos IH]; intros ctxs w Hn Hi; simpl.
  { by apply ensures_pure. }
  apply Forall_cons in Hi as [Hci Hi].
  eapply ensures_bind; [apply ensures_emits, emits_lookup_context|].
  intros ctx w1 _.
  eapply ensures_bind; [apply ensures_emits, emits_emit, Hci|]. intros _ w2 _.
  eapply ensures_bind;
    [apply ensures_emits, emits_try, emits_do_worker_build, Hci|].
  intros [e|[]] w3 _; [|by apply ensures_pure].
  destruct e; try apply ensures_raise.
  eapply ensures_bind; [apply ensures_emits, emits_try_again_later|].
  intros ctx' w4 _. apply IH; [|done]. by rewrite lookup_insert_ne.
Qed.

(** Once a cluster is dead, the rest of the task has nothing to do
    with it. *)
Lemma select_loop_dead fuel p clusters ctxs :
  ctxs !! n = Some dead →
  ∀ w, spec (select_loop env self fuel p clusters ctxs) w (λ _ w', since w P w').
Proof.
  revert ctxs. induction fuel as [|fuel IH]; intros ctxs Hn w; simpl.
  { apply spec_out_of_fuel, since_refl. }
  assert (∀ A (m : M A) w0 (R : A → Prop), ensures P m w0 R →
            spec m w0 (λ _ w', since w0 P w')) as Hweak.
  { intros A m w0 R Hm. eapply spec_conseq; [apply Hm|]. by intros ?? []. }
  apply (Hweak _ _ _ (λ _, True)).
  eapply ensures_bind.
  { eapply ensures_try with (R := λ r,
      match r with
      | inr (ctxs', ret) =>
          ctxs' !! n = Some dead ∧ Forall (λ ci, name (cluster ci) ≠ n) ret
      | inl _ => True
      end); [by apply get_clusters_dead|by intros []|done]. }
  intros [e|[ctxs1 ret]] w1 Hr.
  - destruct e; try apply ensures_raise.
    eapply ensures_bind;
      [apply ensures_emits; unfold append_worker_build; emits_auto|].
    intros _ w2 _. by apply ensures_pure.
  - destruct Hr as [Hn1 Hret].
    eapply ensures_bind; [by apply start_on_clusters_dead|].
    intros [started ctxs2] w2 Hn2. destruct started; [by apply ensures_pure|].
    intros o w' E. split; [|by destruct o]. eapply IH; eauto.
Qed.
End DeadClusters.

(** * The claims *)

(** C3.  [try_again_later] is a no-op on a dead context
    ([fails >= max_cluster_fails]); otherwise it adds one to [fails]
    and sets [retry_at] to the time of the call plus the delay.  Hence
    [fails] never exceeds [max_cluster_fails]: this holds of a new
    context and is kept by every call.  And once the context of a
    cluster is dead, a selection round ([get_clusters]) does not rank
    that cluster and leaves it dead, and whatever the platform task
    ([select_loop]) does from then on includes no load query of that
    cluster, no attempt on it and no build created on it. *)
Theorem dead_cluster_is_never_selected_again env self seconds ctx :
  (failed ctx = true → ∀ w, try_again_later env seconds ctx w = (Ret ctx, w)) ∧
  (failed ctx = false → ∀ w, ∃ w',
     now env w = (Ret (clock w'), w') ∧
     try_again_later env seconds ctx w =
       (Ret {| fails := S (fails ctx); retry_at := clock w' + seconds;
               max_cluster_fails := max_cluster_fails ctx |}, w')) ∧
  (∀ m, (fails (new_ClusterRetryContext m) ≤ m)%nat) ∧
  (∀ w ctx' w', try_again_later env seconds ctx w = (Ret ctx', w') →
     max_cluster_fails ctx' = max_cluster_fails ctx ∧
     ((fails ctx ≤ max_cluster_fails ctx)%nat →
      (fails ctx' ≤ max_cluster_fails ctx')%nat)) ∧
  (failed ctx = true →
   ∀ n p clusters (ctxs : gmap string ClusterRetryContext) fuel w,
     ctxs !! n = Some ctx →
     (∀ ctxs' ret w',
        get_clusters env self fuel p ctxs clusters w = (Ret (ctxs', ret), w') →
        ctxs' !! n = Some ctx ∧ Forall (λ ci, name (cluster ci) ≠ n) ret) ∧
     (∀ o w',
        select_loop env self fuel p clusters ctxs w = (o, w') →
        ∃ tl, trace w' = trace w ++ tl ∧ Forall (not_about n) tl)).
Proof.
  split_and!.
  - intros Hf w. unfold try_again_later. by rewrite Hf.
  - intros Hf w. unfold try_again_later. rewrite Hf.
    destruct (now env w) as [o w'] eqn:En. exists w'.
    unfold now, bind, interact, get_world, pure in *. simpl in *.
    by simplify_eq/=.
  - intros m. simpl. lia.
  - intros w ctx' w' E. unfold try_again_later in E.
    destruct (failed ctx) eqn:Hf.
    + unfold pure in E. by simplify_eq.
    + unfold bind, now, bind, interact, get_world, pure in E. simplify_eq/=.
      split; [done|]. intros _. unfold failed in Hf.
      apply Nat.leb_gt in Hf. lia.
  - intros Hf n p clusters ctxs fuel w Hn. split.
    + intros ctxs' ret w' E.
      by destruct (get_clusters_dead env self n ctx Hf fuel p ctxs clusters w Hn
                     _ _ E) as [_ ?].
    + intros o w' E. exact (select_loop_dead env self n ctx Hf fuel p clusters
                              ctxs Hn w _ _ E).
Qed.

(** ** Reading a run backwards *)

Lemma bind_inv {A B} (m : M A) (f : A → M B) w o w' :
  bind m f w = (o, w') →
  (∃ a w1, m w = (Ret a, w1) ∧ f a w1 = (o, w')) ∨
  (∃ e, m w = (Raise e, w') ∧ o = Raise e) ∨
  (m w = (OutOfFuel, w') ∧ o = OutOfFuel).
Proof.
  unfold bind. destruct (m w) as [[a|e|] w1]; intros E.
  - left. eauto.
  - right. left. exists e. by simplify_eq.
  - right. right. by simplify_eq.
Qed.

Lemma bind_Ret_inv {A B} (m : M A) (f : A → M B) w b w' :
  bind m f w = (Ret b, w') →
  ∃ a w1, m w = (Ret a, w1) ∧ f a w1 = (Ret b, w').
Proof.
  intros E. apply bind_inv in E as [?|[(e & _ & ?)|[_ ?]]]; [done|done..].
Qed.

Lemma try_inv {A} (m : M A) w r w' :
  try_ m w = (Ret r, w') →
  (∃ a, r = inr a ∧ m w = (Ret a, w')) ∨ (∃ e, r = inl e ∧ m w = (Raise e, w')).
Proof.
  unfold try_. destruct (m w) as [[a|e|] w1]; intros E; simplify_eq; eauto.
Qed.

Lemma pure_inv {A} (a : A) w o w' : pure a w = (o, w') → o = Ret a ∧ w' = w.
Proof. unfold pure. intros; by simplify_eq. Qed.

Lemma get_world_inv w o w' : get_world w = (o, w') → o = Ret w ∧ w' = w.
Proof. unfold get_world. intros; by simplify_eq. Qed.

Lemma evolves_of_steps {A} (m : M A) w o w' : steps m → m w = (o, w') → evolves w w'.
Proof. intros Hm E. exact (Hm _ _ _ E). Qed.

Section Selection.
Context (env : Env) (self : Plugin).

Lemma lookup_context_inv ctxs c w ctx w' :
  lookup_context ctxs c w = (Ret ctx, w') → ctxs !! name c = Some ctx ∧ w' = w.
Proof.
  unfold lookup_context, pure, raise. destruct (ctxs !! name c); intros;
    by simplify_eq.
Qed.

Lemma in_retry_wait_inv ctx w b w' :
  in_retry_wait env ctx w = (Ret b, w') →
  b = (clock w' <? retry_at ctx) ∧ clock w ≤ clock w'.
Proof.
  unfold in_retry_wait, now, bind, interact, get_world, pure. simpl.
  intros; simplify_eq/=. split; [done|lia].
Qed.

(** The division of [get_cluster_info] raises nothing but
    [ZeroDivisionError] and [OverflowError]. *)
Lemma true_div_raises a b e :
  true_div a b = inl e →
  (∃ msg, e = ZeroDivisionError msg) ∨ (∃ msg, e = OtherError "OverflowError" msg).
Proof.
  unfold true_div. repeat case_match; intros [= <-]; eauto.
Qed.

Lemma get_cluster_info_inv c p w o w' :
  get_cluster_info env c p w = (o, w') →
  match o with
  | Ret ci =>
      cluster ci = c ∧ platform ci = p ∧
      ∃ b, osbs_list_builds env c (tick w) = inr b ∧
           true_div (Z.of_nat b) (max_concurrent_builds c) = inr (load ci)
  | Raise e =>
      osbs_list_builds env c (tick w) = inl e ∨
      (∃ msg, e = ZeroDivisionError msg) ∨
      (∃ msg, e = OtherError "OverflowError" msg)
  | OutOfFuel => False
  end.
Proof.
  unfold get_cluster_info, bind, interact, emit, raise, pure. simpl.
  destruct (osbs_list_builds env c (tick w)) as [e|b]; simpl.
  - intros; simplify_eq. by left.
  - destruct (true_div _ _) eqn:Ed; intros; simplify_eq/=; eauto 6.
    right. by eapply true_div_raises.
Qed.

(** What a round of load queries returns when nothing it asks
    fails: the contexts as they were, and an entry for every cluster
    that was usable when the round began. *)
Lemma query_clusters_complete cs p ctxs possible w ctxs' possible' w' t :
  (∀ c k, c ∈ cs → ∃ b, osbs_list_builds env c k = inr b) →
  t ≤ clock w →
  query_clusters env self cs p ctxs possible w = (Ret (ctxs', possible'), w') →
  ctxs' = ctxs ∧ clock w ≤ clock w' ∧
  ∃ new, possible' = possible ++ new ∧
    ∀ c, c ∈ cs → usable_at ctxs t c → ∃ ci, ci ∈ new ∧ cluster ci = c.
Proof.
  revert possible w. induction cs as [|c cs IH]; intros possible w Hans Ht E.
  { apply pure_inv in E as [? ->]. simplify_eq. split_and!; [done..|].
    exists []. rewrite app_nil_r. split; [done|]. by intros c ?%elem_of_nil. }
  simpl in E.
  apply bind_Ret_inv in E as (ctx & w1 & [Hctx ->]%lookup_context_inv & E).
  apply bind_Ret_inv in E as (waiting & w2 & [-> Hw2]%in_retry_wait_inv & E).
  assert (∀ c' k, c' ∈ cs → ∃ b, osbs_list_builds env c' k = inr b) as Hans'.
  { intros c' k Hc'. apply Hans. by right. }
  assert (∀ new : list ClusterInfo,
    (∀ c', c' ∈ cs → usable_at ctxs t c' → ∃ ci, ci ∈ new ∧ cluster ci = c') →
    ¬ usable_at ctxs t c →
    ∀ c', c' ∈ c :: cs → usable_at ctxs t c' → ∃ ci, ci ∈ new ∧ cluster ci = c')
    as Hskip.
  { intros new Hnew Hnot c' [->|Hc']%elem_of_cons Hu; [done|by apply Hnew]. }
  destruct (clock w2 <? retry_at ctx) eqn:Hwait.
  { apply Z.ltb_lt in Hwait.
    destruct (IH possible w2 Hans' ltac:(lia) E) as (-> & Hc & new & -> & Hnew).
    split_and!; [done|lia|]. exists new. split; [done|].
    apply Hskip; [done|]. intros (ctx' & ? & _ & ?). simplify_eq. lia. }
  destruct (failed ctx) eqn:Hf.
  { destruct (IH possible w2 Hans' ltac:(lia) E) as (-> & Hc & new & -> & Hnew).
    split_and!; [done|lia|]. exists new. split; [done|].
    apply Hskip; [done|]. intros (ctx' & ? & ? & _). congruence. }
  apply bind_Ret_inv in E as (r & w3 & Er & E).
  pose proof (evolves_of_steps _ _ _ _
                (steps_try _ (steps_get_cluster_info env c p)) Er) as Hev3.
  apply try_inv in Er as [(ci & -> & Eci)|(e & -> & Eci)].
  - apply get_cluster_info_inv in Eci as (Hci & _).
    destruct (IH (possible ++ [ci]) w3 Hans' ltac:(destruct Hev3; lia) E)
      as (-> & Hc & new & -> & Hnew).
    split_and!; [done|destruct Hev3; lia|]. exists (ci :: new).
    split; [by rewrite <-(assoc (++))|].
    intros c' [->|Hc']%elem_of_cons Hu.
    + exists ci. split; [by left|done].
    + destruct (Hnew c' Hc' Hu) as (ci' & ? & ?). exists ci'. split; [by right|done].
  - apply get_cluster_info_inv in Eci as [Hl|[[msg ->]|[msg ->]]].
    + destruct (Hans c (tick w2) ltac:(by left)) as [b Hb]. congruence.
    + unfold raise in E. by simplify_eq.
    + unfold raise in E. by simplify_eq.
Qed.

(** Whatever the sessions answer, a round adds entries only for the
    clusters it was given, and each has a retry context. *)
Lemma query_clusters_sound cs p ctxs possible w ctxs' possible' w' :
  query_clusters env self cs p ctxs possible w = (Ret (ctxs', possible'), w') →
  (∀ k, is_Some (ctxs !! k) → is_Some (ctxs' !! k)) ∧
  ∃ new, possible' = possible ++ new ∧
    Forall (λ ci, cluster ci ∈ cs ∧ platform ci = p ∧
                  is_Some (ctxs' !! name (cluster ci))) new.
Proof.
  revert ctxs possible w. induction cs as [|c cs IH]; intros ctxs possible w E.
  { apply pure_inv in E as [? ->]. simplify_eq. split; [done|].
    exists []. by rewrite app_nil_r. }
  simpl in E.
  apply bind_Ret_inv in E as (ctx & w1 & [Hctx ->]%lookup_context_inv & E).
  apply bind_Ret_inv in E as (waiting & w2 & _ & E).
  assert (∀ ctxs0 possible0 w0,
    (∀ k, is_Some (ctxs !! k) → is_Some (ctxs0 !! k)) →
    query_clusters env self cs p ctxs0 possible0 w0 = (Ret (ctxs', possible'), w') →
    (∀ k, is_Some (ctxs !! k) → is_Some (ctxs' !! k)) ∧
    ∃ new, possible' = possible0 ++ new ∧
      Forall (λ ci, cluster ci ∈ c :: cs ∧ platform ci = p ∧
                    is_Some (ctxs' !! name (cluster ci))) new) as Hrec.
  { intros ctxs0 possible0 w0 Hdom E0.
    destruct (IH _ _ _ E0) as (Hdom' & new & -> & Hnew).
    split; [by auto|]. exists new. split; [done|].
    eapply Forall_impl; [exact Hnew|]. intros ci (? & ? & ?).
    split_and!; [by right|done..]. }
  destruct waiting; [by apply (Hrec ctxs possible w2)|].
  destruct (failed ctx); [by apply (Hrec ctxs possible w2)|].
  apply bind_Ret_inv in E as (r & w3 & Er & E).
  apply try_inv in Er as [(ci & -> & Eci)|(e & -> & Eci)].
  - apply get_cluster_info_inv in Eci as (Hci & Hp & _).
    destruct (Hrec ctxs (possible ++ [ci]) w3 ltac:(done) E)
      as (Hdom & new & -> & Hnew).
    split; [done|]. exists (ci :: new). split; [by rewrite <-(assoc (++))|].
    constructor; [|done]. rewrite Hci. split_and!; [by left|done|].
    apply Hdom. by rewrite Hctx.
  - destruct e; try (unfold raise in E; by simplify_eq).
    apply bind_Ret_inv in E as (ctx' & w4 & _ & E).
    apply (Hrec _ _ _) in E; [done|].
    intros k Hk. destruct (decide (name c = k)) as [->|Hne].
    + by rewrite lookup_insert_eq.
    + by rewrite lookup_insert_ne.
Qed.

Lemma drop_failed_inv ctxs cs w cs1 w' :
  drop_failed ctxs cs w = (Ret cs1, w') →
  w' = w ∧ cs1 ⊆ cs ∧
  ∀ c ctx, c ∈ cs → ctxs !! name c = Some ctx → failed ctx = false → c ∈ cs1.
Proof.
  revert cs1. induction cs as [|c cs IH]; intros cs1 E; simpl in E.
  { apply pure_inv in E as [? ->]. simplify_eq. split_and!; [done..|].
    by intros c ? ?%elem_of_nil. }
  apply bind_Ret_inv in E as (ctx & w1 & [Hctx ->]%lookup_context_inv & E).
  apply bind_Ret_inv in E as (rest & w2 & Er & E).
  apply pure_inv in E as [? ->]. simplify_eq.
  destruct (IH _ Er) as (-> & Hsub & Hin). split; [done|].
  destruct (failed ctx) eqn:Hf.
  - split; [set_solver|].
    intros c' ctx' [->|Hc']%elem_of_cons Hctx' Hf'; [congruence|eauto].
  - split; [set_solver|].
    intros c' ctx' [->|Hc']%elem_of_cons Hctx' Hf'; [by left|right; eauto].
Qed.

Lemma get_clusters_loop_sound fuel p ctxs cs w ctxs' possible w' :
  (∀ l, set_iter env l ≡ₚ l) →
  get_clusters_loop env self fuel p ctxs cs w = (Ret (ctxs', possible), w') →
  Forall (λ ci, cluster ci ∈ cs ∧ platform ci = p ∧
                is_Some (ctxs' !! name (cluster ci))) possible.
Proof.
  intros Hset. revert ctxs cs w.
  induction fuel as [|fuel IH]; intros ctxs [|c cs] w E;
    cbn [get_clusters_loop] in E;
    try (apply pure_inv in E as [? ->]; by simplify_eq);
    try (unfold out_of_fuel in E; by simplify_eq).
  apply bind_Ret_inv in E as (? & w1 & _ & E).
  apply bind_Ret_inv in E as ([ctxs1 possible1] & w2 & Eq & E).
  apply bind_Ret_inv in E as (cs1 & w3 & (-> & Hsub & _)%drop_failed_inv & E).
  apply query_clusters_sound in Eq as (_ & new & -> & Hnew). simpl in Hnew.
  destruct new as [|ci new].
  - apply IH in E. eapply Forall_impl; [exact E|].
    intros ci (? & ? & ?). split_and!; [set_solver|done..].
  - apply pure_inv in E as [? ->]. simplify_eq.
    eapply Forall_impl; [exact Hnew|]. intros ci' (Hin & ? & ?).
    split_and!; [|done..]. by rewrite sorted_perm, Hset in Hin.
Qed.

Lemma get_clusters_loop_complete fuel p ctxs cs w ctxs' possible w' t :
  (∀ l, set_iter env l ≡ₚ l) →
  (∀ c k, c ∈ cs → ∃ b, osbs_list_builds env c k = inr b) →
  t ≤ clock w →
  get_clusters_loop env self fuel p ctxs cs w = (Ret (ctxs', possible), w') →
  ctxs' = ctxs ∧
  ∀ c, c ∈ cs → usable_at ctxs t c → ∃ ci, ci ∈ possible ∧ cluster ci = c.
Proof.
  intros Hset. revert cs w.
  induction fuel as [|fuel IH]; intros [|c cs] w Hans Ht E;
    cbn [get_clusters_loop] in E;
    try (apply pure_inv in E as [? ->]; simplify_eq;
         split; [done|by intros ? ?%elem_of_nil]);
    try (unfold out_of_fuel in E; by simplify_eq).
  apply bind_Ret_inv in E as (? & w1 & Ew & E).
  pose proof (evolves_of_steps _ _ _ _ (steps_wait_for_any_cluster env ctxs) Ew)
    as Hev1.
  apply bind_Ret_inv in E as ([ctxs1 possible1] & w2 & Eq & E).
  apply bind_Ret_inv in E as (cs1 & w3 & (-> & Hsub & Hkeep)%drop_failed_inv & E).
  apply (query_clusters_complete _ _ _ _ _ _ _ _ t) in Eq
    as (-> & Hc2 & new & -> & Hnew); [| |destruct Hev1; lia].
  2:{ intros c' k Hc'. apply Hans. by rewrite sorted_perm, Hset in Hc'. }
  simpl in E. destruct new as [|ci new].
  - apply IH in E as [-> Hrec]; [|set_solver|destruct Hev1; lia].
    split; [done|]. intros c' Hc' Hu. apply Hrec; [|done].
    destruct Hu as (ctx & ? & ? & ?). eauto.
  - apply pure_inv in E as [? ->]. simplify_eq. split; [done|].
    intros c' Hc' Hu. apply Hnew; [|done]. by rewrite sorted_perm, Hset.
Qed.
End Selection.

(** C1.  The ranking [get_clusters] returns is ordered by load, and by
    priority among equal loads (the second sort is stable).  It ranks
    candidate clusters only, and, when every candidate answers its
    load query, it ranks every candidate that was usable (neither dead
    nor waiting for a retry) when the selection began.  The loop over
    the ranking then attempts the first entry first: the cluster of
    least load, and of least priority among those. *)
Theorem get_clusters_ranks_by_load_then_priority
    env self fuel p ctxs clusters w ctxs' ret w' :
  (∀ l, set_iter env l ≡ₚ l) →
  get_clusters env self fuel p ctxs clusters w = (Ret (ctxs', ret), w') →
  StronglySorted rank_le ret ∧
  Forall (λ ci, cluster ci ∈ clusters ∧ platform ci = p) ret ∧
  ((∀ c k, c ∈ clusters → ∃ b, osbs_list_builds env c k = inr b) →
   ∀ c, c ∈ clusters → usable_at ctxs (clock w) c →
        ∃ ci, ci ∈ ret ∧ cluster ci = c) ∧
  (∀ ci rest, ret = ci :: rest →
     Forall (rank_le ci) rest ∧
     ∀ o w'', start_on_clusters env self p ret ctxs' w' = (o, w'') →
              (trace w' ++ [EvAttempt p (name (cluster ci))]) `prefix_of` trace w'').
Proof.
  intros Hset E. unfold get_clusters in E.
  apply bind_Ret_inv in E as ([ctxs1 possible] & w1 & El & E).
  apply pure_inv in E as [[= Hc0 Hret0] ->]. subst ctxs1 ret.
  pose proof (get_clusters_loop_sound _ _ _ _ _ _ _ _ _ _ Hset El) as Hsound.
  assert (StronglySorted rank_le
            (sorted Qltb load (sorted Z.ltb (λ c, priority (cluster c)) possible)))
    as Hsorted by apply (sorted_twice_by_rank (λ c, priority (cluster c)) load).
  split_and!.
  - exact Hsorted.
  - do 2 apply sorted_Forall. eapply Forall_impl; [exact Hsound|].
    by intros ci (? & ? & ?).
  - intros Hans c Hc Hu.
    destruct (get_clusters_loop_complete env self fuel p ctxs clusters w _ _ _
                (clock w) Hset Hans (Z.le_refl _) El) as [_ Hall].
    destruct (Hall c Hc Hu) as (ci & Hci & ?). exists ci. split; [|done].
    by do 2 apply elem_of_sorted.
  - intros ci rest Hret. rewrite Hret in Hsorted.
    apply StronglySorted_cons in Hsorted as [Hmin _]. split; [done|].
    intros o w'' Es.
    assert (is_Some (ctxs' !! name (cluster ci))) as [ctx Hctx].
    { assert (ci ∈ possible) as Hin.
      { assert (ci ∈ ci :: rest) as Hin by left.
        rewrite <-Hret in Hin. by do 2 apply elem_of_sorted in Hin. }
      rewrite Forall_forall in Hsound. by destruct (Hsound _ Hin) as (_ & _ & ?). }
    rewrite Hret in Es. simpl in Es.
    unfold lookup_context in Es. rewrite Hctx in Es.
    unfold bind at 1, pure at 1 in Es. unfold bind at 1, emit at 1 in Es.
    match type of Es with ?m ?w0 = _ =>
      assert (steps m) as Hm
    end.
    { apply steps_bind; [apply steps_try, steps_do_worker_build|].
      intros [e|[]]; [|apply steps_pure].
      destruct e; try apply steps_raise.
      apply steps_bind; [apply steps_try_again_later|]. intros ?.
      apply steps_start_on_clusters. }
    apply (Hm _ _ _ Es).
Qed.

(** The placeholder [select_and_start_cluster] records for a platform
    left without cluster. *)
Lemma wait_for_any_cluster_all_dead env (ctxs : gmap string ClusterRetryContext) w :
  (∀ n ctx, ctxs !! n = Some ctx → failed ctx = true) →
  wait_for_any_cluster env ctxs w
    = (Raise (AllClustersFailedException all_clusters_failed_msg), w).
Proof.
  intros Hdead. unfold wait_for_any_cluster.
  assert (filter (λ ctx, negb (failed ctx)) (map_to_list ctxs).*2 = []) as ->; [|done].
  assert (Forall (λ ctx, failed ctx = true) (map_to_list ctxs).*2) as Hall.
  { apply Forall_forall. intros ctx ((n & ctx') & -> & Hin)%list_elem_of_fmap.
    apply elem_of_map_to_list in Hin. exact (Hdead _ _ Hin). }
  induction Hall as [|ctx l Hctx _ IH]; [done|].
  rewrite filter_cons. by rewrite Hctx.
Qed.

(** C2.  When every retry context is dead, [wait_for_any_cluster]
    raises [AllClustersFailedException] with the message "Could not
    find appropriate cluster for worker build."; the platform task
    catches it: it appends a [WorkerBuildInfo] without build whose
    [monitor_exception] is that message and returns normally, so the
    pool gets no exception from it and the other platforms' tasks go
    on; the build counts as failed and its failure reason is that
    message. *)
Theorem all_clusters_dead_gives_placeholder env self fuel p c clusters
    (ctxs : gmap string ClusterRetryContext) w :
  (∀ n ctx, ctxs !! n = Some ctx → failed ctx = true) →
  let msg := "Could not find appropriate cluster for worker build." in
  let placeholder :=
    {| build := None; wb_cluster := None; wb_platform := p;
       monitor_exception := Some (MonStr msg) |} in
  wait_for_any_cluster env ctxs w = (Raise (AllClustersFailedException msg), w) ∧
  ∃ w',
    select_loop env self (S fuel) p (c :: clusters) ctxs w = (Ret tt, w') ∧
    worker_builds w' = worker_builds w ++ [placeholder] ∧
    trace w' = trace w ∧
    build_failed placeholder = true ∧
    get_fail_reason env placeholder w' = (Ret [(PStr "general", PStr msg)], w').
Proof.
  intros Hdead msg placeholder.
  pose proof (wait_for_any_cluster_all_dead env ctxs w Hdead) as Hwait.
  split; [exact Hwait|].
  eexists. split_and!.
  - cbn [select_loop]. unfold get_clusters. cbn [get_clusters_loop].
    unfold bind at 1, try_ at 1, bind at 1, bind at 1. rewrite Hwait.
    reflexivity.
  - simpl. reflexivity.
  - reflexivity.
  - reflexivity.
  - reflexivity.
Qed.

(** ** Who appends to [self.worker_builds] *)

#[global] Instance same_builds_preorder : PreOrder same_builds.
Proof. split; unfold same_builds; [done|]. intros w1 w2 w3 ??. congruence. Qed.

Lemma keeps_pure {A} (a : A) : preserves same_builds (pure a).
Proof. apply preserves_pure, _. Qed.

Lemma keeps_raise {A} e : preserves same_builds (@raise A e).
Proof. apply preserves_raise, _. Qed.

Lemma keeps_out_of_fuel {A} : preserves same_builds (@out_of_fuel A).
Proof. apply preserves_out_of_fuel, _. Qed.

Lemma keeps_get_world : preserves same_builds get_world.
Proof. apply preserves_get_world, _. Qed.

Lemma keeps_bind {A B} (m : M A) (f : A → M B) :
  preserves same_builds m → (∀ a, preserves same_builds (f a)) → preserves same_builds (bind m f).
Proof. apply preserves_bind, _. Qed.

Lemma keeps_try {A} (m : M A) : preserves same_builds m → preserves same_builds (try_ m).
Proof. apply preserves_try. Qed.

Lemma keeps_silent {A} (m : M A) :
  (∀ w o w', m w = (o, w') → worker_builds w' = worker_builds w) → keeps m.
Proof. intros Hm w o w' E. unfold same_builds, recorded. by rewrite (Hm _ _ _ E). Qed.

Lemma keeps_emit ev : keeps (emit ev).
Proof. apply keeps_silent. intros w o w' E. by inversion E. Qed.

Lemma keeps_interact env : keeps (interact env).
Proof. apply keeps_silent. intros w o w' E. by inversion E. Qed.

Lemma keeps_advance_clock d : keeps (advance_clock d).
Proof. apply keeps_silent. intros w o w' E. by inversion E. Qed.

Lemma keeps_alter_build (f : WorkerBuildInfo → WorkerBuildInfo) (i : nat) :
  (∀ bi, wb_platform (f bi) = wb_platform bi) →
  keeps (let! w := get_world in set_worker_builds (alter f i (worker_builds w))).
Proof.
  intros Hf w o w' E. inversion E; subst.
  unfold same_builds, recorded. simpl. by rewrite fmap_platform_alter.
Qed.

#[global] Hint Resolve keeps_pure keeps_raise keeps_out_of_fuel keeps_get_world
  keeps_emit keeps_interact keeps_advance_clock : preserves.

Ltac keeps_step :=
  first
    [ solve [eauto with preserves]
    | apply keeps_try
    | apply keeps_bind; [|intros ?]
    | match goal with
      | |- preserves _ (match ?x with _ => _ end) => destruct x
      | |- preserves _ (if ?x then _ else _) => destruct x
      end ].
Ltac keeps_auto := repeat keeps_step.

Section Keeps.
Context (env : Env) (self : Plugin).

Lemma keeps_get_clusters fuel p ctxs cs : keeps (get_clusters env self fuel p ctxs cs).
Proof.
  assert (∀ ctx, keeps (in_retry_wait env ctx)) as Hw
    by (intros; unfold in_retry_wait, now; keeps_auto).
  assert (∀ s ctx, keeps (try_again_later env s ctx)) as Hl
    by (intros; unfold try_again_later, now; keeps_auto).
  assert (∀ ctxs0 c, keeps (lookup_context ctxs0 c)) as Hc
    by (intros; unfold lookup_context; keeps_auto).
  assert (∀ cs0 ctxs0 possible, keeps (query_clusters env self cs0 p ctxs0 possible))
    as Hq.
  { induction cs0 as [|c cs0 IH]; intros; simpl; unfold get_cluster_info;
      keeps_auto. }
  assert (∀ ctxs0 cs0, keeps (drop_failed ctxs0 cs0)) as Hd.
  { induction cs0 as [|c cs0 IH]; simpl; keeps_auto. }
  assert (∀ ctxs0, keeps (wait_for_any_cluster env ctxs0)) as Ha
    by (intros; unfold wait_for_any_cluster, sleep, now; keeps_auto).
  unfold get_clusters. apply keeps_bind; [|intros [? ?]; apply keeps_pure].
  revert ctxs cs. induction fuel as [|fuel IH]; intros ctxs [|c cs];
    cbn [get_clusters_loop]; keeps_auto.
Qed.

Lemma keeps_try_again_later s ctx : keeps (try_again_later env s ctx).
Proof. unfold try_again_later, now. keeps_auto. Qed.

Lemma keeps_create_build ci : keeps (create_build env self ci).
Proof.
  unfold create_build.
  apply keeps_bind; [apply keeps_get_world|]. intros w0.
  apply keeps_bind; [|intros ?; keeps_auto].
  apply keeps_silent. intros w o w' E.
  by rewrite (get_worker_build_kwargs_pure _ _ _ _ _ _ _ _ _ E).
Qed.

Lemma keeps_monitor_build i : keeps (monitor_build env i).
Proof.
  assert (∀ b, keeps (set_build i b)) as Hb by (intros; by apply keeps_alter_build).
  assert (∀ m, keeps (set_monitor_exception i m)) as Hm
    by (intros; by apply keeps_alter_build).
  assert (∀ p lines, keeps (log_lines p lines)) as Hl
    by (induction lines; simpl; keeps_auto).
  unfold monitor_build, watch_logs, wait_to_finish, cancel_build,
    get_build_info, get_osbs.
  keeps_auto.
Qed.

Lemma keeps_get_fail_reasons builds acc : keeps (get_fail_reasons env builds acc).
Proof.
  revert acc. induction builds as [|bi builds IH]; intros; simpl;
    unfold get_fail_reason, get_pod_failure_reason, get_osbs; keeps_auto.
Qed.

(** [monitor_build] swallows every [OsbsException]. *)
Lemma monitor_build_raises i w e w' :
  monitor_build env i w = (Raise e, w') → is_OsbsException e = false.
Proof.
  unfold monitor_build. intros E.
  apply bind_inv in E as [(r & w1 & Er & E)|[(e' & E & _)|[_ ?]]]; [| |done].
  2:{ unfold try_ in E. by repeat case_match. }
  destruct r as [e0|[]]; [|by apply pure_inv in E as [? _]].
  apply bind_inv in E as [(? & w2 & _ & E)|[(e' & E & _)|[_ ?]]]; [| |done].
  2:{ unfold set_monitor_exception, bind, get_world, set_worker_builds in E.
      by simplify_eq. }
  apply bind_inv in E as [(r & w3 & _ & E)|[(e' & E & _)|[_ ?]]]; [| |done].
  2:{ unfold try_ in E. by repeat case_match. }
  destruct r as [e1|[]]; [|by apply pure_inv in E as [? _]].
  destruct e1; unfold raise, pure in E; by simplify_eq.
Qed.

(** [do_worker_build] records exactly one build when it returns, and
    none when it raises [OsbsException]. *)
Lemma do_worker_build_records ci w o w' :
  do_worker_build env self ci w = (o, w') →
  match o with
  | Ret _ => recorded w' = recorded w ++ [platform ci]
  | Raise e => is_OsbsException e = true → recorded w' = recorded w
  | OutOfFuel => True
  end.
Proof.
  unfold do_worker_build. intros E.
  apply bind_inv in E as [(r & w1 & Er & E)|[(e' & E & _)|[E ->]]]; [| |done].
  2:{ unfold try_ in E. by repeat case_match. }
  pose proof (keeps_try _ (keeps_create_build ci) _ _ _ Er) as H1.
  assert (∀ b o0 w0,
    (let! i := append_worker_build
                 {| build := b; wb_cluster := Some (cluster ci);
                    wb_platform := platform ci; monitor_exception := None |} in
     match b with Some _ => monitor_build env i | None => pure tt end) w1
      = (o0, w0) →
    match o0 with
    | Ret _ => recorded w0 = recorded w ++ [platform ci]
    | Raise e => is_OsbsException e = true → recorded w0 = recorded w
    | OutOfFuel => True
    end) as Hrest.
  { intros b o0 w0 E0.
    apply bind_inv in E0 as [(i & w2 & Ea & E0)|[(e' & E0 & _)|[E0 _]]];
      [|by inversion E0..].
    assert (recorded w2 = recorded w ++ [platform ci]) as H2.
    { inversion Ea; subst. unfold same_builds, recorded in *. simpl.
      by rewrite fmap_app, H1. }
    destruct b.
    - pose proof (keeps_monitor_build i _ _ _ E0) as H3.
      destruct o0 as [[]|e|]; [congruence| |done].
      intros He. apply monitor_build_raises in E0. congruence.
    - apply pure_inv in E0 as [-> ->]. done. }
  apply bind_inv in E as [(b & w2 & Eb & E)|[(e' & Eb & ->)|[Eb ->]]].
  - destruct r as [e|b0].
    + destruct e; unfold pure, raise in Eb; simplify_eq; by apply (Hrest None).
    + apply pure_inv in Eb as [? ->]. simplify_eq. by apply (Hrest (Some b0)).
  - intros _. destruct r as [e|b0]; [|by inversion Eb].
    destruct e; unfold pure, raise in Eb; by simplify_eq.
  - done.
Qed.
End Keeps.

Section Tasks.
Context (env : Env) (self : Plugin).

Lemma get_clusters_platform fuel p ctxs cs w ctxs' ret w' :
  get_clusters env self fuel p ctxs cs w = (Ret (ctxs', ret), w') →
  Forall (λ ci, platform ci = p) ret.
Proof.
  unfold get_clusters. intros E.
  apply bind_Ret_inv in E as ([ctxs1 possible] & w1 & El & E).
  apply pure_inv in E as [[= _ Hret] _]. subst ret. do 2 apply sorted_Forall.
  clear ctxs'. revert ctxs cs w El.
  induction fuel as [|fuel IH]; intros ctxs [|c cs] w E;
    cbn [get_clusters_loop] in E;
    try (apply pure_inv in E as [? ->]; by simplify_eq);
    try (unfold out_of_fuel in E; by simplify_eq).
  apply bind_Ret_inv in E as (? & w2 & _ & E).
  apply bind_Ret_inv in E as ([ctxs2 possible2] & w3 & Eq & E).
  apply bind_Ret_inv in E as (cs1 & w4 & _ & E).
  apply query_clusters_sound in Eq as (_ & new & -> & Hnew). simpl in E.
  destruct new as [|ci new]; [by eapply IH|].
  apply pure_inv in E as [? ->]. simplify_eq.
  eapply Forall_impl; [exact Hnew|]. by intros ? (_ & ? & _).
Qed.

Lemma start_on_clusters_records p infos ctxs w started ctxs' w' :
  Forall (λ ci, platform ci = p) infos →
  start_on_clusters env self p infos ctxs w = (Ret (started, ctxs'), w') →
  recorded w' = recorded w ++ (if started then [p] else []).
Proof.
  revert ctxs w. induction infos as [|ci infos IH]; intros ctxs w Hp E; simpl in E.
  { apply pure_inv in E as [? ->]. simplify_eq. by rewrite app_nil_r. }
  apply Forall_cons in Hp as [Hci Hp].
  apply bind_Ret_inv in E as (ctx & w1 & [_ ->]%lookup_context_inv & E).
  apply bind_Ret_inv in E as (? & w2 & Ee & E).
  pose proof (keeps_emit _ _ _ _ Ee) as H2.
  apply bind_Ret_inv in E as (r & w3 & Er & E).
  unfold try_ in Er.
  destruct (do_worker_build env self ci w2) as [o w3'] eqn:Ed.
  apply do_worker_build_records in Ed.
  destruct o as [[]|e|]; simplify_eq.
  - apply pure_inv in E as [? ->]. simplify_eq. rewrite Ed.
    unfold same_builds in H2. by rewrite H2.
  - destruct e; try (unfold raise in E; by simplify_eq).
    apply bind_Ret_inv in E as (ctx' & w4 & El & E).
    pose proof (keeps_try_again_later env _ _ _ _ _ El) as H4.
    apply IH in E; [|done]. rewrite E. unfold same_builds in *.
    by rewrite H4, Ed, H2.
Qed.

(** A platform task that returns has recorded exactly one build, for
    its platform. *)
Lemma select_loop_records fuel p clusters ctxs w w' :
  select_loop env self fuel p clusters ctxs w = (Ret tt, w') →
  recorded w' = recorded w ++ [p].
Proof.
  revert ctxs w. induction fuel as [|fuel IH]; intros ctxs w E; simpl in E.
  { unfold out_of_fuel in E. by simplify_eq. }
  apply bind_Ret_inv in E as (r & w1 & Er & E).
  pose proof (keeps_try _ (keeps_get_clusters env self (S fuel) p ctxs clusters)
                _ _ _ Er) as H1. unfold same_builds in H1.
  apply try_inv in Er as [([ctxs1 ret] & -> & Eg)|(e & -> & Eg)].
  - apply get_clusters_platform in Eg.
    apply bind_Ret_inv in E as ([started ctxs2] & w2 & Es & E).
    apply start_on_clusters_records in Es; [|done].
    destruct started.
    + apply pure_inv in E as [_ ->]. by rewrite Es, H1.
    + apply IH in E. rewrite app_nil_r in Es. by rewrite E, Es, H1.
  - destruct e; try (unfold raise in E; by simplify_eq).
    apply bind_Ret_inv in E as (i & w2 & Ea & E).
    apply pure_inv in E as [_ ->]. inversion Ea; subst.
    unfold recorded in *. simpl. by rewrite fmap_app, H1.
Qed.

Lemma select_and_start_cluster_records fuel p w w' :
  select_and_start_cluster env self fuel p w = (Ret tt, w') →
  recorded w' = recorded w ++ [p].
Proof.
  unfold select_and_start_cluster.
  destruct (get_enabled_clusters_for_platform _ p); [by unfold raise|].
  apply select_loop_records.
Qed.

(** When no task raised, every platform has recorded its build. *)
Lemma run_tasks_records fuel ps w w' :
  run_tasks env self fuel ps w = (Ret None, w') →
  recorded w' = recorded w ++ ps.
Proof.
  revert w. induction ps as [|p ps IH]; intros w E; simpl in E.
  { apply pure_inv in E as [_ ->]. by rewrite app_nil_r. }
  apply bind_Ret_inv in E as (r & w1 & Er & E).
  apply bind_Ret_inv in E as (rest & w2 & Ers & E).
  apply pure_inv in E as [? ->].
  destruct r as [e|[]]; simplify_eq.
  apply try_inv in Er as [([] & ? & Et)|(? & ? & _)]; [|done].
  apply select_and_start_cluster_records in Et. apply IH in Ers.
  by rewrite Ers, Et, <-(assoc (++)).
Qed.

(** A dict keyed by platform has one entry per build when no two
    builds share a platform. *)
Lemma build_info_by_platform_NoDup builds :
  NoDup (wb_platform <$> builds) →
  build_info_by_platform builds = (λ bi, (wb_platform bi, bi)) <$> builds.
Proof.
  unfold build_info_by_platform.
  assert (∀ (acc : dict WorkerBuildInfo),
    (∀ bi, bi ∈ builds → wb_platform bi ∉ acc.*1) →
    NoDup (wb_platform <$> builds) →
    foldl (λ acc bi, dict_set acc (wb_platform bi) bi) acc builds
      = acc ++ ((λ bi, (wb_platform bi, bi)) <$> builds)) as Hgen.
  { assert (∀ (acc : dict WorkerBuildInfo) k v,
      k ∉ acc.*1 → dict_set acc k v = acc ++ [(k, v)]) as Hset.
    { induction acc as [|[k' v'] acc IHa]; intros k v Hk; simpl; [done|].
      rewrite fmap_cons, not_elem_of_cons in Hk. destruct Hk as [Hne Hk].
      simpl in Hne. destruct (String.eqb_spec k' k); [done|].
      by rewrite IHa. }
    induction builds as [|bi builds IHb]; intros acc Hacc Hnd; simpl.
    { by rewrite app_nil_r. }
    rewrite fmap_cons in Hnd. apply NoDup_cons in Hnd as [Hbi Hnd].
    rewrite Hset by (apply Hacc; left).
    rewrite IHb, <-(assoc (++)); [done| |done].
    intros bi' Hbi'. rewrite fmap_app, elem_of_app. intros [?|Hin].
    - by apply (Hacc bi'); [right|].
    - simpl in Hin. apply list_elem_of_singleton in Hin.
      apply Hbi. rewrite <-Hin. by apply list_elem_of_fmap_2. }
  intros Hnd. rewrite Hgen; [done| |done].
  intros bi _. simpl. apply not_elem_of_nil.
Qed.
End Tasks.

(** C4.  When every platform task has returned and the failed builds
    have been diagnosed, i.e. when [run] ends without an error of the
    orchestration itself, [run] has recorded exactly one
    [WorkerBuildInfo] per requested platform, and the [build_info]
    mapping it publishes in the workspace has exactly one entry per
    requested platform, each holding the build recorded for it; this
    whether [run] then returns or raises [PluginFailedException]. *)
Theorem run_publishes_one_build_info_per_platform env self fuel w w1 frs w2 :
  platforms self ≠ ∅ →
  worker_builds w = [] →
  run_tasks env self fuel (elements (platforms self)) w = (Ret None, w1) →
  get_fail_reasons env (worker_builds w1) [] w1 = (Ret frs, w2) →
  ∃ w' d,
    run env self fuel w
      = (match frs with
         | [] => Ret tt
         | _ :: _ => Raise (PluginFailedException (json_dumps env frs))
         end, w') ∧
    recorded w' ≡ₚ elements (platforms self) ∧
    plugin_workspace w' ≫= ws_build_info = Some d ∧
    d.*1 ≡ₚ elements (platforms self) ∧
    NoDup d.*1 ∧
    Forall (λ '(p, bi), wb_platform bi = p ∧ bi ∈ worker_builds w') d.
Proof.
  intros Hne Hw Etasks Efrs.
  pose proof (run_tasks_records _ _ _ _ _ _ Etasks) as H1.
  unfold recorded at 2 in H1. rewrite Hw in H1. simpl in H1.
  pose proof (keeps_get_fail_reasons env _ _ _ _ _ Efrs) as H2.
  unfold same_builds in H2.
  assert (NoDup (wb_platform <$> worker_builds w2)) as Hnd.
  { fold (recorded w2). rewrite H2, H1. apply NoDup_elements. }
  destruct (publish_workspace self w2) as [o3 w3] eqn:Epub.
  assert (o3 = Ret tt ∧ worker_builds w3 = worker_builds w2 ∧
          plugin_workspace w3 ≫= ws_build_info
            = Some (build_info_by_platform (worker_builds w2))) as (-> & Hb3 & Hp3).
  { unfold publish_workspace, bind, get_world, set_plugin_workspace in Epub.
    by simplify_eq/=. }
  exists w3, ((λ bi, (wb_platform bi, bi)) <$> worker_builds w2).
  assert ((((λ bi, (wb_platform bi, bi)) <$> worker_builds w2) : dict _).*1
          = recorded w2) as Hkeys.
  { unfold recorded. rewrite <-list_fmap_compose. by apply list_fmap_ext. }
  split_and!.
  - unfold run. destruct (elements (platforms self)) as [|p ps] eqn:Eel.
    { by apply elements_empty_inv, leibniz_equiv in Eel. }
    unfold bind at 1. rewrite Etasks. unfold bind at 1, get_world at 1.
    unfold bind at 1. rewrite Efrs. unfold bind at 1. rewrite Epub.
    by destruct frs.
  - unfold recorded. by rewrite Hb3, <-H1, <-H2.
  - rewrite <-build_info_by_platform_NoDup by done. exact Hp3.
  - by rewrite Hkeys, H2, H1.
  - by rewrite Hkeys.
  - rewrite Hb3. apply Forall_fmap, Forall_forall. by intros bi Hbi.
Qed.

Section Abort.
Context (env : Env) (self : Plugin).

Lemma keeps_cancel_build i : keeps (cancel_build env i).
Proof. unfold cancel_build, get_build_info, get_osbs. keeps_auto. Qed.

(** Cancelling the builds recorded at positions [i], ..., [i + n - 1]
    calls [cancel_build] on each of them. *)
Lemma cancel_builds_calls n i w r w' :
  cancel_builds env i n w = (Ret r, w') →
  recorded w' = recorded w ∧
  ∀ j p, (i ≤ j < i + n)%nat → recorded w !! j = Some p →
         EvCancelBuild p ∈ trace w'.
Proof.
  revert i w r. induction n as [|n IH]; intros i w r E; simpl in E.
  { apply pure_inv in E as [_ ->]. split; [done|]. intros; lia. }
  apply bind_Ret_inv in E as (r1 & w1 & Ec & E).
  apply bind_Ret_inv in E as (r2 & w2 & Er & E).
  apply pure_inv in E as [_ ->].
  pose proof (keeps_try _ (keeps_cancel_build i) _ _ _ Ec) as Hk1.
  pose proof (evolves_of_steps _ _ _ _ (steps_cancel_builds env (S i) n) Er) as Hev2.
  destruct (IH _ _ _ Er) as [Hk2 Hrest]. unfold same_builds in Hk1.
  split; [congruence|].
  intros j p Hj Hp. destruct (decide (j = i)) as [->|Hne].
  - assert (EvCancelBuild p ∈ trace w1) as Hin.
    { unfold try_, cancel_build, get_build_info in Ec.
      unfold bind at 1, bind at 1, get_world at 1 in Ec.
      unfold recorded in Hp. rewrite list_lookup_fmap in Hp.
      destruct (worker_builds w !! i) as [bi|] eqn:Ebi; [|done].
      simpl in Hp. simplify_eq. unfold pure at 1 in Ec.
      unfold bind at 1, emit at 1 in Ec.
      match type of Ec with
      | context [?m ?w0] =>
          match w0 with
          | {| trace := trace w ++ _ |} =>
              destruct (m w0) as [o1 w1'] eqn:Em;
              assert (steps m) as Hm
          end
      end.
      { destruct (build bi); [|apply steps_pure].
        destruct (is_finished _); [apply steps_pure|].
        unfold get_osbs. steps_auto. }
      pose proof (ev_trace _ _ (Hm _ _ _ Em)) as Hpre. simpl in Hpre.
      assert (w1' = w1) as -> by (by destruct o1; simplify_eq).
      eapply elem_of_prefix; [|exact Hpre]. set_solver. }
    eapply elem_of_prefix; [exact Hin|]. apply Hev2.
  - apply (Hrest j); [lia|]. by rewrite Hk1.
Qed.

(** The pool keeps the exceptions of its tasks as values. *)
Lemma cancel_builds_never_raises n i w e w' :
  cancel_builds env i n w ≠ (Raise e, w').
Proof.
  revert i w e. induction n as [|n IH]; intros i w e Ec; simpl in Ec;
    [by inversion Ec|].
  apply bind_inv in Ec as [(? & ? & _ & Ec)|[(? & Ec & _)|[? ?]]]; [| |done].
  - apply bind_inv in Ec as [(? & ? & _ & Ec)|[(? & Ec & _)|[? ?]]];
      [by inversion Ec|by eapply IH|done].
  - unfold try_ in Ec. by repeat case_match.
Qed.

Lemma run_tasks_never_raises fuel ps w e w' :
  run_tasks env self fuel ps w ≠ (Raise e, w').
Proof.
  revert w e. induction ps as [|p ps IH]; intros w e Et; simpl in Et;
    [by inversion Et|].
  apply bind_inv in Et as [(? & ? & _ & Et)|[(? & Et & _)|[? ?]]]; [| |done].
  - apply bind_inv in Et as [(? & ? & _ & Et)|[(? & Et & _)|[? ?]]];
      [by inversion Et|by eapply IH|done].
  - unfold try_ in Et. by repeat case_match.
Qed.

Lemma run_tasks_raised fuel ps p w r w' :
  p ∈ ps →
  (∀ w0, ∃ e, select_and_start_cluster env self fuel p w0 = (Raise e, w0)) →
  run_tasks env self fuel ps w = (Ret r, w') → r ≠ None.
Proof.
  intros Hp Hraise. revert w r w'.
  induction ps as [|q ps IH]; intros w r w' E; [by apply elem_of_nil in Hp|].
  simpl in E.
  apply bind_Ret_inv in E as (r1 & w1 & Et & E).
  apply bind_Ret_inv in E as (r2 & w2 & Er & E).
  apply pure_inv in E as [[= Hr] _]. subst r.
  destruct r1 as [e|[]]; [done|].
  apply elem_of_cons in Hp as [->|Hp]; [|exact (IH Hp _ _ _ Er)].
  destruct (Hraise w) as [e He]. unfold try_ in Et. rewrite He in Et. done.
Qed.
End Abort.

(** C6 (amended).  A platform without cluster makes its task raise
    [UnknownPlatformException] at once, before any retry context exists
    and without any effect.  [run] then does not return: once the tasks
    are over it calls [cancel_build] on every build recorded, also on
    those of the other platforms, raises, and publishes nothing in the
    workspace. *)
Theorem unknown_platform_aborts_run env self fuel p :
  p ∈ platforms self →
  get_enabled_clusters_for_platform (reactor_config self) p = [] →
  (∀ w, select_and_start_cluster env self fuel p w
          = (Raise (UnknownPlatformException
                      ("No clusters found for platform " +:+ p +:+ "!")), w)) ∧
  (∀ w o w', run env self fuel w = (o, w') →
     (o = OutOfFuel ∨ ∃ e, o = Raise e) ∧
     plugin_workspace w' = plugin_workspace w ∧
     (o ≠ OutOfFuel → Forall (λ q, EvCancelBuild q ∈ trace w') (recorded w'))).
Proof.
  intros Hp Hnone.
  assert (∀ w, select_and_start_cluster env self fuel p w
            = (Raise (UnknownPlatformException
                        ("No clusters found for platform " +:+ p +:+ "!")), w))
    as Htask.
  { intros w. unfold select_and_start_cluster. by rewrite Hnone. }
  split; [exact Htask|].
  intros w o w' E. unfold run in E.
  destruct (elements (platforms self)) as [|q ps] eqn:Eel.
  { apply elements_empty_inv in Eel. set_solver. }
  rewrite <-Eel in E.
  apply bind_inv in E as [(r & w1 & Et & E)|[(e & Et & ->)|[Et ->]]].
  - pose proof (evolves_of_steps _ _ _ _ (steps_run_tasks env self fuel _) Et) as H1.
    assert (r ≠ None) as Hr.
    { eapply (run_tasks_raised env self fuel _ p); [|by eauto|exact Et].
      by apply elem_of_elements. }
    destruct r as [e|]; [clear Hr|done].
    apply bind_inv in E as [(w1' & w1'' & [[= ->] ->]%get_world_inv & E)
                           |[(? & [? ?]%get_world_inv & _)|[[? ?]%get_world_inv _]]];
      [|done..].
    apply bind_inv in E as [(r2 & w2 & Ec & E)|[(e2 & Ec & ->)|[Ec ->]]].
    + pose proof (evolves_of_steps _ _ _ _ (steps_cancel_builds env 0 _) Ec) as H2.
      apply cancel_builds_calls in Ec as [Hk Hcalls].
      assert (o = Raise (default e r2) ∧ w' = w2) as [-> ->].
      { destruct r2; unfold raise in E; by simplify_eq. }
      split_and!; [eauto| |].
      * by rewrite (ev_plugin_workspace _ _ H2), (ev_plugin_workspace _ _ H1).
      * intros _. rewrite Hk. apply Forall_forall.
        intros q' (j & Hj)%list_elem_of_lookup. apply (Hcalls j); [|done].
        apply lookup_lt_Some in Hj. unfold recorded in Hj.
        rewrite length_fmap in Hj. lia.
    + by apply cancel_builds_never_raises in Ec.
    + split_and!; [by left| |done].
      pose proof (evolves_of_steps _ _ _ _ (steps_cancel_builds env 0 _) Ec) as H2.
      by rewrite (ev_plugin_workspace _ _ H2), (ev_plugin_workspace _ _ H1).
  - by apply run_tasks_never_raises in Et.
  - split_and!; [by left| |done].
    pose proof (evolves_of_steps _ _ _ _ (steps_run_tasks env self fuel _) Et) as H1.
    apply H1.
Qed.

(** ** Dicts with keys of any type *)

Lemma py_key_eqb_str_l s k : py_key_eqb (PStr s) k = true ↔ k = PStr s.
Proof.
  destruct k as [| | |x| | |]; simpl; try (split; [done|congruence]).
  rewrite String.eqb_eq. split; congruence.
Qed.

Lemma py_key_eqb_str_r s k : py_key_eqb k (PStr s) = true ↔ k = PStr s.
Proof.
  destruct k as [| | |x| | |]; simpl; try (split; [done|congruence]).
  - destruct x; simpl; split; (done || congruence).
  - rewrite String.eqb_eq. split; congruence.
Qed.

Lemma pydict_get_set_str d k v s :
  pydict_get (pydict_set d k v) (PStr s) =
    if py_key_eqb k (PStr s) then Some v else pydict_get d (PStr s).
Proof.
  induction d as [|[k0 v0] d IH]; simpl; [done|].
  destruct (py_key_eqb k0 k) eqn:E0; simpl.
  - destruct (py_key_eqb k0 (PStr s)) eqn:E1.
    + apply py_key_eqb_str_r in E1 as ->. apply py_key_eqb_str_l in E0 as ->.
      by rewrite (proj2 (py_key_eqb_str_l s (PStr s))).
    + destruct (py_key_eqb k (PStr s)) eqn:E2; [|done].
      apply py_key_eqb_str_r in E2 as ->. apply py_key_eqb_str_r in E0 as ->.
      by rewrite (proj2 (py_key_eqb_str_l s (PStr s))) in E1.
  - rewrite IH. destruct (py_key_eqb k0 (PStr s)) eqn:E1; [|done].
    apply py_key_eqb_str_r in E1 as ->.
    destruct (py_key_eqb k (PStr s)) eqn:E2; [|done].
    apply py_key_eqb_str_r in E2 as ->.
    by rewrite (proj2 (py_key_eqb_str_l s (PStr s))) in E0.
Qed.

Lemma pydict_get_app d d' k :
  pydict_get (d ++ d') k =
    match pydict_get d k with
    | Some v => Some v
    | None => pydict_get d' k
    end.
Proof.
  induction d as [|[k0 v0] d IH]; simpl; [done|]. by destruct (py_key_eqb k0 k).
Qed.

(** Storing pairs one after the other leaves, under a string, the
    value of the last pair that has that string for its key. *)
Lemma pydict_get_store pairs d s :
  pydict_get (foldl (λ acc kv, pydict_set acc kv.1 kv.2) d pairs) (PStr s) =
    match pydict_get (reverse pairs) (PStr s) with
    | Some v => Some v
    | None => pydict_get d (PStr s)
    end.
Proof.
  revert d. induction pairs as [|[k v] pairs IH]; intros d; simpl; [done|].
  rewrite IH, reverse_cons, pydict_get_app, pydict_get_set_str. simpl.
  destruct (pydict_get (reverse pairs) (PStr s)); [done|].
  by destruct (py_key_eqb k (PStr s)).
Qed.

(** [d.update(other)] that raises nothing has stored the pairs of
    [other]. *)
Lemma merge_from_seq2_pairs items d i d' :
  merge_from_seq2 d i items = (d', None) →
  d' = foldl (λ acc kv, pydict_set acc kv.1 kv.2) d
         (omap (λ item, match py_iter item with
                        | Some [key; value] => Some (key, value)
                        | _ => None
                        end) items).
Proof.
  revert d i. induction items as [|item items IH]; intros d i; simpl.
  { by intros [= <-]. }
  destruct (py_iter item) as [[|key [|value [|]]]|]; try done.
  destruct (py_hashable key); [|done]. simpl. apply IH.
Qed.

Lemma py_dict_update_pairs d other d' :
  py_dict_update d other = (d', None) →
  d' = foldl (λ acc kv, pydict_set acc kv.1 kv.2) d (update_pairs other).
Proof.
  unfold py_dict_update, update_pairs.
  destruct other as [| | | | | |entries];
    try (simpl; destruct (py_iter _) eqn:Ei; simpl in *;
         [apply merge_from_seq2_pairs|done]);
    try done.
  - simpl. apply merge_from_seq2_pairs.
  - simpl. apply merge_from_seq2_pairs.
  - intros [= <-]. by rewrite foldl_fmap.
Qed.

(** [d.update(other)] raises nothing but [TypeError] and
    [ValueError], and nothing for a dict. *)
Lemma merge_from_seq2_raises items d i d' e :
  merge_from_seq2 d i items = (d', Some e) →
  (∃ msg, e = TypeError msg) ∨ (∃ msg, e = ValueError msg).
Proof.
  revert d i. induction items as [|item items IH]; intros d i; simpl; [done|].
  destruct (py_iter item) as [[|key [|value [|]]]|];
    try (intros [= _ <-]; eauto; fail).
  destruct (py_hashable key); [apply IH|]. intros [= _ <-]; eauto.
Qed.

Lemma py_dict_update_raises d other d' e :
  py_dict_update d other = (d', Some e) →
  ((∃ msg, e = TypeError msg) ∨ (∃ msg, e = ValueError msg)) ∧
  ∀ entries, other ≠ PDict entries.
Proof.
  unfold py_dict_update. intros E. split; [|by intros entries ->].
  destruct other; simpl in E; try (simplify_eq; eauto; fail);
    by eapply merge_from_seq2_raises.
Qed.

(** The failure reason before the build is looked at. *)
Lemma set_general_entry bi :
  set_general
    match monitor_message bi with
    | Some msg => pydict_set [] (PStr "general") (PStr msg)
    | None => []
    end bi = general_entry bi.
Proof.
  unfold set_general, monitor_message, general_entry.
  destruct (monitor_exception bi) as [[e|s]|]; simpl; [done| |done].
  by destruct (String.eqb s "").
Qed.

Lemma general_entry_monitor_exception bi e :
  monitor_exception bi = Some (MonException e) →
  general_entry bi = [(PStr "general", PStr (str_exn e))].
Proof. unfold general_entry. by intros ->. Qed.

(** The search for the pod of a build: what it returns and what it
    lets through. *)
Lemma get_pod_failure_reason_inv env bi b fr w o w' :
  get_pod_failure_reason env bi b fr w = (o, w') →
  match o with
  | Ret fail_reason =>
      fail_reason = fr ∨
      ∃ c pod reason,
        wb_cluster bi = Some c ∧
        osbs_get_pod_for_build env c (get_build_name b) (tick w) = inr pod ∧
        get_failure_reason pod = inr reason ∧
        fail_reason = pydict_set fr (PStr "pod") reason
  | Raise e =>
      swallowed_by_get_fail_reason e = false ∧
      ∃ c, wb_cluster bi = Some c ∧
        (osbs_get_pod_for_build env c (get_build_name b) (tick w) = inl e ∨
         ∃ pod,
           osbs_get_pod_for_build env c (get_build_name b) (tick w) = inr pod ∧
           get_failure_reason pod = inl e)
  | OutOfFuel => False
  end.
Proof.
  intros E.
  unfold get_pod_failure_reason, bind, try_, get_osbs, interact, emit, raise, pure
    in E. simpl in E.
  destruct (wb_cluster bi) as [c|]; simpl in E.
  2:{ simplify_eq. by left. }
  destruct (osbs_get_pod_for_build env c (get_build_name b) (tick w))
    as [e|[[e|reason]]] eqn:Hpod; simpl in E.
  - destruct e; simplify_eq; first [by left|split; [done|]; eauto].
  - destruct e; simplify_eq; first [by left|split; [done|]; eauto 7].
  - simplify_eq. right. eauto 8.
Qed.

(** [get_fail_reason], case by case. *)
Lemma get_fail_reason_cases env bi w o w' :
  get_fail_reason env bi w = (o, w') →
  match build bi with
  | None =>
      w' = w ∧
      o = Ret match general_entry bi with
              | [] => [(PStr "general", PStr "build not started")]
              | general => general
              end
  | Some b =>
      match default (MetaValue (PDict [])) (annotation_plugins_metadata b) with
      | MetaInvalid msg => w' = w ∧ o = Raise (ValueError msg)
      | MetaValue metadata =>
          match py_getitem metadata "errors" with
          | inr errors =>
              w' = w ∧
              match py_dict_update (general_entry bi) errors with
              | (fail_reason, None) => o = Ret fail_reason
              | (_, Some e) => o = Raise e
              end
          | inl (KeyError _) =>
              get_pod_failure_reason env bi b (general_entry bi) w = (o, w')
          | inl e => w' = w ∧ o = Raise e
          end
      end
  end.
Proof.
  unfold get_fail_reason. destruct (build bi) as [b|] eqn:Hb.
  2:{ intros E. apply pure_inv in E as [-> ->]. split; [done|]. f_equal.
      unfold monitor_message, general_entry.
      destruct (monitor_exception bi) as [[e|s]|]; simpl; [done| |done].
      by destruct (String.eqb s ""). }
  destruct (default _ (annotation_plugins_metadata b)) as [msg|metadata].
  { unfold raise. by intros [= <- <-]. }
  rewrite set_general_entry.
  destruct (py_getitem metadata "errors") as [e|errors].
  - destruct e; try (unfold raise; by intros [= <- <-]). done.
  - destruct (py_dict_update (general_entry bi) errors) as [fr [e|]] eqn:Eu.
    + pose proof (py_dict_update_raises _ _ _ _ Eu) as [[[msg ->]|[msg ->]] _];
        unfold raise; by intros [= <- <-].
    + intros E. by apply pure_inv in E as [-> ->].
Qed.

(** [get_fail_reason] has no loop to run out of fuel in. *)
Lemma get_fail_reason_terminates env bi w w' :
  get_fail_reason env bi w ≠ (OutOfFuel, w').
Proof.
  intros E. apply get_fail_reason_cases in E.
  destruct (build bi) as [b|]; [|by destruct E].
  destruct (default _ (annotation_plugins_metadata b)) as [msg|metadata];
    [by destruct E|].
  destruct (py_getitem metadata "errors") as [e|errors].
  - destruct e; try (by destruct E).
    by apply get_pod_failure_reason_inv in E.
  - destruct E as [_ E]. by destruct (py_dict_update _ _) as [? [?|]].
Qed.

(** The message of the monitor exception is what [get_fail_reason]
    returns under [general], unless the [errors] of the build have a
    value for that key, which then stands in its place. *)
Lemma get_fail_reason_general env bi w fail_reason w' e :
  get_fail_reason env bi w = (Ret fail_reason, w') →
  monitor_exception bi = Some (MonException e) →
  pydict_get fail_reason (PStr "general") =
    Some (default (PStr (str_exn e))
            (b ← build bi; errors_entry b "general")).
Proof.
  intros E He. apply get_fail_reason_cases in E.
  pose proof (general_entry_monitor_exception _ _ He) as Hg. rewrite Hg in E.
  destruct (build bi) as [b|] eqn:Hb; simpl.
  2:{ by destruct E as [_ [= ->]]. }
  unfold errors_entry, metadata_errors.
  destruct (default _ (annotation_plugins_metadata b)) as [msg|metadata];
    [by destruct E|].
  destruct (py_getitem metadata "errors") as [e'|errors].
  - destruct e'; try (by destruct E).
    apply get_pod_failure_reason_inv in E
      as [->|(c & pod & reason & _ & _ & _ & ->)]; by simpl.
  - destruct E as [_ E].
    destruct (py_dict_update _ errors) as [fr [e'|]] eqn:Eu; [done|].
    injection E as <-. apply py_dict_update_pairs in Eu as ->.
    rewrite pydict_get_store. simpl.
    by destruct (pydict_get (reverse (update_pairs errors)) (PStr "general")).
Qed.

Section Monitoring.
Context (env : Env) (self : Plugin).

Lemma log_lines_builds p lines w o w' :
  log_lines p lines w = (o, w') → o = Ret tt ∧ worker_builds w' = worker_builds w.
Proof.
  revert w. induction lines as [|l lines IH]; intros w E; simpl in E.
  { by apply pure_inv in E as [-> ->]. }
  unfold bind, emit in E. simpl in E. by apply IH in E.
Qed.

(** Monitoring that ends with an exception has replaced no build. *)
Lemma monitoring_raises_builds i w e w' :
  (watch_logs env i;; wait_to_finish env i) w = (Raise e, w') →
  worker_builds w' = worker_builds w.
Proof.
  assert (∀ w0 o0 w0', watch_logs env i w0 = (o0, w0') →
            worker_builds w0' = worker_builds w0) as Hwatch.
  { intros w0 o0 w0' E. unfold watch_logs, get_build_info in E.
    unfold bind at 1, bind at 1, get_world at 1 in E.
    destruct (worker_builds w0 !! i) as [bi|]; [|by inversion E].
    unfold pure at 1, get_osbs in E.
    destruct (wb_cluster bi) as [c|]; [|by inversion E].
    unfold bind at 1, pure at 1, bind at 1, interact at 1 in E.
    destruct (osbs_get_build_logs _ _ _ _) as [lines err].
    unfold bind at 1 in E.
    destruct (log_lines _ lines _) as [o1 w1] eqn:El.
    apply log_lines_builds in El as [-> Hb].
    destruct err; inversion E; by subst. }
  intros E.
  apply bind_inv in E as [(? & w1 & Ew & E)|[(? & Ew & _)|[? ?]]]; [| |done].
  - rewrite <-(Hwatch _ _ _ Ew).
    unfold wait_to_finish, get_build_info in E.
    unfold bind at 1, bind at 1, get_world at 1 in E.
    destruct (worker_builds w1 !! i) as [bi|]; [|by inversion E].
    unfold pure at 1, get_osbs in E.
    destruct (wb_cluster bi) as [c|]; [|by inversion E].
    unfold bind at 1, pure at 1, bind at 1, interact at 1 in E.
    unfold bind at 1, emit at 1 in E.
    destruct (osbs_wait_for_build_to_finish _ _ _ _); by inversion E.
  - by apply Hwatch in Ew.
Qed.

Lemma alter_last {A} (f : A → A) (l : list A) (x : A) :
  alter f (length l) (l ++ [x]) = l ++ [f x].
Proof. induction l as [|y l IH]; simpl; [done|]. by rewrite <-IH. Qed.

Lemma lookup_last {A} (l : list A) (x : A) : (l ++ [x]) !! length l = Some x.
Proof. by rewrite lookup_app_r, Nat.sub_diag. Qed.

(** C7 (amended).  When the build was created and watching its logs
    or waiting for it raises, [do_worker_build] records the exception
    as the [monitor_exception] of the build and calls [cancel_build]
    once, which asks the cluster to cancel the build unless it is
    finished; an [OsbsException] of that request is swallowed.  The
    task then ends where [do_worker_build] ends: no further selection
    round, load query or attempt follows.  The failure reason of the
    build, when [get_fail_reason] returns one, has the message of the
    exception under [general], unless the [errors] of the build's own
    [plugins-metadata] annotation, be they an object or a sequence of
    pairs, have a value for that key: then it is that value. *)
Theorem monitor_failure_is_terminal ci w b w1 e w3 :
  create_build env self ci w = (Ret b, w1) →
  let created :=
    {| build := Some b; wb_cluster := Some (cluster ci);
       wb_platform := platform ci; monitor_exception := None |} in
  (let! i := append_worker_build created in
   watch_logs env i;; wait_to_finish env i) w1 = (Raise e, w3) →
  let failed_build :=
    {| build := Some b; wb_cluster := Some (cluster ci);
       wb_platform := platform ci;
       monitor_exception := Some (MonException e) |} in
  let cancel :=
    if is_finished b then None
    else osbs_cancel_build env (cluster ci) (get_build_name b) (tick w3) in
  ∃ w',
    do_worker_build env self ci w = (after_cancel cancel, w') ∧
    worker_builds w' = worker_builds w1 ++ [failed_build] ∧
    trace w' =
      trace w3 ++
        EvCancelBuild (platform ci) ::
        (if is_finished b then []
         else [EvOsbsCancel (name (cluster ci)) (get_build_name b)]) ∧
    (∀ fail_reason w'',
       get_fail_reason env failed_build w' = (Ret fail_reason, w'') →
       pydict_get fail_reason (PStr "general") =
         Some (default (PStr (str_exn e)) (errors_entry b "general"))) ∧
    (∀ fuel p clusters ctxs0 w00 ctxs rest w0,
       get_clusters env self (S fuel) p ctxs0 clusters w00
         = (Ret (ctxs, ci :: rest), w0) →
       is_Some (ctxs !! name (cluster ci)) →
       emit (EvAttempt p (name (cluster ci))) w0 = (Ret tt, w) →
       select_loop env self (S fuel) p clusters ctxs0 w00
         = (after_cancel cancel, w')).
Proof.
  intros Hcreate created Hmon failed_build cancel. subst created.
  unfold bind at 1 in Hmon. simpl in Hmon.
  pose proof (monitoring_raises_builds _ _ _ _ Hmon) as Hb3. simpl in Hb3.
  assert (∃ w', do_worker_build env self ci w = (after_cancel cancel, w') ∧
            worker_builds w' = worker_builds w1 ++ [failed_build] ∧
            trace w' =
              trace w3 ++
                EvCancelBuild (platform ci) ::
                (if is_finished b then []
                 else [EvOsbsCancel (name (cluster ci)) (get_build_name b)]))
    as (w' & Hdo & Hbuilds & Htrace).
  { unfold do_worker_build, monitor_build, append_worker_build,
      set_monitor_exception, cancel_build, get_build_info, get_osbs, wb_name,
      bind, try_, pure, raise, get_world, set_worker_builds, emit, interact
      in Hmon |- *.
    rewrite Hcreate. simpl in Hmon |- *. rewrite Hmon. simpl. rewrite Hb3.
    rewrite alter_last, lookup_last. simpl.
    subst cancel. destruct (is_finished b); simpl.
    { eexists. split_and!; reflexivity. }
    destruct (osbs_cancel_build env (cluster ci) (get_build_name b) (tick w3))
      as [e'|]; simpl.
    - destruct e'; simpl; eexists; (split_and!; [reflexivity..|]);
        simpl; by rewrite <-(assoc (++)).
    - eexists. split_and!; [reflexivity..|]. simpl. by rewrite <-(assoc (++)). }
  exists w'. split_and!; [done..| |].
  - intros fail_reason w'' Hfr.
    by apply (get_fail_reason_general _ _ _ _ _ e) in Hfr.
  - intros fuel p clusters ctxs0 w00 ctxs rest w0 Hget [ctx Hctx] Hemit.
    cbn [select_loop]. unfold bind at 1, try_ at 1. rewrite Hget.
    cbn [start_on_clusters]. unfold bind at 1, bind at 1, lookup_context at 1.
    rewrite Hctx. unfold pure at 1. unfold bind at 1. rewrite Hemit.
    unfold bind at 1, try_ at 1. rewrite Hdo.
    subst cancel. clear. destruct (is_finished b); [done|].
    destruct (osbs_cancel_build _ _ _ _) as [e'|]; [|done].
    by destruct e'.
Qed.
End Monitoring.

(** C10 (amended).  [get_fail_reason] does not always return.  Without
    a build it returns the message of the monitor exception, or "build
    not started" when there is none, under [general].  With a build it
    raises [ValueError] when the [plugins-metadata] annotation is not
    JSON and [TypeError] when it decodes to something else than an
    object.  The [errors] of that object are stored as [dict.update]
    takes them, an object or a sequence of pairs, over the message of
    the monitor exception; when they are neither, [TypeError] or
    [ValueError] is raised.  When the object has no [errors], the
    pod of the build is asked for its failure reason, which goes under
    [pod]; [OsbsException] and [AttributeError] of that search are
    swallowed, any other exception of it is raised.  What is returned
    for a build with a monitor exception has the message of that
    exception under [general], unless the [errors] have a value for
    that key. *)
Theorem get_fail_reason_returns_or_propagates env bi w o w' :
  get_fail_reason env bi w = (o, w') →
  match build bi with
  | None =>
      w' = w ∧
      o = Ret match general_entry bi with
              | [] => [(PStr "general", PStr "build not started")]
              | general => general
              end
  | Some b =>
      match default (MetaValue (PDict [])) (annotation_plugins_metadata b) with
      | MetaInvalid msg => w' = w ∧ o = Raise (ValueError msg)
      | MetaValue metadata =>
          match py_getitem metadata "errors" with
          | inr errors =>
              w' = w ∧
              match py_dict_update (general_entry bi) errors with
              | (fail_reason, None) =>
                  o = Ret fail_reason ∧
                  fail_reason = foldl (λ d kv, pydict_set d kv.1 kv.2)
                                  (general_entry bi) (update_pairs errors)
              | (_, Some e) =>
                  o = Raise e ∧
                  ((∃ msg, e = TypeError msg) ∨ (∃ msg, e = ValueError msg)) ∧
                  ∀ entries, errors ≠ PDict entries
              end
          | inl (KeyError _) =>
              match o with
              | Ret fail_reason =>
                  fail_reason = general_entry bi ∨
                  ∃ c pod reason,
                    wb_cluster bi = Some c ∧
                    osbs_get_pod_for_build env c (get_build_name b) (tick w)
                      = inr pod ∧
                    get_failure_reason pod = inr reason ∧
                    fail_reason = pydict_set (general_entry bi) (PStr "pod") reason
              | Raise e =>
                  swallowed_by_get_fail_reason e = false ∧
                  ∃ c, wb_cluster bi = Some c ∧
                    (osbs_get_pod_for_build env c (get_build_name b) (tick w)
                       = inl e ∨
                     ∃ pod,
                       osbs_get_pod_for_build env c (get_build_name b) (tick w)
                         = inr pod ∧
                       get_failure_reason pod = inl e)
              | OutOfFuel => False
              end
          | inl e => w' = w ∧ o = Raise e ∧ ∃ msg, e = TypeError msg
          end
      end
  end ∧
  (∀ fail_reason e,
     o = Ret fail_reason → monitor_exception bi = Some (MonException e) →
     pydict_get fail_reason (PStr "general") =
       Some (default (PStr (str_exn e)) (b ← build bi; errors_entry b "general"))).
Proof.
  intros E. split.
  2:{ intros fail_reason e -> He. by eapply get_fail_reason_general. }
  apply get_fail_reason_cases in E.
  destruct (build bi) as [b|]; [|done].
  destruct (default _ (annotation_plugins_metadata b)) as [msg|metadata]; [done|].
  destruct (py_getitem metadata "errors") as [e|errors] eqn:Eg.
  - destruct e; try by apply get_pod_failure_reason_inv in E.
    all: destruct E as [-> ->]; split_and!; [done..|].
    all: destruct metadata as [| | | | | |entries]; simpl in Eg;
      try (injection Eg as <-; eauto; fail).
    all: by destruct (dict_get entries "errors").
  - destruct E as [-> E]. split; [done|].
    destruct (py_dict_update (general_entry bi) errors) as [fr [e|]] eqn:Eu.
    + split; [done|]. by eapply py_dict_update_raises.
    + split; [done|]. by apply py_dict_update_pairs.
Qed.

(** The failure reasons [run] collects: one entry per platform of a
    failed build, holding what [get_fail_reason] returned for a failed
    build of that platform; and an exception of [get_fail_reason] ends
    the collection. *)
Lemma get_fail_reasons_outcome env builds acc w o w' :
  get_fail_reasons env builds acc w = (o, w') →
  match o with
  | Ret fail_reasons =>
      (∀ p, p ∈ fail_reasons.*1 ↔
            p ∈ acc.*1 ∨ p ∈ wb_platform <$> filter build_failed builds) ∧
      (∀ p reason, (p, reason) ∈ fail_reasons →
         (p, reason) ∈ acc ∨
         ∃ bi wa wb, bi ∈ filter build_failed builds ∧ wb_platform bi = p ∧
                     get_fail_reason env bi wa = (Ret reason, wb))
  | Raise e =>
      ∃ bi wa wb, bi ∈ filter build_failed builds ∧
                  get_fail_reason env bi wa = (Raise e, wb)
  | OutOfFuel => False
  end.
Proof.
  revert acc w. induction builds as [|bi builds IH]; intros acc w E; simpl in E.
  { apply pure_inv in E as [-> ->]. split; [set_solver|]. by left. }
  destruct (build_failed bi) eqn:Hf.
  2:{ apply IH in E. rewrite filter_cons_False by (rewrite Hf; exact id). exact E. }
  rewrite filter_cons_True by (rewrite Hf; exact I).
  apply bind_inv in E as [(reason & w1 & Er & E)|[(e & Er & ->)|[Er ->]]].
  - apply IH in E. destruct o as [frs|e|]; [|..|done].
    + destruct E as [Hkeys Hvals]. split.
      * intros p. rewrite Hkeys, dict_set_keys. set_solver.
      * intros p r Hin. destruct (Hvals p r Hin) as [Hacc|(bi' & wa & wb & ? & ? & ?)].
        -- apply dict_set_elem_of in Hacc as [[= -> ->]|?]; [|by left].
           right. exists bi, w, w1. split_and!; [by left|done..].
        -- right. exists bi', wa, wb. split_and!; [by right|done..].
    + destruct E as (bi' & wa & wb & ? & ?). exists bi', wa, wb. split; [by right|done].
  - exists bi, w, w'. split; [by left|done].
  - by apply get_fail_reason_terminates in Er.
Qed.

(** X15.  Once every platform task has returned, [run] returns
    normally when no recorded build is failed (without build, or with a
    build that did not succeed).  When some build is failed, [run]
    raises: [PluginFailedException] carrying [json.dumps] of the
    mapping from each failed platform to what [get_fail_reason]
    returned for it, provided [get_fail_reason] returns for every
    failed build; otherwise the exception [get_fail_reason] raised. *)
Theorem run_fails_iff_some_build_failed env self fuel w w1 o w' :
  platforms self ≠ ∅ →
  run_tasks env self fuel (elements (platforms self)) w = (Ret None, w1) →
  run env self fuel w = (o, w') →
  let failed_builds := filter build_failed (worker_builds w1) in
  (failed_builds = [] → o = Ret tt) ∧
  (failed_builds ≠ [] →
     (∃ fail_reasons,
        o = Raise (PluginFailedException (json_dumps env fail_reasons)) ∧
        (∀ p, p ∈ fail_reasons.*1 ↔ p ∈ wb_platform <$> failed_builds) ∧
        (∀ p reason, (p, reason) ∈ fail_reasons →
           ∃ bi wa wb, bi ∈ failed_builds ∧ wb_platform bi = p ∧
                       get_fail_reason env bi wa = (Ret reason, wb))) ∨
     (∃ e bi wa wb,
        o = Raise e ∧ bi ∈ failed_builds ∧
        get_fail_reason env bi wa = (Raise e, wb))).
Proof.
  intros Hne Etasks E failed_builds. unfold run in E.
  destruct (elements (platforms self)) as [|q ps] eqn:Eel.
  { apply elements_empty_inv in Eel. set_solver. }
  unfold bind at 1 in E. rewrite Etasks in E.
  unfold bind at 1, get_world at 1 in E.
  apply bind_inv in E as [(frs & w2 & Ef & E)|[(e & Ef & ->)|[Ef ->]]];
    apply get_fail_reasons_outcome in Ef; [| |done].
  - destruct Ef as [Hkeys Hvals].
    assert (o = match frs with
                | [] => Ret tt
                | _ :: _ => Raise (PluginFailedException (json_dumps env frs))
                end) as ->.
    { unfold bind, publish_workspace, get_world, set_plugin_workspace in E.
      simpl in E. by destruct frs; inversion E. }
    fold failed_builds in Hkeys, Hvals. split.
    + intros Hnil. rewrite Hnil in Hkeys. destruct frs as [|[p r] frs]; [done|].
      specialize (Hkeys p). set_solver.
    + intros Hsome. left. exists frs. split_and!.
      * destruct frs as [|[p r] frs]; [|done].
        destruct failed_builds as [|bi l]; [done|].
        specialize (Hkeys (wb_platform bi)). set_solver.
      * intros p. rewrite Hkeys. set_solver.
      * intros p r Hin. destruct (Hvals p r Hin) as [?|?]; [set_solver|done].
  - fold failed_builds in Ef. destruct Ef as (bi & wa & wb & Hin & Hr). split.
    + intros Hnil. rewrite Hnil in Hin. set_solver.
    + intros _. right. by exists e, bi, wa, wb.
Qed.

(** * Further properties of the plugin *)

(** ** Keyword arguments of a worker build *)

Lemma pyval_is_str_true s v : pyval_is_str s v = true ↔ v = PStr s.
Proof.
  destruct v; simpl; try (split; [done|congruence]).
  rewrite String.eqb_eq. split; [by intros ->|congruence].
Qed.

Lemma filter_is_str_replicate s vs :
  filter (λ v, pyval_is_str s v) vs
    = replicate (length (filter (λ v, pyval_is_str s v) vs)) (PStr s).
Proof.
  induction vs as [|v vs IH]; [done|].
  destruct (pyval_is_str s v) eqn:E.
  - rewrite filter_cons_True by (simpl; by rewrite E).
    apply pyval_is_str_true in E as ->. simpl. f_equal. exact IH.
  - rewrite filter_cons_False by (simpl; rewrite E; exact id). exact IH.
Qed.

Lemma dict_set_same_keys {V} (d : dict V) k v :
  is_Some (dict_get d k) → (dict_set d k v).*1 = d.*1.
Proof.
  induction d as [|[k' v'] d IH]; simpl; [by intros [? ?]|].
  destruct (String.eqb k' k) eqn:E; [done|].
  intros H. rewrite !fmap_cons. f_equal. by apply IH.
Qed.

Lemma dict_set_set {V} (d : dict V) k v v' :
  dict_set (dict_set d k v) k v' = dict_set d k v'.
Proof.
  induction d as [|[k0 v0] d IH]; simpl; [by rewrite String.eqb_refl|].
  destruct (String.eqb k0 k) eqn:E; simpl; rewrite E; [done|]. by rewrite IH.
Qed.

Lemma dict_get_pop {V} (d : dict V) k k' :
  dict_get (dict_pop d k) k' = if String.eqb k k' then None else dict_get d k'.
Proof.
  unfold dict_pop, dict in *. induction d as [|[k0 v0] d IH];
    [simpl; by destruct (String.eqb k k')|].
  destruct (String.eqb k0 k) eqn:E0.
  - rewrite filter_cons_False by (simpl; rewrite E0; exact id).
    apply String.eqb_eq in E0 as ->.
    rewrite IH. simpl. by destruct (String.eqb k k').
  - rewrite filter_cons_True by (simpl; by rewrite E0). simpl. rewrite IH.
    destruct (String.eqb k0 k') eqn:E1; [|done].
    apply String.eqb_eq in E1 as ->. rewrite String.eqb_sym in E0. by rewrite E0.
Qed.

(** X2.  [_update_content_versions] touches nothing but the entry
    [content_versions] of the configuration it is given, and only its
    value: without that entry the configuration comes back as it is;
    otherwise what comes back has the same keys in the same order and,
    under [content_versions], the "v2" items of the old value and
    nothing else, at least one; filtering again changes nothing.  It
    raises [RuntimeError] exactly when the old value holds no "v2", and
    [TypeError] when it cannot be iterated. *)
Theorem update_content_versions_keeps_v2_only (d : dict pyval) (w : World) :
  ∃ o, _update_content_versions d w = (o, w) ∧
    match dict_get d "content_versions" with
    | None => o = Ret d
    | Some versions =>
        match py_iter versions with
        | None => ∃ msg, o = Raise (TypeError msg)
        | Some vs =>
            let n := length (filter (λ v, pyval_is_str "v2" v) vs) in
            if decide (n = 0%nat) then
              Forall (λ v, v ≠ PStr "v2") vs ∧
              o = Raise (RuntimeError "content_versions is empty")
            else
              ∃ d', o = Ret d' ∧
                d'.*1 = d.*1 ∧
                dict_get d' "content_versions"
                  = Some (PList (replicate n (PStr "v2"))) ∧
                (∀ k, k ≠ "content_versions" → dict_get d' k = dict_get d k) ∧
                _update_content_versions d' w = (Ret d', w)
        end
    end.
Proof.
  unfold _update_content_versions.
  destruct (dict_get d "content_versions") as [versions|] eqn:Ed; [|by eexists].
  destruct (py_iter versions) as [vs|] eqn:Ei; [|by eexists; split; [|eexists]].
  cbv zeta.
  pose proof (filter_is_str_replicate "v2" vs) as Hf.
  set (n := length (filter (λ v, pyval_is_str "v2" v) vs)) in *.
  assert (n = 0%nat → Forall (λ v, v ≠ PStr "v2") vs) as Hnone.
  { intros Hn. rewrite Hn in Hf. simpl in Hf.
    apply Forall_forall. intros v Hv ->.
    assert (PStr "v2" ∈ filter (λ v, pyval_is_str "v2" v) vs) as Hin
      by (apply list_elem_of_filter; split; [done|exact Hv]).
    rewrite Hf in Hin. by apply elem_of_nil in Hin. }
  rewrite Hf. clearbody n. clear Hf.
  destruct n as [|n']; simpl.
  - eexists. split; [done|]. split; [by apply Hnone|done].
  - eexists. split; [done|].
    exists (dict_set d "content_versions" (PList (PStr "v2" :: replicate n' (PStr "v2")))).
    split_and!.
    + done.
    + by apply dict_set_same_keys.
    + by rewrite dict_get_set.
    + intros k Hk. rewrite dict_get_set.
      destruct (String.eqb "content_versions" k) eqn:E; [|done].
      apply String.eqb_eq in E. congruence.
    + rewrite dict_get_set. simpl.
      rewrite filter_cons_True by done.
      assert (filter (λ v, pyval_is_str "v2" v) (replicate n' (PStr "v2"))
              = replicate n' (PStr "v2")) as ->.
      { clear. induction n' as [|m IH]; [done|]. simpl.
        rewrite filter_cons_True by done. by rewrite IH. }
      by rewrite dict_set_set.
Qed.

Lemma update_content_versions_inv (d : dict pyval) w o w' :
  _update_content_versions d w = (o, w') →
  w' = w ∧
  match o with
  | Ret d' => ∀ k, k ≠ "content_versions" → dict_get d' k = dict_get d k
  | Raise e => (∃ msg, e = TypeError msg) ∨ e = RuntimeError "content_versions is empty"
  | OutOfFuel => False
  end.
Proof.
  unfold _update_content_versions, pure, raise. intros E.
  repeat case_match; simplify_eq; (split; [done|]); eauto.
  intros k Hk. rewrite dict_get_set.
  destruct (String.eqb "content_versions" k) eqn:Ek; [|done].
  apply String.eqb_eq in Ek. congruence.
Qed.

(** X1.  The keyword arguments [get_worker_build_kwargs] makes for a
    worker build are [self.build_kwargs] without [architecture], with
    [release], [platform] and [koji_upload_dir] set to the arguments
    given, whatever [self.build_kwargs] has under these names.
    [filesystem_koji_task_id] is set to the task id only when that is
    an integer other than zero; for no task id, and for the task id 0,
    the entry of [self.build_kwargs], if any, stays.  With a reactor
    configuration that is not the default, [reactor_config_override] is
    that configuration with [openshift] set to the description of the
    worker cluster and without [worker_token_secrets]; the only errors
    are those of the filtering of [content_versions], and nothing is
    changed in any case. *)
Theorem get_worker_build_kwargs_entries
    self (release : pyval) p dir (task : option Z) (ws : pyval) w o w' :
  get_worker_build_kwargs self release p dir task ws w = (o, w') →
  w' = w ∧
  match o with
  | Ret kw =>
      kw !! "architecture" = None ∧
      kw !! "release" = Some release ∧
      kw !! "platform" = Some (PStr p) ∧
      kw !! "koji_upload_dir" = Some (PStr dir) ∧
      kw !! "filesystem_koji_task_id" =
        match task with
        | Some n =>
            if n =? 0 then build_kwargs w !! "filesystem_koji_task_id"
            else Some (PInt n)
        | None => build_kwargs w !! "filesystem_koji_task_id"
        end ∧
      (if is_default (reactor_config self) then
         kw !! "reactor_config_override"
           = build_kwargs w !! "reactor_config_override"
       else
         ∃ conf', kw !! "reactor_config_override" = Some (PDict conf') ∧
           dict_get conf' "openshift" = Some ws ∧
           dict_get conf' "worker_token_secrets" = None ∧
           ∀ k, k ∉ ["openshift"; "worker_token_secrets"; "content_versions"] →
                dict_get conf' k = dict_get (conf (reactor_config self)) k) ∧
      ∀ k, k ∉ ["architecture"; "release"; "platform"; "koji_upload_dir";
                "filesystem_koji_task_id"; "reactor_config_override"] →
           kw !! k = build_kwargs w !! k
  | Raise e =>
      is_default (reactor_config self) = false ∧
      ((∃ msg, e = TypeError msg) ∨ e = RuntimeError "content_versions is empty")
  | OutOfFuel => False
  end.
Proof.
  intros E. unfold get_worker_build_kwargs in E.
  apply bind_inv in E as [(w0 & w1 & [[= ->] ->]%get_world_inv & E)
                         |[(? & [? ?]%get_world_inv & _)|[[? ?]%get_world_inv _]]];
    [|done..].
  set (kw0 := <["koji_upload_dir" := PStr dir]>
                (<["platform" := PStr p]>
                   (<["release" := release]> (delete "architecture" (build_kwargs w)))))
    in E.
  set (kw1 := match task with
              | Some n => if n =? 0 then kw0 else <["filesystem_koji_task_id" := PInt n]> kw0
              | None => kw0
              end) in E.
  assert (kw1 !! "architecture" = None ∧
          kw1 !! "release" = Some release ∧
          kw1 !! "platform" = Some (PStr p) ∧
          kw1 !! "koji_upload_dir" = Some (PStr dir) ∧
          kw1 !! "filesystem_koji_task_id" =
            match task with
            | Some n =>
                if n =? 0 then build_kwargs w !! "filesystem_koji_task_id"
                else Some (PInt n)
            | None => build_kwargs w !! "filesystem_koji_task_id"
            end ∧
          kw1 !! "reactor_config_override"
            = build_kwargs w !! "reactor_config_override" ∧
          ∀ k, k ∉ ["architecture"; "release"; "platform"; "koji_upload_dir";
                    "filesystem_koji_task_id"; "reactor_config_override"] →
               kw1 !! k = build_kwargs w !! k) as (Ha & Hr & Hp & Hd & Ht & Ho & Hk).
  { unfold kw1, kw0. split_and!.
    - destruct task as [n|]; [destruct (n =? 0)|]; by simplify_map_eq.
    - destruct task as [n|]; [destruct (n =? 0)|]; by simplify_map_eq.
    - destruct task as [n|]; [destruct (n =? 0)|]; by simplify_map_eq.
    - destruct task as [n|]; [destruct (n =? 0)|]; by simplify_map_eq.
    - destruct task as [n|]; [destruct (n =? 0)|]; by simplify_map_eq.
    - destruct task as [n|]; [destruct (n =? 0)|]; by simplify_map_eq.
    - intros k Hnot. rewrite !not_elem_of_cons in Hnot.
      destruct Hnot as (? & ? & ? & ? & ? & ? & _).
      destruct task as [n|]; [destruct (n =? 0)|]; by simplify_map_eq. }
  clearbody kw1. clear kw0.
  destruct (is_default (reactor_config self)) eqn:Edef.
  - apply pure_inv in E as [-> ->]. split; [done|]. by split_and!.
  - apply bind_inv in E as [(conf' & w1 & Eu & E)|[(e & Eu & ->)|[Eu ->]]];
      apply update_content_versions_inv in Eu as [-> Hu]; [|done..].
    apply pure_inv in E as [-> ->]. split; [done|].
    split_and!; try by simplify_map_eq.
    + exists conf'. split_and!.
      * by simplify_map_eq.
      * rewrite Hu by done. rewrite dict_get_pop. simpl. by rewrite dict_get_set.
      * rewrite Hu by done. by rewrite dict_get_pop.
      * intros k Hnot. rewrite !not_elem_of_cons in Hnot.
        destruct Hnot as (H1 & H2 & H3 & _).
        rewrite Hu by done. rewrite dict_get_pop, dict_get_set.
        destruct (String.eqb "worker_token_secrets" k) eqn:E1;
          [apply String.eqb_eq in E1; congruence|].
        destruct (String.eqb "openshift" k) eqn:E2;
          [apply String.eqb_eq in E2; congruence|done].
    + intros k Hnot. rewrite <-Hk by done. rewrite !not_elem_of_cons in Hnot.
      destruct Hnot as (? & ? & ? & ? & ? & ? & _). by simplify_map_eq.
Qed.

(** ** Waiting for a cluster *)

Lemma foldr_min_spec {A} (f : A → Z) (x : A) (l : list A) :
  (∃ y, y ∈ x :: l ∧ f y = foldr (λ c, Z.min (f c)) (f x) l) ∧
  ∀ y, y ∈ x :: l → foldr (λ c, Z.min (f c)) (f x) l ≤ f y.
Proof.
  induction l as [|z l [(y & Hy & Ey) Hle]]; simpl.
  - split; [exists x; split; [left|done]|].
    intros y ->%list_elem_of_singleton. lia.
  - split.
    + destruct (Z.min_spec (f z) (foldr (λ c, Z.min (f c)) (f x) l))
        as [[_ ->]|[_ ->]].
      * exists z. split; [right; left|done].
      * exists y. split; [|done].
        apply elem_of_cons in Hy as [->|Hy]; [left|right; by right].
    + intros y' Hy'.
      assert (y' = z ∨ y' ∈ x :: l) as [->|Hin].
      { apply elem_of_cons in Hy' as [->|Hy']; [right; left|].
        apply elem_of_cons in Hy' as [->|Hy']; [by left|right; by right]. }
      * lia.
      * specialize (Hle _ Hin). lia.
Qed.

Lemma timedelta_seconds_bounds d :
  0 ≤ timedelta_seconds d < 86400 ∧
  timedelta_seconds d * 1000000 ≤ Z.max 0 d ∧
  (d < 1000000 → timedelta_seconds d = 0) ∧
  (0 ≤ d < 86400000000 → d - 1000000 < timedelta_seconds d * 1000000).
Proof.
  unfold timedelta_seconds.
  assert (0 ≤ Z.max 0 d) as Hm by lia.
  pose proof (Z.div_pos (Z.max 0 d) 1000000 Hm ltac:(lia)) as Hq.
  pose proof (Z.mod_pos_bound (Z.max 0 d / 1000000) 86400 ltac:(lia)) as Hb.
  pose proof (Z.mod_le (Z.max 0 d / 1000000) 86400 Hq ltac:(lia)) as Hle.
  pose proof (Z.mul_div_le (Z.max 0 d) 1000000 ltac:(lia)) as Hmul.
  split; [exact Hb|]. split; [|split].
  - revert Hle Hmul.
    generalize ((Z.max 0 d / 1000000) mod 86400) (Z.max 0 d / 1000000).
    intros r q ??. lia.
  - intros Hd. rewrite Z.div_small by lia. done.
  - intros Hd. rewrite Z.max_r by lia.
    rewrite Z.mod_small
      by (split; [apply Z.div_pos; lia|apply Z.div_lt_upper_bound; lia]).
    pose proof (Z.mod_pos_bound d 1000000 ltac:(lia)) as Hr.
    pose proof (Z.div_mod d 1000000 ltac:(lia)) as Hdm.
    revert Hr Hdm. generalize (d / 1000000) (d mod 1000000). intros q r ??. lia.
Qed.

(** X3.  With at least one cluster alive, [wait_for_any_cluster] does
    not raise: it reads the time once and sleeps once, for the whole
    seconds that remain until the earliest [retry_at] among the
    clusters alive, the dead ones not counting.  It does not sleep at
    all when that time has come or is less than a second away, it never
    sleeps beyond that time, and, [timedelta.seconds] leaving the days
    out, never for 86400 seconds or more. *)
Theorem wait_for_any_cluster_sleeps_until_earliest_retry
    env (ctxs : gmap string ClusterRetryContext) w n ctx :
  ctxs !! n = Some ctx → failed ctx = false →
  ∃ n0 ctx0 w',
    ctxs !! n0 = Some ctx0 ∧ failed ctx0 = false ∧
    (∀ n' ctx', ctxs !! n' = Some ctx' → failed ctx' = false →
                retry_at ctx0 ≤ retry_at ctx') ∧
    let t := clock w + Z.of_nat (elapsed env (tick w)) in
    let s := timedelta_seconds (retry_at ctx0 - t) in
    wait_for_any_cluster env ctxs w = (Ret tt, w') ∧
    trace w' = trace w ++ [EvSleep s] ∧
    clock w' = t + s * 1000000 + Z.of_nat (elapsed env (S (tick w))) ∧
    0 ≤ s < 86400 ∧
    t + s * 1000000 ≤ Z.max t (retry_at ctx0) ∧
    (retry_at ctx0 - t < 1000000 → s = 0).
Proof.
  intros Hctx Hlive. unfold wait_for_any_cluster.
  assert (∀ c, c ∈ filter (λ ctx, negb (failed ctx)) (map_to_list ctxs).*2 ↔
               ∃ k, ctxs !! k = Some c ∧ failed c = false) as Hmem.
  { intros c. rewrite list_elem_of_filter, list_elem_of_fmap. split.
    - intros [Hf ([k c'] & -> & Hin)]. exists k. simpl in *.
      apply elem_of_map_to_list in Hin. split; [done|].
      by destruct (failed c').
    - intros (k & Hk & Hf). split; [by rewrite Hf|].
      exists (k, c). split; [done|]. by apply elem_of_map_to_list. }
  destruct (filter (λ ctx, negb (failed ctx)) (map_to_list ctxs).*2)
    as [|c0 l] eqn:El.
  { exfalso. apply (elem_of_nil ctx). apply Hmem. eauto. }
  destruct (foldr_min_spec retry_at c0 l) as [(y & Hy & Ey) Hle].
  apply Hmem in Hy as (n0 & Hn0 & Hy).
  exists n0, y. eexists. split; [done|]. split; [done|]. split.
  { intros n' ctx' Hn' Hf'. rewrite Ey. apply Hle, Hmem. eauto. }
  rewrite <-Ey.
  set (t := clock w + Z.of_nat (elapsed env (tick w))).
  set (s := timedelta_seconds (retry_at y - t)).
  destruct (timedelta_seconds_bounds (retry_at y - t)) as (Hs & Hmul & Hz & _).
  fold s in Hs, Hmul, Hz.
  unfold now, sleep, bind, interact, get_world, pure, emit, advance_clock.
  simpl. fold t. fold s.
  destruct (s <? 0) eqn:Eneg; [lia|].
  split; [reflexivity|]. simpl. split; [done|]. split; [done|].
  split; [lia|]. split; [lia|done].
Qed.

(** ** Overriding keyword arguments *)

Lemma get_worker_build_kwargs_reads_build_kwargs self r p d t ws w1 w2 :
  build_kwargs w1 = build_kwargs w2 →
  (get_worker_build_kwargs self r p d t ws w1).1
    = (get_worker_build_kwargs self r p d t ws w2).1.
Proof.
  intros Hkw.
  unfold get_worker_build_kwargs, bind, get_world, _update_content_versions,
    pure, raise.
  rewrite Hkw. repeat case_match; simplify_eq/=; done.
Qed.

Lemma create_build_inv env self ci w o w' :
  create_build env self ci w = (o, w') →
  match (get_worker_build_kwargs self (release self) (platform ci)
           (koji_upload_dir self) (fs_task_id self)
           (worker_openshift env (cluster ci)) w).1 with
  | Ret base =>
      let kw := apply_overrides (default ∅ (plugin_workspace w ≫= override_kwargs))
                  (platform ci) base in
      trace w' = trace w ++ [EvCreate (name (cluster ci)) kw] ∧
      o = match osbs_create_worker_build env (cluster ci) kw (tick w) with
          | inl e => Raise e
          | inr b => Ret b
          end
  | Raise e => o = Raise e ∧ w' = w
  | OutOfFuel => o = OutOfFuel ∧ w' = w
  end.
Proof.
  intros E. unfold create_build, bind at 1, get_world in E.
  unfold bind at 1 in E.
  destruct (get_worker_build_kwargs _ _ _ _ _ _ w) as [o1 w1] eqn:Eb.
  pose proof (get_worker_build_kwargs_pure _ _ _ _ _ _ _ _ _ Eb) as ->.
  destruct o1 as [base|e|]; simpl; [|by simplify_eq..].
  unfold bind, interact, emit, raise, pure in E. simpl in E.
  destruct (osbs_create_worker_build _ _ _ _); by simplify_eq/=.
Qed.

Lemma apply_overrides_merged ov p base k :
  apply_overrides ov p base !! k = merged_lookup ov p base k.
Proof. apply apply_overrides_lookup. Qed.

Lemma override_build_kwarg_inv k v plat w :
  ∃ w1,
    override_build_kwarg k v plat w = (Ret tt, w1) ∧
    tick w1 = tick w ∧ clock w1 = clock w ∧ trace w1 = trace w ∧
    worker_builds w1 = worker_builds w ∧ build_kwargs w1 = build_kwargs w ∧
    plugin_workspace w1 ≫= ws_koji_upload_dir
      = plugin_workspace w ≫= ws_koji_upload_dir ∧
    plugin_workspace w1 ≫= ws_build_info = plugin_workspace w ≫= ws_build_info ∧
    ∃ ov1, plugin_workspace w1 ≫= override_kwargs = Some ov1 ∧
      let ov := default ∅ (plugin_workspace w ≫= override_kwargs) in
      ov1 = <[plat := <[k := v]> (default ∅ (ov !! plat))]> ov.
Proof.
  unfold override_build_kwarg, bind, get_world, set_plugin_workspace. simpl.
  eexists. split; [reflexivity|]. simpl.
  split_and!; try done; [by destruct (plugin_workspace w)..|].
  eexists. split; [reflexivity|]. by destruct (plugin_workspace w).
Qed.

(** X4.  [override_build_kwarg] always succeeds and changes nothing
    but the overrides of the workspace, and the next launch submits
    what it recorded: an override for a platform is submitted under its
    key by every launch on that platform and leaves the launches on the
    other platforms as they were; an override for all platforms is
    submitted by every launch on a platform that has no override of its
    own for that key.  The other keys are submitted as before. *)
Theorem override_build_kwarg_reaches_launch env self k v plat ci w :
  ∃ w1,
    override_build_kwarg k v plat w = (Ret tt, w1) ∧
    tick w1 = tick w ∧ clock w1 = clock w ∧ trace w1 = trace w ∧
    worker_builds w1 = worker_builds w ∧ build_kwargs w1 = build_kwargs w ∧
    ∀ base,
      get_worker_build_kwargs self (release self) (platform ci)
        (koji_upload_dir self) (fs_task_id self)
        (worker_openshift env (cluster ci)) w = (Ret base, w) →
      let ov := default ∅ (plugin_workspace w ≫= override_kwargs) in
      ∃ kw : kwargs,
        (∀ o w', create_build env self ci w1 = (o, w') →
           trace w' = trace w1 ++ [EvCreate (name (cluster ci)) kw] ∧
           o = match osbs_create_worker_build env (cluster ci) kw (tick w1) with
               | inl e => Raise e
               | inr b => Ret b
               end) ∧
        kw !! k =
          match plat with
          | Some q =>
              if decide (q = platform ci) then Some v
              else merged_lookup ov (platform ci) base k
          | None =>
              match ov !! Some (platform ci) ≫= (.!! k) with
              | Some v' => Some v'
              | None => Some v
              end
          end ∧
        ∀ k', k' ≠ k → kw !! k' = merged_lookup ov (platform ci) base k'.
Proof.
  destruct (override_build_kwarg_inv k v plat w)
    as (w1 & E & Ht & Hc & Htr & Hb & Hkw & _ & _ & ov1 & Hov1 & Hov).
  cbv zeta in Hov.
  exists w1. split_and!; try done.
  intros base Hbase ov. fold ov in Hov.
  pose proof (get_worker_build_kwargs_reads_build_kwargs self (release self)
                (platform ci) (koji_upload_dir self) (fs_task_id self)
                (worker_openshift env (cluster ci)) w1 w Hkw) as Hsame.
  rewrite Hbase in Hsame. simpl in Hsame.
  exists (apply_overrides ov1 (platform ci) base). split_and!.
  - intros o w' Ec. apply create_build_inv in Ec. rewrite Hsame in Ec.
    by rewrite Hov1 in Ec.
  - rewrite apply_overrides_lookup. subst ov1. unfold merged_lookup.
    destruct plat as [q|].
    + destruct (decide (q = platform ci)) as [->|Hq].
      * rewrite lookup_insert_eq. simpl. by rewrite lookup_insert_eq.
      * rewrite !lookup_insert_ne by congruence. done.
    + rewrite lookup_insert_ne by done. rewrite lookup_insert_eq. simpl.
      rewrite lookup_insert_eq. by destruct (ov !! Some (platform ci) ≫= _).
  - intros k' Hk'. rewrite apply_overrides_lookup. subst ov1.
    unfold merged_lookup.
    assert (∀ q, <[plat:=<[k:=v]> (default ∅ (ov !! plat))]> ov !! q ≫= (.!! k')
                 = ov !! q ≫= (.!! k')) as Hq.
    { intros q. destruct (decide (plat = q)) as [->|Hne].
      - rewrite lookup_insert_eq. simpl. rewrite lookup_insert_ne by done.
        destruct (ov !! q); done.
      - by rewrite lookup_insert_ne. }
    by rewrite !Hq.
Qed.

Lemma world_eq w1 w2 :
  tick w1 = tick w2 → clock w1 = clock w2 → trace w1 = trace w2 →
  worker_builds w1 = worker_builds w2 → build_kwargs w1 = build_kwargs w2 →
  plugin_workspace w1 = plugin_workspace w2 → w1 = w2.
Proof. destruct w1, w2. simpl. by intros -> -> -> -> -> ->. Qed.

(** X5.  What [override_build_kwarg] records can be read back, and
    only that changed: the override of the given platform and key is
    the new value, every other override is as before, and so are
    [koji_upload_dir] and [build_info].  Hence the last of two
    overrides of one platform and key wins, and overrides of different
    platforms or keys can be made in either order. *)
Theorem override_build_kwarg_last_wins k v plat w :
  (∃ w1, override_build_kwarg k v plat w = (Ret tt, w1) ∧
     override_of w1 plat k = Some v ∧
     (∀ plat' k', (plat', k') ≠ (plat, k) →
                  override_of w1 plat' k' = override_of w plat' k') ∧
     plugin_workspace w1 ≫= ws_koji_upload_dir
       = plugin_workspace w ≫= ws_koji_upload_dir ∧
     plugin_workspace w1 ≫= ws_build_info = plugin_workspace w ≫= ws_build_info) ∧
  (∀ v', (override_build_kwarg k v plat;; override_build_kwarg k v' plat) w
         = override_build_kwarg k v' plat w) ∧
  (∀ k' v' plat', (plat', k') ≠ (plat, k) →
     (override_build_kwarg k v plat;; override_build_kwarg k' v' plat') w
     = (override_build_kwarg k' v' plat';; override_build_kwarg k v plat) w).
Proof.
  split_and!.
  - destruct (override_build_kwarg_inv k v plat w)
      as (w1 & E & _ & _ & _ & _ & _ & Hd & Hb & ov1 & Hov1 & Hov).
    cbv zeta in Hov.
    exists w1. split_and!; try done.
    + unfold override_of. rewrite Hov1. simpl. rewrite Hov.
      rewrite lookup_insert_eq. simpl. by rewrite lookup_insert_eq.
    + intros plat' k' Hne. unfold override_of. rewrite Hov1. simpl. rewrite Hov.
      destruct (decide (plat = plat')) as [->|Hp].
      * rewrite lookup_insert_eq. simpl.
        rewrite lookup_insert_ne by congruence.
        destruct (plugin_workspace w ≫= override_kwargs) as [ov|]; simpl; [|done].
        by destruct (ov !! plat').
      * rewrite lookup_insert_ne by done.
        by destruct (plugin_workspace w ≫= override_kwargs).
  - intros v'. unfold override_build_kwarg, bind, get_world, set_plugin_workspace.
    simpl. f_equal. apply world_eq; simpl; try done.
    set (ov := default ∅ (default _ (plugin_workspace w)).(override_kwargs)).
    rewrite lookup_insert_eq. simpl. by rewrite !insert_insert_eq.
  - intros k' v' plat' Hne.
    unfold override_build_kwarg, bind, get_world, set_plugin_workspace.
    simpl. f_equal. apply world_eq; simpl; try done.
    set (ov := default ∅ (default _ (plugin_workspace w)).(override_kwargs)).
    do 3 f_equal. destruct (decide (plat = plat')) as [->|Hp].
    + assert (k ≠ k') as Hk by congruence.
      rewrite !lookup_insert_eq. simpl. rewrite !insert_insert_eq.
      f_equal. by apply insert_insert_ne.
    + rewrite !lookup_insert_ne by done.
      by apply insert_insert_ne.
Qed.

(** ** What [run] leaves in the workspace *)

Lemma get_fail_reason_builds env bi w o w' :
  get_fail_reason env bi w = (o, w') → worker_builds w' = worker_builds w.
Proof.
  unfold get_fail_reason, get_pod_failure_reason, bind, try_, get_osbs, interact,
    emit, raise, pure.
  intros E. repeat case_match; simplify_eq; done.
Qed.

Lemma get_fail_reasons_builds env builds acc w o w' :
  get_fail_reasons env builds acc w = (o, w') → worker_builds w' = worker_builds w.
Proof.
  revert acc w. induction builds as [|bi builds IH]; intros acc w E; simpl in E.
  { by apply pure_inv in E as [_ ->]. }
  destruct (build_failed bi); [|by eapply IH].
  apply bind_inv in E as [(reason & w1 & Er & E)|[(e & Er & ->)|[Er ->]]];
    apply get_fail_reason_builds in Er; [|done..].
  apply IH in E. congruence.
Qed.

(** The two ways [run] can end: without having touched the workspace,
    and then it raised; or after every task has returned and every
    failed build has been diagnosed, and then it has published. *)
Lemma run_inv env self fuel w o w' :
  run env self fuel w = (o, w') →
  (plugin_workspace w' = plugin_workspace w ∧ (o = OutOfFuel ∨ ∃ e, o = Raise e)) ∨
  (∃ w1 frs,
     run_tasks env self fuel (elements (platforms self)) w = (Ret None, w1) ∧
     worker_builds w' = worker_builds w1 ∧
     (∀ p, p ∈ frs.*1 ↔ p ∈ wb_platform <$> filter build_failed (worker_builds w1)) ∧
     plugin_workspace w' =
       Some {| override_kwargs := plugin_workspace w ≫= override_kwargs;
               ws_koji_upload_dir := Some (koji_upload_dir self);
               ws_build_info := Some (build_info_by_platform (worker_builds w')) |} ∧
     o = match frs with
         | [] => Ret tt
         | _ :: _ => Raise (PluginFailedException (json_dumps env frs))
         end).
Proof.
  intros E. unfold run in E.
  destruct (elements (platforms self)) as [|q ps] eqn:Eel.
  { unfold raise in E. simplify_eq. left. eauto. }
  rewrite <-Eel in E |- *. clear Eel.
  apply bind_inv in E as [(r & w1 & Et & E)|[(e & Et & ->)|[Et ->]]].
  - pose proof (evolves_of_steps _ _ _ _ (steps_run_tasks env self fuel _) Et) as H1.
    destruct r as [e|].
    + left.
      apply bind_inv in E as [(w1' & w1'' & [[= ->] ->]%get_world_inv & E)
                             |[(? & [? ?]%get_world_inv & _)|[[? ?]%get_world_inv _]]];
        [|done..].
      assert (evolves w1 w') as H2.
      { eapply evolves_of_steps; [|exact E].
        apply steps_bind; [apply steps_cancel_builds|].
        intros [?|]; apply steps_raise. }
      split; [by rewrite (ev_plugin_workspace _ _ H2), (ev_plugin_workspace _ _ H1)|].
      apply bind_inv in E as [(r2 & w2 & _ & E)|[(e2 & _ & ->)|[_ ->]]]; eauto.
      destruct r2; unfold raise in E; simplify_eq; eauto.
    + apply bind_inv in E as [(w1' & w1'' & [[= ->] ->]%get_world_inv & E)
                             |[(? & [? ?]%get_world_inv & _)|[[? ?]%get_world_inv _]]];
        [|done..].
      apply bind_inv in E as [(frs & w2 & Ef & E)|[(e & Ef & ->)|[Ef ->]]].
      * right. exists w1, frs.
        pose proof (evolves_of_steps _ _ _ _ (steps_get_fail_reasons env _ _) Ef) as H2.
        pose proof (get_fail_reasons_builds _ _ _ _ _ _ Ef) as Hb.
        apply get_fail_reasons_outcome in Ef as [Hkeys _].
        unfold bind, publish_workspace, get_world, set_plugin_workspace in E.
        simpl in E.
        rewrite (ev_plugin_workspace _ _ H2), (ev_plugin_workspace _ _ H1) in E.
        split; [done|].
        assert (w' = {| tick := tick w2; clock := clock w2; trace := trace w2;
                        worker_builds := worker_builds w2;
                        build_kwargs := build_kwargs w2;
                        plugin_workspace :=
                          Some {| override_kwargs := plugin_workspace w ≫= override_kwargs;
                                  ws_koji_upload_dir := Some (koji_upload_dir self);
                                  ws_build_info :=
                                    Some (build_info_by_platform (worker_builds w2)) |} |}
                ∧ o = match frs with
                      | [] => Ret tt
                      | _ :: _ => Raise (PluginFailedException (json_dumps env frs))
                      end) as [-> ->].
        { destruct frs; unfold pure, raise in E; by simplify_eq. }
        simpl. split_and!; try done. intros p. rewrite Hkeys. set_solver.
      * left.
        pose proof (evolves_of_steps _ _ _ _ (steps_get_fail_reasons env _ _) Ef) as H2.
        split; [by rewrite (ev_plugin_workspace _ _ H2), (ev_plugin_workspace _ _ H1)|].
        eauto.
      * left.
        pose proof (evolves_of_steps _ _ _ _ (steps_get_fail_reasons env _ _) Ef) as H2.
        split; [by rewrite (ev_plugin_workspace _ _ H2), (ev_plugin_workspace _ _ H1)|].
        eauto.
  - left.
    pose proof (evolves_of_steps _ _ _ _ (steps_run_tasks env self fuel _) Et) as H1.
    split; [by rewrite (ev_plugin_workspace _ _ H1)|]. eauto.
  - left.
    pose proof (evolves_of_steps _ _ _ _ (steps_run_tasks env self fuel _) Et) as H1.
    split; [by rewrite (ev_plugin_workspace _ _ H1)|]. eauto.
Qed.

Lemma dict_get_by_key {A} (f : A → string) (l : list A) k :
  match dict_get ((λ x, (f x, x)) <$> l) k with
  | Some x => x ∈ l ∧ f x = k
  | None => k ∉ f <$> l
  end.
Proof.
  induction l as [|x l IH]; simpl; [apply not_elem_of_nil|].
  destruct (String.eqb_spec (f x) k) as [Hk|Hk].
  - split; [left|done].
  - destruct (dict_get _ k) as [y|].
    + destruct IH. split; [by right|done].
    + rewrite not_elem_of_cons. done.
Qed.

(** X6.  After a [run] that returned, the other plugins find what they
    look for: [get_koji_upload_dir] gives the upload directory of the
    plugin, and [get_worker_build_info] gives, for every platform that
    was requested, the build recorded for that platform, which has a
    build that succeeded; for any other platform it raises [KeyError]. *)
Theorem published_builds_can_be_read_back env self key fuel w w' :
  worker_builds w = [] →
  run env self fuel w = (Ret tt, w') →
  get_koji_upload_dir key w' = (Ret (koji_upload_dir self), w') ∧
  ∀ p,
    if decide (p ∈ platforms self) then
      ∃ bi b,
        get_worker_build_info key p w' = (Ret bi, w') ∧
        wb_platform bi = p ∧ bi ∈ worker_builds w' ∧
        build bi = Some b ∧ is_succeeded b = true
    else get_worker_build_info key p w' = (Raise (KeyError p), w').
Proof.
  intros Hw E.
  apply run_inv in E as [[_ [?|[? ?]]]|(w1 & frs & Et & Hb & Hkeys & Hws & Ho)];
    [done..|].
  destruct frs as [|fr frs]; [|done]. clear Ho.
  pose proof (run_tasks_records _ _ _ _ _ _ Et) as Hrec.
  unfold recorded at 2 in Hrec. rewrite Hw in Hrec. simpl in Hrec.
  unfold recorded in Hrec. rewrite <-Hb in Hrec.
  assert (NoDup (wb_platform <$> worker_builds w')) as Hnd
    by (rewrite Hrec; apply NoDup_elements).
  rewrite build_info_by_platform_NoDup in Hws by done.
  split.
  { unfold get_koji_upload_dir, lookup_workspace, bind, get_world. simpl.
    by rewrite Hws. }
  intros p.
  unfold get_worker_build_info, lookup_workspace, bind, get_world. simpl.
  rewrite Hws. simpl.
  pose proof (dict_get_by_key wb_platform (worker_builds w') p) as Hget.
  destruct (dict_get _ p) as [bi|].
  - destruct Hget as [Hin Hp].
    rewrite decide_True
      by (apply elem_of_elements; rewrite <-Hrec, <-Hp; by apply list_elem_of_fmap_2).
    assert (build_failed bi = false) as Hok.
    { destruct (build_failed bi) eqn:Hf; [|done]. exfalso.
      apply (not_elem_of_nil (wb_platform bi)), Hkeys.
      apply list_elem_of_fmap_2, list_elem_of_filter. rewrite Hf, <-Hb. done. }
    unfold build_failed in Hok. destruct (build bi) as [b|] eqn:Ebi; [|done].
    exists bi, b. split_and!; try done. by destruct (is_succeeded b).
  - rewrite decide_False; [done|].
    rewrite <-elem_of_elements, <-Hrec. exact Hget.
Qed.

(** X7.  [run] publishes all or nothing.  Either it leaves the
    workspace exactly as it found it, and then it has not returned: it
    raised; or it has set [koji_upload_dir] to the upload directory of
    the plugin and [build_info] to the builds recorded, by platform,
    has kept the overrides, and then it returns or raises
    [PluginFailedException] with the failure reasons. *)
Theorem run_publishes_all_or_nothing env self fuel w o w' :
  run env self fuel w = (o, w') →
  (plugin_workspace w' = plugin_workspace w ∧ o ≠ Ret tt) ∨
  (plugin_workspace w' =
     Some {| override_kwargs := plugin_workspace w ≫= override_kwargs;
             ws_koji_upload_dir := Some (koji_upload_dir self);
             ws_build_info := Some (build_info_by_platform (worker_builds w')) |} ∧
   (o = Ret tt ∨
    ∃ frs, frs ≠ [] ∧ o = Raise (PluginFailedException (json_dumps env frs)))).
Proof.
  intros E.
  apply run_inv in E as [[Hws Ho]|(w1 & frs & _ & _ & _ & Hws & ->)].
  - left. split; [done|]. by destruct Ho as [->|[e ->]].
  - right. split; [done|]. destruct frs as [|fr frs]; [by left|].
    right. by exists (fr :: frs).
Qed.

(** ** The exceptions of a platform task *)

Lemma raises_only_pure P {A} (a : A) : raises_only P (pure a).
Proof. intros w o w' E. by apply pure_inv in E as [-> _]. Qed.

Lemma raises_only_raise (P : exn → Prop) {A} e : P e → raises_only P (@raise A e).
Proof. intros He w o w' E. unfold raise in E. by simplify_eq. Qed.

Lemma raises_only_out_of_fuel P {A} : raises_only P (@out_of_fuel A).
Proof. intros w o w' E. unfold out_of_fuel in E. by simplify_eq. Qed.

Lemma raises_only_bind P {A B} (m : M A) (f : A → M B) :
  raises_only P m → (∀ a, raises_only P (f a)) → raises_only P (bind m f).
Proof.
  intros Hm Hf w o w' E.
  apply bind_inv in E as [(a & w1 & _ & E)|[(e & E & ->)|[_ ->]]]; [|by apply Hm in E|done].
  by apply Hf in E.
Qed.

Lemma raises_only_try P {A} (m : M A) : raises_only P (try_ m).
Proof.
  intros w o w' E. unfold try_ in E.
  destruct (m w) as [[a|e|] w1]; by simplify_eq.
Qed.

Lemma raises_only_total P {A} (m : M A) :
  (∀ w, ∃ a w', m w = (Ret a, w')) → raises_only P m.
Proof.
  intros Hm w o w' E. destruct (Hm w) as (a & w1 & Ea).
  rewrite Ea in E. by simplify_eq.
Qed.

Lemma raises_only_now P env : raises_only P (now env).
Proof. apply raises_only_total. intros w. by eexists _, _. Qed.

Lemma raises_only_emit P ev : raises_only P (emit ev).
Proof. apply raises_only_total. intros w. by eexists _, _. Qed.

Lemma raises_only_in_retry_wait P env ctx : raises_only P (in_retry_wait env ctx).
Proof. apply raises_only_total. intros w. by eexists _, _. Qed.

Lemma raises_only_try_again_later P env s ctx :
  raises_only P (try_again_later env s ctx).
Proof.
  apply raises_only_total. intros w. unfold try_again_later.
  destruct (failed ctx); by eexists _, _.
Qed.

Lemma raises_only_append_worker_build P bi : raises_only P (append_worker_build bi).
Proof. apply raises_only_total. intros w. by eexists _, _. Qed.

Lemma not_osbs_lookup_context ctxs c : raises_only not_osbs (lookup_context ctxs c).
Proof.
  unfold lookup_context. destruct (ctxs !! name c);
    [apply raises_only_pure|by apply raises_only_raise].
Qed.

Lemma not_osbs_wait_for_any_cluster env ctxs :
  raises_only not_osbs (wait_for_any_cluster env ctxs).
Proof.
  unfold wait_for_any_cluster. destruct (filter _ _); [by apply raises_only_raise|].
  apply raises_only_bind; [apply raises_only_now|]. intros t.
  unfold sleep. destruct (_ <? 0); [by apply raises_only_raise|].
  apply raises_only_total. intros w. by eexists _, _.
Qed.

Create HintDb raises_only.
#[local] Hint Resolve raises_only_pure raises_only_out_of_fuel raises_only_try
  raises_only_now raises_only_emit raises_only_in_retry_wait
  raises_only_try_again_later raises_only_append_worker_build
  not_osbs_lookup_context not_osbs_wait_for_any_cluster : raises_only.

Lemma not_osbs_query_clusters env self cs p ctxs possible :
  raises_only not_osbs (query_clusters env self cs p ctxs possible).
Proof.
  revert ctxs possible. induction cs as [|c cs IH]; intros ctxs possible; simpl;
    [apply raises_only_pure|].
  apply raises_only_bind; [auto with raises_only|]. intros ctx.
  apply raises_only_bind; [auto with raises_only|]. intros [|]; [apply IH|].
  destruct (failed ctx); [apply IH|].
  apply raises_only_bind; [auto with raises_only|]. intros [e|ci]; [|apply IH].
  destruct e; try by apply raises_only_raise.
  apply raises_only_bind; [auto with raises_only|]. intros ctx'. apply IH.
Qed.

Lemma not_osbs_drop_failed ctxs cs : raises_only not_osbs (drop_failed ctxs cs).
Proof.
  induction cs as [|c cs IH]; simpl; [apply raises_only_pure|].
  apply raises_only_bind; [auto with raises_only|]. intros ctx.
  apply raises_only_bind; [exact IH|]. intros rest. apply raises_only_pure.
Qed.

Lemma not_osbs_get_clusters_loop env self fuel p ctxs cs :
  raises_only not_osbs (get_clusters_loop env self fuel p ctxs cs).
Proof.
  revert ctxs cs. induction fuel as [|fuel IH]; intros ctxs [|c cs];
    cbn [get_clusters_loop]; auto with raises_only.
  apply raises_only_bind; [auto with raises_only|]. intros _.
  apply raises_only_bind; [apply not_osbs_query_clusters|]. intros [ctxs1 possible].
  apply raises_only_bind; [apply not_osbs_drop_failed|]. intros cs1.
  destruct possible; [apply IH|apply raises_only_pure].
Qed.

Lemma not_osbs_get_clusters env self fuel p ctxs cs :
  raises_only not_osbs (get_clusters env self fuel p ctxs cs).
Proof.
  unfold get_clusters.
  apply raises_only_bind; [apply not_osbs_get_clusters_loop|].
  intros [ctxs1 possible]. apply raises_only_pure.
Qed.

Lemma not_osbs_start_on_clusters env self p infos ctxs :
  raises_only not_osbs (start_on_clusters env self p infos ctxs).
Proof.
  revert ctxs. induction infos as [|ci infos IH]; intros ctxs; simpl;
    [apply raises_only_pure|].
  apply raises_only_bind; [auto with raises_only|]. intros ctx.
  apply raises_only_bind; [auto with raises_only|]. intros _.
  apply raises_only_bind; [auto with raises_only|]. intros [e|[]];
    [|apply raises_only_pure].
  destruct e; try by apply raises_only_raise.
  apply raises_only_bind; [auto with raises_only|]. intros ctx'. apply IH.
Qed.

Lemma not_osbs_select_loop env self fuel p clusters ctxs :
  raises_only not_osbs (select_loop env self fuel p clusters ctxs).
Proof.
  revert ctxs. induction fuel as [|fuel IH]; intros ctxs; simpl;
    [apply raises_only_out_of_fuel|].
  intros w o w' E.
  apply bind_inv in E as [(r & w1 & Er & E)|[(e & Er & ->)|[_ ->]]];
    [|by apply (raises_only_try not_osbs) in Er|done].
  apply try_inv in Er as [([ctxs1 infos] & -> & Eg)|(e & -> & Eg)].
  - revert E. apply raises_only_bind; [apply not_osbs_start_on_clusters|].
    intros [[|] ctxs2]; [apply raises_only_pure|apply IH].
  - apply not_osbs_get_clusters in Eg. simpl in Eg.
    destruct e; try (unfold raise in E; by simplify_eq); try done.
    revert E. apply raises_only_bind; [auto with raises_only|].
    intros _. apply raises_only_pure.
Qed.

Lemma not_osbs_select_and_start_cluster env self fuel p :
  raises_only not_osbs (select_and_start_cluster env self fuel p).
Proof.
  unfold select_and_start_cluster.
  destruct (get_enabled_clusters_for_platform _ p);
    [by apply raises_only_raise|apply not_osbs_select_loop].
Qed.

(** X8.  An [OsbsException] never leaves a platform task: neither the
    ranking of the clusters nor the task as a whole raises one,
    whatever the sessions do, since a failed load query and a failed
    creation of the build are turned into retries.  So the exception
    the pool reports for the tasks, if any, is no [OsbsException]
    either. *)
Theorem platform_task_never_raises_OsbsException env self fuel p :
  (∀ ctxs clusters w o w',
     get_clusters env self fuel p ctxs clusters w = (o, w') →
     ∀ msg, o ≠ Raise (OsbsException msg)) ∧
  (∀ w o w',
     select_and_start_cluster env self fuel p w = (o, w') →
     ∀ msg, o ≠ Raise (OsbsException msg)) ∧
  (∀ ps w r w',
     run_tasks env self fuel ps w = (Ret r, w') →
     ∀ msg, r ≠ Some (OsbsException msg)).
Proof.
  split_and!.
  - intros ctxs clusters w o w' E msg ->.
    by apply not_osbs_get_clusters in E.
  - intros w o w' E msg ->. by apply not_osbs_select_and_start_cluster in E.
  - induction ps as [|q ps IH]; intros w r w' E msg ->; simpl in E.
    { by apply pure_inv in E as [? _]. }
    apply bind_Ret_inv in E as (r1 & w1 & Er & E).
    apply bind_Ret_inv in E as (r2 & w2 & Egs & E).
    apply pure_inv in E as [[= Hr] _].
    apply try_inv in Er as [([] & -> & _)|(e & -> & Et)].
    + subst r2. by eapply IH.
    + simplify_eq. by apply not_osbs_select_and_start_cluster in Et.
Qed.

(** ** A worker build that goes well *)

Lemma log_lines_run p lines w :
  log_lines p lines w
    = (Ret tt, {| tick := tick w; clock := clock w;
                  trace := trace w ++ (EvLogLine p <$> lines);
                  worker_builds := worker_builds w; build_kwargs := build_kwargs w;
                  plugin_workspace := plugin_workspace w |}).
Proof.
  revert w. induction lines as [|l lines IH]; intros w; simpl.
  { unfold pure. f_equal. apply world_eq; simpl; try done. by rewrite app_nil_r. }
  unfold bind, emit. simpl. rewrite IH. simpl. f_equal.
  apply world_eq; simpl; try done. by rewrite <-(assoc (++)).
Qed.

(** X9.  When the build is created, its logs end without error and
    the wait for it returns, [do_worker_build] returns having recorded
    one [WorkerBuildInfo] whose build is the response of the wait, not
    that of the creation, and which has no [monitor_exception]; every
    log line was relayed, in order, under the platform of the build,
    before the wait began, and [cancel_build] was not called. *)
Theorem do_worker_build_records_the_finished_build
    env self ci w b w1 (lines : list string) b' :
  create_build env self ci w = (Ret b, w1) →
  osbs_get_build_logs env (cluster ci) (get_build_name b) (tick w1) = (lines, None) →
  osbs_wait_for_build_to_finish env (cluster ci) (get_build_name b) (S (tick w1))
    = inr b' →
  ∃ w',
    do_worker_build env self ci w = (Ret tt, w') ∧
    worker_builds w' =
      worker_builds w1 ++
        [{| build := Some b'; wb_cluster := Some (cluster ci);
            wb_platform := platform ci; monitor_exception := None |}] ∧
    trace w' =
      trace w1 ++ (EvLogLine (platform ci) <$> lines) ++
        [EvWaitToFinish (name (cluster ci)) (get_build_name b)] ∧
    tick w' = S (S (tick w1)).
Proof.
  intros Hcreate Hlogs Hwait.
  unfold do_worker_build, monitor_build, append_worker_build, watch_logs,
    wait_to_finish, set_build, get_build_info, get_osbs, wb_name,
    bind, try_, pure, raise, get_world, set_worker_builds, emit, interact.
  rewrite Hcreate. simpl. rewrite lookup_last. simpl. rewrite Hlogs.
  rewrite log_lines_run. simpl. rewrite lookup_last. simpl. rewrite Hwait.
  simpl. rewrite alter_last. simpl.
  eexists. split_and!; [reflexivity..| |reflexivity].
  simpl. by rewrite <-(assoc (++)).
Qed.

(** ** The image of the running build *)

Lemma py_getitem_inr x k v :
  py_getitem x k = inr v ↔ ∃ entries, x = PDict entries ∧ dict_get entries k = Some v.
Proof.
  split.
  - destruct x; simpl; try done. destruct (dict_get entries k) eqn:E; [|done].
    intros [= ->]. eauto.
  - intros (entries & -> & E). simpl. by rewrite E.
Qed.

Lemma py_getitem_error x k e :
  py_getitem x k = inl e → e = KeyError k ∨ ∃ msg, e = TypeError msg.
Proof.
  destruct x; simpl; try (intros [= <-]; eauto).
  destruct (dict_get entries k); [done|]. intros [= <-]. eauto.
Qed.

Lemma py_getpath_error x ks e :
  py_getpath x ks = inl e → (∃ k, e = KeyError k) ∨ ∃ msg, e = TypeError msg.
Proof.
  revert x. induction ks as [|k ks IH]; intros x; simpl; [done|].
  destruct (py_getitem x k) as [e'|y] eqn:E; [|apply IH].
  intros [= <-]. apply py_getitem_error in E as [->|?]; eauto.
Qed.

(** X10.  [get_current_buildimage] returns the [name] found under
    [spec.strategy.customStrategy.from] of the build, and it returns
    exactly when that path leads through objects to a [from] that has
    a [name] and whose [kind] is the string "DockerImage".  It never
    raises [KeyError]: a missing key gives [RuntimeError], as does
    another kind; what is not an object on the path gives [TypeError],
    and so does a build without [spec]. *)
Theorem get_current_buildimage_wants_a_DockerImage
    (py_str : pyval → string) (build_json : dict pyval) :
  (∀ n, get_current_buildimage py_str build_json = inr n ↔
        ∃ spec strategy custom from_,
          dict_get build_json "spec" = Some (PDict spec) ∧
          dict_get spec "strategy" = Some (PDict strategy) ∧
          dict_get strategy "customStrategy" = Some (PDict custom) ∧
          dict_get custom "from" = Some (PDict from_) ∧
          dict_get from_ "name" = Some n ∧
          dict_get from_ "kind" = Some (PStr "DockerImage")) ∧
  (∀ e, get_current_buildimage py_str build_json = inl e →
        (∃ msg, e = RuntimeError msg) ∨ (∃ msg, e = TypeError msg)) ∧
  (dict_get build_json "spec" = None →
   ∃ msg, get_current_buildimage py_str build_json = inl (TypeError msg)).
Proof.
  split_and!.
  - intros n. unfold get_current_buildimage. split.
    + destruct (py_getpath _ ["strategy"; "customStrategy"; "from"; "name"])
        as [e|build_name] eqn:En; [by destruct e|].
      destruct (py_getpath _ ["strategy"; "customStrategy"; "from"; "kind"])
        as [e|build_kind] eqn:Ek; [by destruct e|].
      destruct (pyval_is_str "DockerImage" build_kind) eqn:Ed; [|done].
      intros [= ->]. apply pyval_is_str_true in Ed as ->.
      simpl in En, Ek.
      destruct (py_getitem _ "strategy") as [|strategy] eqn:E1; [done|].
      destruct (py_getitem strategy "customStrategy") as [|custom] eqn:E2; [done|].
      destruct (py_getitem custom "from") as [|from_] eqn:E3; [done|].
      destruct (py_getitem from_ "name") as [|n'] eqn:E4; [done|].
      destruct (py_getitem from_ "kind") as [|k'] eqn:E5; [done|].
      simplify_eq.
      apply py_getitem_inr in E1 as (spec & Hspec & E1).
      apply py_getitem_inr in E2 as (strategy' & -> & E2).
      apply py_getitem_inr in E3 as (custom' & -> & E3).
      apply py_getitem_inr in E4 as (from' & -> & E4).
      apply py_getitem_inr in E5 as (from'' & [= <-] & E5).
      exists spec, strategy', custom', from'. split_and!; try done.
      destruct (dict_get build_json "spec") as [s|]; simpl in Hspec; by subst.
    + intros (spec & strategy & custom & from_ & H0 & H1 & H2 & H3 & H4 & H5).
      rewrite H0. simpl. rewrite H1. simpl. rewrite H2. simpl. rewrite H3. simpl.
      rewrite H4, H5. simpl. done.
  - intros e. unfold get_current_buildimage.
    destruct (py_getpath _ ["strategy"; "customStrategy"; "from"; "name"])
      as [e1|build_name] eqn:En.
    { apply py_getpath_error in En as [[k ->]|[msg ->]]; intros [= <-]; eauto. }
    destruct (py_getpath _ ["strategy"; "customStrategy"; "from"; "kind"])
      as [e1|build_kind] eqn:Ek.
    { apply py_getpath_error in Ek as [[k ->]|[msg ->]]; intros [= <-]; eauto. }
    destruct (pyval_is_str "DockerImage" build_kind); [done|].
    intros [= <-]. eauto.
  - intros Hnone. unfold get_current_buildimage. rewrite Hnone. simpl. eauto.
Qed.

(** ** What a ranking holds *)

Lemma true_div_divisor a b q : true_div a b = inr q → b ≠ 0.
Proof. unfold true_div. by intros E ->. Qed.

Lemma answered_weaken env t1 t1' t2 t2' ci :
  (t2 ≤ t1)%nat → (t1' ≤ t2')%nat → answered env t1 t1' ci → answered env t2 t2' ci.
Proof.
  intros ?? (k & b & ? & ? & ?). exists k, b. split_and!; [lia..|done|done].
Qed.

Lemma get_cluster_info_tick env c p w ci w' :
  get_cluster_info env c p w = (Ret ci, w') →
  cluster ci = c ∧ answered env (tick w) (tick w') ci.
Proof.
  intros E.
  assert (tick w' = S (tick w)) as Ht.
  { unfold get_cluster_info, bind, interact, emit, raise, pure in E. simpl in E.
    repeat case_match; by simplify_eq. }
  apply get_cluster_info_inv in E as (Hc & _ & b & Hb & Hd).
  split; [done|]. exists (tick w), b. rewrite Hc. split_and!; [lia..|done|done].
Qed.

Section Answered.
Context (env : Env) (self : Plugin).

Lemma query_clusters_answered cs p ctxs possible w ctxs' possible' w' :
  query_clusters env self cs p ctxs possible w = (Ret (ctxs', possible'), w') →
  (∀ n d, ctxs !! n = Some d → failed d = true → ctxs' !! n = Some d) ∧
  ∃ new, possible' = possible ++ new ∧
    (cluster <$> new) `sublist_of` cs ∧
    Forall (answered env (tick w) (tick w')) new.
Proof.
  revert ctxs possible w. induction cs as [|c cs IH]; intros ctxs possible w E.
  { apply pure_inv in E as [? ->]. simplify_eq. split; [done|].
    exists []. by rewrite app_nil_r. }
  simpl in E.
  apply bind_Ret_inv in E as (ctx & w1 & [Hctx ->]%lookup_context_inv & E).
  apply bind_Ret_inv in E as (waiting & w2 & Ew & E).
  pose proof (evolves_of_steps _ _ _ _ (steps_in_retry_wait env ctx) Ew) as H2.
  assert (∀ ctxs0 possible0 w0,
    (tick w ≤ tick w0)%nat →
    (∀ n d, ctxs !! n = Some d → failed d = true → ctxs0 !! n = Some d) →
    query_clusters env self cs p ctxs0 possible0 w0 = (Ret (ctxs', possible'), w') →
    (tick w0 ≤ tick w')%nat ∧
    (∀ n d, ctxs !! n = Some d → failed d = true → ctxs' !! n = Some d) ∧
    ∃ new, possible' = possible0 ++ new ∧
      (cluster <$> new) `sublist_of` cs ∧
      Forall (answered env (tick w) (tick w')) new) as Hrec.
  { intros ctxs0 possible0 w0 Ht Hdead E0.
    pose proof (evolves_of_steps _ _ _ _
                  (steps_query_clusters env self _ _ _ _) E0) as H0.
    destruct (IH _ _ _ E0) as (Hdead' & new & -> & Hsub & Hnew).
    split; [apply H0|]. split; [by auto|]. exists new. split_and!; [done..|].
    eapply Forall_impl; [exact Hnew|]. intros ci.
    by apply answered_weaken. }
  assert (∀ possible0 w0,
    (tick w ≤ tick w0)%nat →
    query_clusters env self cs p ctxs possible0 w0 = (Ret (ctxs', possible'), w') →
    (∀ n d, ctxs !! n = Some d → failed d = true → ctxs' !! n = Some d) ∧
    ∃ new, possible' = possible0 ++ new ∧
      (cluster <$> new) `sublist_of` c :: cs ∧
      Forall (answered env (tick w) (tick w')) new)
    as Hskip.
  { intros possible0 w0 Ht E0.
    destruct (Hrec ctxs possible0 w0 Ht ltac:(done) E0)
      as (_ & Hd & new & -> & Hsub & Hnew).
    split; [done|]. exists new. split_and!; [done| |done]. by apply sublist_cons. }
  destruct waiting; [apply Hskip in E; [done|apply H2]|].
  destruct (failed ctx) eqn:Hf; [apply Hskip in E; [done|apply H2]|].
  apply bind_Ret_inv in E as (r & w3 & Er & E).
  pose proof (evolves_of_steps _ _ _ _
                (steps_try _ (steps_get_cluster_info env c p)) Er) as H3.
  pose proof (ev_tick _ _ H2) as Ht2. pose proof (ev_tick _ _ H3) as Ht3.
  apply try_inv in Er as [(ci & -> & Eci)|(e & -> & Eci)].
  - apply get_cluster_info_tick in Eci as (Hci & Hans).
    destruct (Hrec ctxs (possible ++ [ci]) w3)
      as (Ht' & Hdead & new & -> & Hsub & Hnew); [lia|done|done|].
    split; [done|]. exists (ci :: new). split_and!.
    + by rewrite <-(assoc (++)).
    + rewrite fmap_cons, Hci. by apply sublist_skip.
    + constructor; [|done]. eapply answered_weaken; [| |exact Hans]; lia.
  - destruct e; try (unfold raise in E; by simplify_eq).
    apply bind_Ret_inv in E as (ctx' & w4 & El & E).
    pose proof (evolves_of_steps _ _ _ _ (steps_try_again_later env _ _) El) as H4.
    pose proof (ev_tick _ _ H4) as Ht4.
    apply (Hrec _ _ _) in E.
    + destruct E as (_ & Hd & new & -> & Hsub & Hnew).
      split; [done|]. exists new. split_and!; [done| |done]. by apply sublist_cons.
    + lia.
    + intros n d Hn Hdead. rewrite lookup_insert_ne; [done|].
      intros <-. congruence.
Qed.

Lemma drop_failed_sublist ctxs cs w cs1 w' :
  drop_failed ctxs cs w = (Ret cs1, w') →
  w' = w ∧ cs1 `sublist_of` cs ∧
  ∀ c, c ∈ cs → c ∈ cs1 ∨ ∃ ctx, ctxs !! name c = Some ctx ∧ failed ctx = true.
Proof.
  revert cs1. induction cs as [|c cs IH]; intros cs1 E; simpl in E.
  { apply pure_inv in E as [? ->]. simplify_eq. split_and!; [done..|].
    by intros c ?%elem_of_nil. }
  apply bind_Ret_inv in E as (ctx & w1 & [Hctx ->]%lookup_context_inv & E).
  apply bind_Ret_inv in E as (rest & w2 & Er & E).
  apply pure_inv in E as [? ->]. simplify_eq.
  destruct (IH _ Er) as (-> & Hsub & Hin). split; [done|].
  destruct (failed ctx) eqn:Hf.
  - split; [by apply sublist_cons|].
    intros c' [->|Hc']%elem_of_cons; [right; eauto|by apply Hin].
  - split; [by apply sublist_skip|].
    intros c' [->|Hc']%elem_of_cons; [left; left|].
    destruct (Hin _ Hc') as [?|?]; [left; by right|by right].
Qed.

Lemma get_clusters_loop_answered fuel p ctxs cs w ctxs' possible w' :
  (∀ l, set_iter env l ≡ₚ l) → NoDup cs →
  get_clusters_loop env self fuel p ctxs cs w = (Ret (ctxs', possible), w') →
  (∀ n d, ctxs !! n = Some d → failed d = true → ctxs' !! n = Some d) ∧
  NoDup (cluster <$> possible) ∧
  Forall (answered env (tick w) (tick w')) possible ∧
  (possible = [] →
   ∀ c, c ∈ cs → ∃ ctx, ctxs' !! name c = Some ctx ∧ failed ctx = true).
Proof.
  intros Hset. revert ctxs cs w.
  induction fuel as [|fuel IH]; intros ctxs [|c cs] w Hnd E;
    cbn [get_clusters_loop] in E;
    try (apply pure_inv in E as [? ->]; simplify_eq;
         split_and!; [done|constructor|constructor|by intros _ ? ?%elem_of_nil]);
    try (unfold out_of_fuel in E; by simplify_eq).
  apply bind_Ret_inv in E as (? & w1 & Ew & E).
  pose proof (evolves_of_steps _ _ _ _ (steps_wait_for_any_cluster env ctxs) Ew) as H1.
  apply bind_Ret_inv in E as ([ctxs1 possible1] & w2 & Eq & E).
  pose proof (evolves_of_steps _ _ _ _ (steps_query_clusters env self _ _ _ _) Eq) as H2.
  apply bind_Ret_inv in E as (cs1 & w3 & (-> & Hsub & Hdrop)%drop_failed_sublist & E).
  apply query_clusters_answered in Eq as (Hdead & new & -> & Hsubq & Hnew).
  simpl in Hsubq, Hnew.
  pose proof (ev_tick _ _ H1) as Ht1. pose proof (ev_tick _ _ H2) as Ht2.
  destruct new as [|ci new].
  - apply IH in E as (Hdead' & Hnd' & Hans & Hempty);
      [|by eapply sublist_NoDup].
    split_and!; [by auto|done| |].
    + eapply Forall_impl; [exact Hans|]. intros ci.
      apply answered_weaken; lia.
    + intros Hp c' Hc'. destruct (Hdrop _ Hc') as [Hin|(ctx & Hctx & Hf)].
      * by apply Hempty.
      * exists ctx. split; [|done]. by apply Hdead'.
  - apply pure_inv in E as [? ->]. simplify_eq.
    split_and!; [done| | |done].
    + eapply sublist_NoDup; [|exact Hsubq].
      by rewrite sorted_perm, Hset.
    + eapply Forall_impl; [exact Hnew|]. intros ci'.
      apply answered_weaken; lia.
Qed.
End Answered.

(** X11.  A ranking returned by [get_clusters], the candidates being
    distinct, holds no cluster twice, and only clusters that answered
    a load query made during the call: the load of an entry is the
    float that the division of the number of builds the cluster
    reported by its [max_concurrent_builds], which is not zero, gives.
    The ranking is empty only when every candidate is dead.  A context
    that was dead before the call is as it was after it. *)
Theorem ranking_holds_clusters_that_answered
    env self fuel p ctxs clusters w ctxs' ret w' :
  (∀ l, set_iter env l ≡ₚ l) →
  NoDup clusters →
  get_clusters env self fuel p ctxs clusters w = (Ret (ctxs', ret), w') →
  NoDup (cluster <$> ret) ∧
  Forall (λ ci,
    max_concurrent_builds (cluster ci) ≠ 0 ∧
    ∃ k b, (tick w ≤ k < tick w')%nat ∧
      osbs_list_builds env (cluster ci) k = inr b ∧
      true_div (Z.of_nat b) (max_concurrent_builds (cluster ci))
        = inr (load ci)) ret ∧
  (ret = [] →
   ∀ c, c ∈ clusters → ∃ ctx, ctxs' !! name c = Some ctx ∧ failed ctx = true) ∧
  (∀ n d, ctxs !! n = Some d → failed d = true → ctxs' !! n = Some d).
Proof.
  intros Hset Hnd E. unfold get_clusters in E.
  apply bind_Ret_inv in E as ([ctxs1 possible] & w1 & El & E).
  apply pure_inv in E as [[= Hc Hr] ->]. subst ctxs1 ret.
  apply get_clusters_loop_answered in El as (Hdead & Hnd' & Hans & Hempty);
    [|done..].
  split_and!.
  - by rewrite !sorted_perm.
  - do 2 apply sorted_Forall. eapply Forall_impl; [exact Hans|].
    intros ci (k & b & Hk & Hb & Hd).
    split; [by eapply true_div_divisor|]. by exists k, b.
  - intros Hret. apply Hempty.
    apply Permutation_nil_r. rewrite <-Hret. by rewrite !sorted_perm.
  - done.
Qed.

(** ** A creation that is refused *)

Lemma create_build_builds env self ci w o w' :
  create_build env self ci w = (o, w') → worker_builds w' = worker_builds w.
Proof.
  intros E. unfold create_build, bind at 1, get_world in E.
  unfold bind at 1 in E.
  destruct (get_worker_build_kwargs _ _ _ _ _ _ w) as [o1 w1] eqn:Eb.
  pose proof (get_worker_build_kwargs_pure _ _ _ _ _ _ _ _ _ Eb) as ->.
  destruct o1 as [base|e|]; [|by simplify_eq..].
  unfold bind, interact, emit, raise, pure in E. simpl in E.
  destruct (osbs_create_worker_build _ _ _ _); by simplify_eq/=.
Qed.

(** X12.  When the creation of the build raises [OsbsException],
    [do_worker_build] raises it again and has recorded no build.  The
    loop over the ranking then charges the failure to the cluster
    ([try_again_later] with [failure_retry_delay]: one more failure and a
    new [retry_at], unless the cluster is dead already) and goes on with
    the next cluster of the ranking, without a new load query. *)
Theorem refused_creation_moves_to_next_cluster
    env self p ci rest (ctxs : gmap string ClusterRetryContext) ctx w msg w1 :
  ctxs !! name (cluster ci) = Some ctx →
  create_build env self ci (emit (EvAttempt p (name (cluster ci))) w).2
    = (Raise (OsbsException msg), w1) →
  do_worker_build env self ci (emit (EvAttempt p (name (cluster ci))) w).2
    = (Raise (OsbsException msg), w1) ∧
  worker_builds w1 = worker_builds w ∧
  ∃ ctx' w2,
    try_again_later env (failure_retry_delay self) ctx w1 = (Ret ctx', w2) ∧
    worker_builds w2 = worker_builds w ∧
    trace w2 = trace w1 ∧
    (if failed ctx then ctx' = ctx
     else fails ctx' = S (fails ctx) ∧
          retry_at ctx' = clock w2 + failure_retry_delay self) ∧
    start_on_clusters env self p (ci :: rest) ctxs w
      = start_on_clusters env self p rest (<[name (cluster ci) := ctx']> ctxs) w2.
Proof.
  intros Hctx Hcreate.
  set (w0 := (emit (EvAttempt p (name (cluster ci))) w).2) in *.
  assert (do_worker_build env self ci w0 = (Raise (OsbsException msg), w1)) as Hdo.
  { unfold do_worker_build, bind at 1, try_. rewrite Hcreate.
    unfold bind at 1. reflexivity. }
  pose proof (create_build_builds _ _ _ _ _ _ Hcreate) as Hb. simpl in Hb.
  split; [exact Hdo|]. split; [exact Hb|].
  destruct (try_again_later env (failure_retry_delay self) ctx w1)
    as [o2 w2] eqn:El.
  assert (∃ ctx', o2 = Ret ctx' ∧ worker_builds w2 = worker_builds w1 ∧
            trace w2 = trace w1 ∧
            (if failed ctx then ctx' = ctx
             else fails ctx' = S (fails ctx) ∧
                  retry_at ctx' = clock w2 + failure_retry_delay self))
    as (ctx' & -> & Hb2 & Ht2 & Hctx').
  { unfold try_again_later in El. destruct (failed ctx).
    - apply pure_inv in El as [-> ->]. by exists ctx.
    - unfold now, bind, interact, get_world, pure in El. simpl in El.
      simplify_eq. eexists. split_and!; reflexivity. }
  exists ctx', w2. split_and!; [done|congruence|done|done|].
  cbn [start_on_clusters]. unfold bind at 1, lookup_context at 1.
  rewrite Hctx. unfold pure at 1. unfold bind at 1.
  change (emit (EvAttempt p (name (cluster ci))) w) with (Ret tt, w0).
  unfold bind at 1, try_ at 1. rewrite Hdo.
  unfold bind at 1. by rewrite El.
Qed.

(** ** Cleaning up *)





(** ** Waiting for the time of a retry *)

Lemma bind_since_inv P {A B} (m : M A) (f : A → M B) w o w' :
  emits P m → bind m f w = (o, w') →
  (∃ a w1, m w = (Ret a, w1) ∧ since w P w1 ∧ f a w1 = (o, w')) ∨
  (since w P w' ∧ match o with Ret _ => False | _ => True end).
Proof.
  intros Hm E.
  apply bind_inv in E as [(a & w1 & Em & E)|[(e & Em & ->)|[Em ->]]].
  - left. exists a, w1. split_and!; [done| |done]. exact (Hm _ _ _ Em).
  - right. split; [exact (Hm _ _ _ Em)|done].
  - right. split; [exact (Hm _ _ _ Em)|done].
Qed.

Section RetryWait.
Context (env : Env) (self : Plugin) (n : string) (ctx : ClusterRetryContext).

Local Abbreviation P := (not_about n).

(** A round of load queries that ends before [retry_at] of the cluster
    named [n] leaves that cluster alone. *)
Lemma query_clusters_before_retry_at cs p ctxs possible w o w' :
  ctxs !! n = Some ctx →
  clock w' < retry_at ctx →
  query_clusters env self cs p ctxs possible w = (o, w') →
  since w P w' ∧
  match o with
  | Ret (ctxs', possible') =>
      ctxs' !! n = Some ctx ∧
      ∃ new, possible' = possible ++ new ∧
             Forall (λ ci, name (cluster ci) ≠ n) new
  | _ => True
  end.
Proof.
  intros Hn Hclock. revert ctxs possible w Hn.
  induction cs as [|c cs IH]; intros ctxs possible w Hn E.
  { apply pure_inv in E as [-> ->]. split; [apply since_refl|].
    split; [done|]. exists []. by rewrite app_nil_r. }
  simpl in E.
  apply bind_since_inv with (P := P) in E
    as [(ctx0 & w1 & [Hctx0 ->]%lookup_context_inv & _ & E)|[Hstop Ho]];
    [|split; [eauto using since_trans|by destruct o]|apply emits_lookup_context].
  apply bind_since_inv with (P := P) in E
    as [(waiting & w2 & Ew & Hs2 & E)|[Hstop Ho]];
    [|split; [eauto using since_trans|by destruct o]|apply emits_in_retry_wait].
  apply in_retry_wait_inv in Ew as [-> _].
  assert (∀ ctxs0 possible0 w0 new0,
    since w P w0 → ctxs0 !! n = Some ctx → possible0 = possible ++ new0 →
    Forall (λ ci, name (cluster ci) ≠ n) new0 →
    query_clusters env self cs p ctxs0 possible0 w0 = (o, w') →
    since w P w' ∧
    match o with
    | Ret (ctxs', possible') =>
        ctxs' !! n = Some ctx ∧
        ∃ new, possible' = possible ++ new ∧
               Forall (λ ci, name (cluster ci) ≠ n) new
    | _ => True
    end) as Hrec.
  { intros ctxs0 possible0 w0 new0 Hs0 Hn0 -> Hnew0 E0.
    destruct (IH _ _ _ Hn0 E0) as [Hs Ho]. split; [by eapply since_trans|].
    destruct o as [[ctxs' possible']| |]; [|done..].
    destruct Ho as (? & new & -> & Hnew). split; [done|].
    exists (new0 ++ new). split; [by rewrite (assoc (++))|by apply Forall_app]. }
  assert (possible = possible ++ []) as Hnil by (by rewrite app_nil_r).
  destruct (decide (name c = n)) as [Hc|Hc].
  - rewrite Hc, Hn in Hctx0. injection Hctx0 as <-.
    assert (evolves w2 w') as Hev.
    { eapply evolves_of_steps; [|exact E].
      destruct (clock w2 <? retry_at ctx); [apply steps_query_clusters|].
      destruct (failed ctx); [apply steps_query_clusters|].
      apply steps_bind; [apply steps_try, steps_get_cluster_info|].
      intros [e|ci]; [|apply steps_query_clusters].
      destruct e; try apply steps_raise.
      apply steps_bind; [apply steps_try_again_later|].
      intros ?. apply steps_query_clusters. }
    pose proof (ev_clock _ _ Hev) as Hle.
    destruct (clock w2 <? retry_at ctx) eqn:Ewait; [|lia].
    by eapply (Hrec ctxs possible w2 []).
  - destruct (clock w2 <? retry_at ctx0);
      [by eapply (Hrec ctxs possible w2 [])|].
    destruct (failed ctx0); [by eapply (Hrec ctxs possible w2 [])|].
    apply bind_since_inv with (P := P) in E
      as [(r & w3 & Er & Hs3 & E)|[Hstop Ho]];
      [|split; [eauto using since_trans|by destruct o]
       |by apply emits_try, emits_get_cluster_info].
    assert (since w P w3) as Hs by (by eapply since_trans).
    apply try_inv in Er as [(ci & -> & Eci)|(e & -> & Eci)].
    + apply get_cluster_info_inv in Eci as (Hci & _).
      eapply (Hrec ctxs (possible ++ [ci]) w3 [ci]); [done..| |done].
      constructor; [by rewrite Hci|done].
    + destruct e; try (unfold raise in E; by simplify_eq).
      apply bind_since_inv with (P := P) in E
        as [(ctx' & w4 & _ & Hs4 & E)|[Hstop Ho]];
        [|split; [eauto using since_trans|by destruct o]
         |apply emits_try_again_later].
      eapply (Hrec _ possible w4 []); [by eapply since_trans| |done|done|done].
      by rewrite lookup_insert_ne.
Qed.

Lemma get_clusters_loop_before_retry_at fuel p ctxs cs w o w' :
  ctxs !! n = Some ctx →
  clock w' < retry_at ctx →
  get_clusters_loop env self fuel p ctxs cs w = (o, w') →
  since w P w' ∧
  match o with
  | Ret (ctxs', possible) =>
      ctxs' !! n = Some ctx ∧ Forall (λ ci, name (cluster ci) ≠ n) possible
  | _ => True
  end.
Proof.
  intros Hn Hclock. revert ctxs cs w Hn.
  induction fuel as [|fuel IH]; intros ctxs [|c cs] w Hn E;
    cbn [get_clusters_loop] in E;
    try (apply pure_inv in E as [-> ->]; split; [apply since_refl|done]);
    try (unfold out_of_fuel in E; simplify_eq; split; [apply since_refl|done]).
  apply bind_since_inv with (P := P) in E
    as [(? & w1 & _ & Hs1 & E)|[Hstop Ho]];
    [|split; [eauto using since_trans|by destruct o]
     |apply emits_wait_for_any_cluster].
  apply bind_inv in E as [([ctxs1 possible] & w2 & Eq & E)|[(e & Eq & ->)|[Eq ->]]].
  - assert (evolves w2 w') as Hev.
    { eapply evolves_of_steps; [|exact E].
      apply steps_bind; [apply steps_drop_failed|]. intros ?.
      destruct possible; [apply steps_get_clusters_loop|apply steps_pure]. }
    pose proof (ev_clock _ _ Hev) as Hle.
    apply query_clusters_before_retry_at in Eq as [Hs2 (Hn1 & new & Hp & Hnew)];
      [|done|lia].
    simpl in Hp. subst possible.
    apply bind_since_inv with (P := P) in E
      as [(cs1 & w3 & _ & Hs3 & E)|[Hstop Ho]];
      [|split; [eauto using since_trans|by destruct o]|apply emits_drop_failed].
    assert (since w P w3) as Hs
      by (eapply since_trans; [|exact Hs3]; by eapply since_trans).
    destruct new as [|ci new].
    + apply IH in E as [Hs' Ho]; [|done]. split; [by eapply since_trans|done].
    + apply pure_inv in E as [-> ->]. by split.
  - apply query_clusters_before_retry_at in Eq as [Hs2 _]; [|done..].
    split; [by eapply since_trans|done].
  - apply query_clusters_before_retry_at in Eq as [Hs2 _]; [|done..].
    split; [by eapply since_trans|done].
Qed.
End RetryWait.

(** X14.  A call of [get_clusters] that ends before the [retry_at] of
    a cluster has made no load query of that cluster and has not ranked
    it, and it has left the retry context of that cluster as it was:
    the wait a failure imposes on a cluster is respected. *)
Theorem cluster_is_left_alone_until_retry_at
    env self fuel p (ctxs : gmap string ClusterRetryContext) clusters w o w' n ctx :
  ctxs !! n = Some ctx →
  clock w' < retry_at ctx →
  get_clusters env self fuel p ctxs clusters w = (o, w') →
  (∃ tl, trace w' = trace w ++ tl ∧ Forall (not_about n) tl) ∧
  ∀ ctxs' ret, o = Ret (ctxs', ret) →
    ctxs' !! n = Some ctx ∧ Forall (λ ci, name (cluster ci) ≠ n) ret.
Proof.
  intros Hn Hclock E. unfold get_clusters in E.
  apply bind_inv in E as [([ctxs1 possible] & w1 & El & E)|[(e & El & ->)|[El ->]]].
  - apply pure_inv in E as [-> ->].
    apply get_clusters_loop_before_retry_at with (n := n) (ctx := ctx) in El
      as [Hs [Hn1 Hall]]; [|done..].
    split; [exact Hs|]. intros ctxs' ret [= <- <-]. split; [done|].
    by do 2 apply sorted_Forall.
  - apply get_clusters_loop_before_retry_at with (n := n) (ctx := ctx) in El
      as [Hs _]; [|done..].
    split; [exact Hs|]. intros ? ? [=].
  - apply get_clusters_loop_before_retry_at with (n := n) (ctx := ctx) in El
      as [Hs _]; [|done..].
    split; [exact Hs|]. intros ? ? [=].
Qed.

(** * The theorems on the concrete orchestration *)

(** The outcome of a computation decides its equation, the final world
    being what the computation leaves. *)
Lemma run_result {A} (m : M A) w o : (m w).1 = o → m w = (o, (m w).2).
Proof. intros <-. apply surjective_pairing. Qed.

Lemma example_platforms_nonempty : platforms example_plugin ≠ ∅.
Proof.
  apply (non_empty_inhabited_L "x86_64"). simpl. set_solver.
Qed.

(** The [x86_64] task of the example ranks [x86_64-b] (load 0.5) before
    [x86_64-a] (load 0.8), and attempts [x86_64-b] first. *)
Lemma get_clusters_ranks_by_load_then_priority_witness :
  let ctxs := new_retry_contexts example_plugin (example_clusters "x86_64") in
  let m := get_clusters example_env example_plugin 10 "x86_64" ctxs
             (example_clusters "x86_64") in
  let ret := [example_cluster_info_x86_64;
              {| cluster := example_cluster "x86_64-a" 5; platform := "x86_64";
                 load := 3602879701896397 # 4503599627370496 |}] in
  (∀ l, set_iter example_env l ≡ₚ l) ∧
  m example_world = (Ret (ctxs, ret), (m example_world).2) ∧
  StronglySorted rank_le ret ∧
  ∀ o w'',
    start_on_clusters example_env example_plugin "x86_64" ret ctxs
      (m example_world).2 = (o, w'') →
    (trace (m example_world).2 ++ [EvAttempt "x86_64" "x86_64-b"])
      `prefix_of` trace w''.
Proof.
  intros ctxs m ret.
  assert (∀ l, set_iter example_env l ≡ₚ l) as Hiter by (intros l; reflexivity).
  assert (m example_world = (Ret (ctxs, ret), (m example_world).2)) as E
    by (apply (run_result m example_world (Ret (ctxs, ret))); vm_compute; reflexivity).
  split; [exact Hiter|]. split; [exact E|].
  destruct (get_clusters_ranks_by_load_then_priority
              example_env example_plugin 10 "x86_64" ctxs
              (example_clusters "x86_64") example_world ctxs ret
              (m example_world).2 Hiter E) as (Hsorted & _ & _ & Hfirst).
  split; [exact Hsorted|].
  exact (proj2 (Hfirst _ _ eq_refl)).
Defined.

(** With both [ppc64le] clusters dead, the wait raises and the task
    records the placeholder. *)
Lemma all_clusters_dead_gives_placeholder_witness :
  let msg := "Could not find appropriate cluster for worker build." in
  (∀ n ctx, example_dead_contexts !! n = Some ctx → failed ctx = true) ∧
  wait_for_any_cluster example_env_unreachable example_dead_contexts example_world
    = (Raise (AllClustersFailedException msg), example_world) ∧
  ∃ w',
    select_loop example_env_unreachable example_plugin 1 "ppc64le"
      (example_clusters "ppc64le") example_dead_contexts example_world
      = (Ret tt, w') ∧
    worker_builds w' =
      [{| build := None; wb_cluster := None; wb_platform := "ppc64le";
          monitor_exception := Some (MonStr msg) |}].
Proof.
  intros msg.
  assert (∀ n ctx, example_dead_contexts !! n = Some ctx → failed ctx = true)
    as Hdead.
  { intros n ctx H. unfold example_dead_contexts in H.
    apply lookup_insert_Some in H as [[_ <-]|[_ H]]; [reflexivity|].
    apply lookup_singleton_Some in H as [_ <-]. reflexivity. }
  split; [exact Hdead|].
  destruct (all_clusters_dead_gives_placeholder
              example_env_unreachable example_plugin 0 "ppc64le"
              (example_cluster "ppc64le-a" 5) [example_cluster "ppc64le-b" 8]
              example_dead_contexts example_world Hdead)
    as (Hwait & w' & Hloop & Hbuilds & _).
  split; [exact Hwait|]. exists w'. split; [exact Hloop|exact Hbuilds].
Defined.

(** A failure reported for a dead context changes nothing. *)
Lemma dead_cluster_is_never_selected_again_witness :
  failed example_dead_context = true ∧
  try_again_later example_env 100000 example_dead_context example_world
    = (Ret example_dead_context, example_world).
Proof.
  split; [reflexivity|].
  exact (proj1 (dead_cluster_is_never_selected_again
                  example_env example_plugin 100000 example_dead_context)
           eq_refl example_world).
Defined.

(** With the [ppc64le] clusters out of reach, [run] raises and still
    publishes one build per platform. *)
Lemma run_publishes_one_build_info_per_platform_witness :
  let env := example_env_unreachable in
  let tasks := run_tasks env example_plugin 100 (elements (platforms example_plugin)) in
  let w1 := (tasks example_world).2 in
  let diagnose := get_fail_reasons env (worker_builds w1) [] in
  let frs :=
    [("ppc64le",
      [(PStr "general", PStr "Could not find appropriate cluster for worker build.")])] in
  platforms example_plugin ≠ ∅ ∧
  worker_builds example_world = [] ∧
  tasks example_world = (Ret None, w1) ∧
  diagnose w1 = (Ret frs, (diagnose w1).2) ∧
  ∃ w' d,
    run env example_plugin 100 example_world
      = (Raise (PluginFailedException "ppc64le"), w') ∧
    plugin_workspace w' ≫= ws_build_info = Some d ∧
    d.*1 ≡ₚ ["x86_64"; "ppc64le"].
Proof.
  intros env tasks w1 diagnose frs.
  assert (tasks example_world = (Ret None, w1)) as Et
    by (apply (run_result tasks example_world (Ret None)); vm_compute; reflexivity).
  assert (diagnose w1 = (Ret frs, (diagnose w1).2)) as Ed
    by (apply (run_result diagnose w1 (Ret frs)); vm_compute; reflexivity).
  split; [exact example_platforms_nonempty|]. split; [reflexivity|].
  split; [exact Et|]. split; [exact Ed|].
  destruct (run_publishes_one_build_info_per_platform
              env example_plugin 100 example_world w1 frs (diagnose w1).2
              example_platforms_nonempty eq_refl Et Ed)
    as (w' & d & Hrun & _ & Hd & Hperm & _).
  exists w', d. split; [exact Hrun|]. split; [exact Hd|exact Hperm].
Defined.

(** The launch on [x86_64-b] submits the release overridden for
    [x86_64], not the one overridden for all platforms nor the base
    one, and the base [git_uri]. *)
Lemma do_worker_build_submits_merged_kwargs_witness :
  let ci := example_cluster_info_x86_64 in
  let base_of :=
    get_worker_build_kwargs example_plugin (release example_plugin) (platform ci)
      (koji_upload_dir example_plugin) (fs_task_id example_plugin)
      (worker_openshift example_env (cluster ci)) in
  let base : kwargs :=
    match (base_of example_world).1 with Ret base => base | _ => ∅ end in
  base_of example_world = (Ret base, example_world) ∧
  base !! "release" = Some (PStr "10") ∧
  ∃ kw : kwargs,
    kw !! "release" = Some (PStr "4242") ∧
    kw !! "git_uri" = Some (PStr "git://example") ∧
    ∀ o w', create_build example_env example_plugin ci example_world = (o, w') →
            trace w' = [EvCreate "x86_64-b" kw].
Proof.
  intros ci base_of base.
  assert (base_of example_world = (Ret base, example_world)) as E
    by (vm_compute; reflexivity).
  split; [exact E|]. split; [vm_compute; reflexivity|].
  destruct (do_worker_build_submits_merged_kwargs
              example_env example_plugin ci example_world base example_world E)
    as (kw & Hkw & Hcreate & _).
  exists kw. split; [rewrite Hkw; vm_compute; reflexivity|].
  split; [rewrite Hkw; vm_compute; reflexivity|].
  intros o w' Ec. exact (proj1 (Hcreate o w' Ec)).
Defined.

(** The task of the platform [spam], which has no cluster, raises at
    once. *)
Lemma unknown_platform_aborts_run_witness :
  "spam" ∈ platforms example_plugin_unknown_platform ∧
  get_enabled_clusters_for_platform
    (reactor_config example_plugin_unknown_platform) "spam" = [] ∧
  select_and_start_cluster example_env example_plugin_unknown_platform 100 "spam"
    example_world
    = (Raise (UnknownPlatformException "No clusters found for platform spam!"),
       example_world).
Proof.
  assert ("spam" ∈ platforms example_plugin_unknown_platform) as Hin
    by (simpl; set_solver).
  split; [exact Hin|]. split; [reflexivity|].
  exact (proj1 (unknown_platform_aborts_run
                  example_env example_plugin_unknown_platform 100 "spam"
                  Hin eq_refl) example_world).
Defined.

(** With one platform unknown, [run] raises
    [UnknownPlatformException] although the [x86_64] build, the only
    one recorded, succeeded; the last thing it did was to call
    [cancel_build] on that build, and the workspace holds no
    [build_info]. *)
Lemma unknown_platform_aborts_run_counterexample :
  let r := run example_env example_plugin_unknown_platform 100 example_world in
  r.1 = Raise (UnknownPlatformException "No clusters found for platform spam!") ∧
  (λ bi, (wb_platform bi, is_succeeded <$> build bi)) <$> worker_builds r.2
    = [("x86_64", Some true)] ∧
  last (trace r.2) = Some (EvCancelBuild "x86_64") ∧
  plugin_workspace r.2 ≫= ws_build_info = None.
Proof. vm_compute. repeat split. Qed.

(** Waiting for the [ppc64le] build raises: the build is recorded with
    the exception and the cluster is asked to cancel it. *)
Lemma monitor_failure_is_terminal_witness :
  let env := example_env_wait_error in
  let ci := example_cluster_info in
  let b := example_response "worker-build-ppc64le-b" false false None in
  let e := OsbsException "it happens" in
  let w1 := (create_build env example_plugin ci example_world).2 in
  let monitor :=
    let! i := append_worker_build
                {| build := Some b; wb_cluster := Some (cluster ci);
                   wb_platform := platform ci; monitor_exception := None |} in
    watch_logs env i;; wait_to_finish env i in
  let w3 := (monitor w1).2 in
  create_build env example_plugin ci example_world = (Ret b, w1) ∧
  monitor w1 = (Raise e, w3) ∧
  ∃ w',
    do_worker_build env example_plugin ci example_world = (Ret tt, w') ∧
    worker_builds w' =
      [{| build := Some b; wb_cluster := Some (cluster ci);
          wb_platform := platform ci;
          monitor_exception := Some (MonException e) |}] ∧
    trace w' =
      trace w3 ++ [EvCancelBuild "ppc64le";
                   EvOsbsCancel "ppc64le-b" "worker-build-ppc64le-b"].
Proof.
  intros env ci b e w1 monitor w3.
  assert (create_build env example_plugin ci example_world = (Ret b, w1)) as Ec
    by (apply (run_result (create_build env example_plugin ci) example_world (Ret b));
        vm_compute; reflexivity).
  assert (monitor w1 = (Raise e, w3)) as Em
    by (apply (run_result monitor w1 (Raise e)); vm_compute; reflexivity).
  split; [exact Ec|]. split; [exact Em|].
  destruct (monitor_failure_is_terminal
              env example_plugin ci example_world b w1 e w3 Ec Em)
    as (w' & Hdo & Hbuilds & Htrace & _).
  exists w'. split; [exact Hdo|]. split; [exact Hbuilds|exact Htrace].
Defined.

(** The [ppc64le] build carries an [errors] entry named [general]:
    waiting for it raises "it happens", which is recorded as its
    [monitor_exception], and yet the failure reason says "from the
    worker" under [general]. *)
Lemma monitor_failure_is_terminal_counterexample :
  let env := example_env_wait_error_general in
  let w' := (do_worker_build env example_plugin example_cluster_info example_world).2 in
  ∃ bi,
    worker_builds w' = [bi] ∧
    monitor_exception bi = Some (MonException (OsbsException "it happens")) ∧
    (get_fail_reason env bi w').1 = Ret [(PStr "general", PStr "from the worker")].
Proof. eexists. split; [vm_compute; reflexivity|]. vm_compute. by split. Qed.

(** Every build of the example succeeds and [run] returns. *)
Lemma run_fails_iff_some_build_failed_witness :
  let tasks := run_tasks example_env example_plugin 10
                 (elements (platforms example_plugin)) in
  let r := run example_env example_plugin 10 example_world in
  platforms example_plugin ≠ ∅ ∧
  tasks example_world = (Ret None, (tasks example_world).2) ∧
  filter build_failed (worker_builds (tasks example_world).2) = [] ∧
  r.1 = Ret tt.
Proof.
  intros tasks r.
  assert (tasks example_world = (Ret None, (tasks example_world).2)) as Et
    by (apply (run_result tasks example_world (Ret None)); vm_compute; reflexivity).
  assert (filter build_failed (worker_builds (tasks example_world).2) = []) as Hnone
    by (vm_compute; reflexivity).
  split; [exact example_platforms_nonempty|]. split; [exact Et|].
  split; [exact Hnone|].
  exact (proj1 (run_fails_iff_some_build_failed
                  example_env example_plugin 10 example_world
                  (tasks example_world).2 r.1 r.2
                  example_platforms_nonempty Et (surjective_pairing r))
           Hnone).
Defined.




(** The failure reason of a build that was not started and has no
    monitor exception. *)
Lemma get_fail_reason_returns_or_propagates_witness :
  let bi :=
    {| build := None; wb_cluster := Some (example_cluster "ppc64le-b" 8);
       wb_platform := "ppc64le"; monitor_exception := None |} in
  let r := get_fail_reason example_env bi example_world in
  get_fail_reason example_env bi example_world = (r.1, r.2) ∧
  r.1 = Ret [(PStr "general", PStr "build not started")] ∧
  r.2 = example_world.
Proof.
  intros bi r.
  split; [exact (surjective_pairing r)|]. split; [reflexivity|].
  exact (proj1 (proj1 (get_fail_reason_returns_or_propagates
                         example_env bi example_world _ r.2 eq_refl))).
Defined.

(** [get_fail_reason] raises on a build whose [plugins-metadata]
    annotation is not JSON: [json.loads] is outside every [try]. *)
Lemma get_fail_reason_returns_or_propagates_counterexample :
  get_fail_reason example_env example_bad_metadata_build example_world
    = (Raise (ValueError example_decode_error), example_world).
Proof. reflexivity. Qed.

(** ** The further properties on the concrete orchestration *)

(** For the task id 0 no [filesystem_koji_task_id] is passed on. *)
Lemma get_worker_build_kwargs_entries_witness :
  let r := get_worker_build_kwargs example_plugin (PStr "10") "x86_64"
             "koji-upload" (Some 0) PNone example_world in
  r = (r.1, r.2) ∧
  r.2 = example_world ∧
  ∃ kw : kwargs,
    r.1 = Ret kw ∧
    kw !! "filesystem_koji_task_id" = None ∧
    kw !! "architecture" = None ∧
    kw !! "platform" = Some (PStr "x86_64").
Proof.
  intros r.
  destruct (get_worker_build_kwargs_entries example_plugin (PStr "10") "x86_64"
              "koji-upload" (Some 0) PNone example_world r.1 r.2
              (surjective_pairing r)) as [Hw H].
  split; [apply surjective_pairing|]. split; [exact Hw|].
  assert (∃ kw, r.1 = Ret kw) as [kw Hkw] by (eexists; reflexivity).
  rewrite Hkw in H. destruct H as (Ha & _ & Hp & _ & Ht & _).
  exists kw. split; [exact Hkw|]. split; [|split; [exact Ha|exact Hp]].
  rewrite Ht. reflexivity.
Defined.

(** A cluster that has not failed can be retried at once: no sleep. *)
Lemma wait_for_any_cluster_sleeps_until_earliest_retry_witness :
  example_alive_contexts !! "x86_64-a" = Some (new_ClusterRetryContext 2) ∧
  failed (new_ClusterRetryContext 2) = false ∧
  ∃ w',
    wait_for_any_cluster example_env example_alive_contexts example_world
      = (Ret tt, w') ∧
    trace w' = [EvSleep 0].
Proof.
  assert (example_alive_contexts !! "x86_64-a" = Some (new_ClusterRetryContext 2))
    as Hctx by reflexivity.
  split; [exact Hctx|]. split; [reflexivity|].
  destruct (wait_for_any_cluster_sleeps_until_earliest_retry
              example_env example_alive_contexts example_world "x86_64-a"
              (new_ClusterRetryContext 2) Hctx eq_refl)
    as (n0 & ctx0 & w' & Hn0 & _ & _ & Hwait & Htrace & _ & _ & _ & Hzero).
  exists w'. split; [exact Hwait|].
  unfold example_alive_contexts in Hn0.
  apply lookup_singleton_Some in Hn0 as [_ <-].
  rewrite Htrace, Hzero; [reflexivity|]. simpl. lia.
Defined.

(** After the run of the example, which returns, the upload directory
    and both builds can be read back. *)
Lemma published_builds_can_be_read_back_witness :
  let r := run example_env example_plugin 10 example_world in
  worker_builds example_world = [] ∧
  r = (Ret tt, r.2) ∧
  get_koji_upload_dir "orchestrate_build" r.2 = (Ret "koji-upload", r.2) ∧
  ∃ bi,
    get_worker_build_info "orchestrate_build" "ppc64le" r.2 = (Ret bi, r.2) ∧
    wb_platform bi = "ppc64le".
Proof.
  intros r.
  assert (r = (Ret tt, r.2)) as E
    by (apply (run_result (run example_env example_plugin 10) example_world (Ret tt));
        vm_compute; reflexivity).
  split; [reflexivity|]. split; [exact E|].
  destruct (published_builds_can_be_read_back example_env example_plugin
              "orchestrate_build" 10 example_world r.2 eq_refl E) as [Hdir Hinfo].
  split; [exact Hdir|].
  specialize (Hinfo "ppc64le").
  rewrite decide_True in Hinfo by (simpl; set_solver).
  destruct Hinfo as (bi & b & Hget & Hp & _).
  exists bi. split; [exact Hget|exact Hp].
Defined.

(** With an unknown platform, [run] raises and the workspace is as it
    was. *)
Lemma run_publishes_all_or_nothing_witness :
  let r := run example_env example_plugin_unknown_platform 100 example_world in
  r = (r.1, r.2) ∧
  plugin_workspace r.2 = plugin_workspace example_world.
Proof.
  intros r. split; [apply surjective_pairing|].
  destruct (run_publishes_all_or_nothing example_env
              example_plugin_unknown_platform 100 example_world r.1 r.2
              (surjective_pairing r)) as [[Hws _]|[Hws _]]; [exact Hws|].
  exfalso.
  assert (plugin_workspace r.2 ≫= ws_build_info = None) as Hnone
    by (vm_compute; reflexivity).
  rewrite Hws in Hnone. discriminate.
Defined.

(** The [x86_64] build of the example: its one log line is relayed and
    the finished build is recorded. *)
Lemma do_worker_build_records_the_finished_build_witness :
  let ci := example_cluster_info_x86_64 in
  let b := example_response "worker-build-x86_64-b" false false None in
  let b' := example_response "worker-build-x86_64-b" true true None in
  let w1 := (create_build example_env example_plugin ci example_world).2 in
  create_build example_env example_plugin ci example_world = (Ret b, w1) ∧
  osbs_get_build_logs example_env (cluster ci) (get_build_name b) (tick w1)
    = (["line 1"], None) ∧
  osbs_wait_for_build_to_finish example_env (cluster ci) (get_build_name b)
    (S (tick w1)) = inr b' ∧
  ∃ w',
    do_worker_build example_env example_plugin ci example_world = (Ret tt, w') ∧
    worker_builds w' =
      [{| build := Some b'; wb_cluster := Some (cluster ci);
          wb_platform := "x86_64"; monitor_exception := None |}].
Proof.
  intros ci b b' w1.
  assert (create_build example_env example_plugin ci example_world = (Ret b, w1))
    as Ec
    by (apply (run_result (create_build example_env example_plugin ci)
                 example_world (Ret b)); vm_compute; reflexivity).
  split; [exact Ec|]. split; [reflexivity|]. split; [reflexivity|].
  destruct (do_worker_build_records_the_finished_build
              example_env example_plugin ci example_world b w1 ["line 1"] b'
              Ec eq_refl eq_refl) as (w' & Hdo & Hbuilds & _).
  exists w'. split; [exact Hdo|exact Hbuilds].
Defined.

Lemma example_clusters_NoDup : NoDup (example_clusters "x86_64").
Proof.
  apply (NoDup_fmap_1 name). simpl.
  apply NoDup_cons. split; [|apply NoDup_singleton].
  rewrite list_elem_of_singleton. discriminate.
Qed.

(** The ranking of the [x86_64] task holds its two clusters, once
    each. *)
Lemma ranking_holds_clusters_that_answered_witness :
  let ctxs := new_retry_contexts example_plugin (example_clusters "x86_64") in
  let m := get_clusters example_env example_plugin 10 "x86_64" ctxs
             (example_clusters "x86_64") in
  let ret := [example_cluster_info_x86_64;
              {| cluster := example_cluster "x86_64-a" 5; platform := "x86_64";
                 load := 3602879701896397 # 4503599627370496 |}] in
  (∀ l, set_iter example_env l ≡ₚ l) ∧
  NoDup (example_clusters "x86_64") ∧
  m example_world = (Ret (ctxs, ret), (m example_world).2) ∧
  NoDup (cluster <$> ret).
Proof.
  intros ctxs m ret.
  assert (∀ l, set_iter example_env l ≡ₚ l) as Hiter by (intros l; reflexivity).
  assert (m example_world = (Ret (ctxs, ret), (m example_world).2)) as E
    by (apply (run_result m example_world (Ret (ctxs, ret))); vm_compute; reflexivity).
  split; [exact Hiter|]. split; [exact example_clusters_NoDup|]. split; [exact E|].
  exact (proj1 (ranking_holds_clusters_that_answered
                  example_env example_plugin 10 "x86_64" ctxs
                  (example_clusters "x86_64") example_world ctxs ret
                  (m example_world).2 Hiter example_clusters_NoDup E)).
Defined.

(** The creation of the [ppc64le] build is refused on the cluster
    ranked first: nothing is recorded. *)
Lemma refused_creation_moves_to_next_cluster_witness :
  let env := example_env_create_refused in
  let ci := example_cluster_info in
  let ctxs := new_retry_contexts example_plugin (example_clusters "ppc64le") in
  let w0 := (emit (EvAttempt "ppc64le" (name (cluster ci))) example_world).2 in
  let w1 := (create_build env example_plugin ci w0).2 in
  ctxs !! name (cluster ci) = Some (new_ClusterRetryContext 2) ∧
  create_build env example_plugin ci w0 = (Raise (OsbsException "it happens"), w1) ∧
  do_worker_build env example_plugin ci w0 = (Raise (OsbsException "it happens"), w1) ∧
  worker_builds w1 = [].
Proof.
  intros env ci ctxs w0 w1.
  assert (ctxs !! name (cluster ci) = Some (new_ClusterRetryContext 2)) as Hctx
    by (vm_compute; reflexivity).
  assert (create_build env example_plugin ci w0
          = (Raise (OsbsException "it happens"), w1)) as Ec
    by (apply (run_result (create_build env example_plugin ci) w0
                 (Raise (OsbsException "it happens"))); vm_compute; reflexivity).
  split; [exact Hctx|]. split; [exact Ec|].
  destruct (refused_creation_moves_to_next_cluster env example_plugin "ppc64le"
              ci [] ctxs (new_ClusterRetryContext 2) example_world "it happens" w1
              Hctx Ec) as (Hdo & Hb & _).
  split; [exact Hdo|exact Hb].
Defined.


(** While [x86_64-a] waits for its retry, the ranking is made without
    it. *)
Lemma cluster_is_left_alone_until_retry_at_witness :
  let r := get_clusters example_env example_plugin 10 "x86_64"
             example_waiting_contexts (example_clusters "x86_64") example_world in
  example_waiting_contexts !! "x86_64-a" = Some example_waiting_context ∧
  clock r.2 < retry_at example_waiting_context ∧
  r = (r.1, r.2) ∧
  ∃ tl, trace r.2 = trace example_world ++ tl ∧
        Forall (not_about "x86_64-a") tl.
Proof.
  intros r.
  assert (example_waiting_contexts !! "x86_64-a" = Some example_waiting_context)
    as Hctx by (vm_compute; reflexivity).
  assert (clock r.2 < retry_at example_waiting_context) as Hclock
    by (vm_compute; reflexivity).
  split; [exact Hctx|]. split; [exact Hclock|].
  split; [apply surjective_pairing|].
  exact (proj1 (cluster_is_left_alone_until_retry_at example_env example_plugin 10
                  "x86_64" example_waiting_contexts (example_clusters "x86_64")
                  example_world r.1 r.2 "x86_64-a" example_waiting_context
                  Hctx Hclock (surjective_pairing r))).
Defined.
